(** * slingshot-api: request gate, freshness cache, polling supervisor and
      bracket reconciler

    A shallow embedding of the data-synchronisation core of the repository:

    - [src/services/rateLimiter.js]      (class RateLimiter, the request gate),
    - [src/services/dataCache.js]        (class DataCache, the freshness cache;
                                          groupRelatedOrders and its helpers,
                                          the bracket reconciler),
    - [src/services/tradovateClient.js]  (class TradovateDataCollector, the
                                          polling supervisor).

    Conventions of the embedding.

    - JavaScript values that the code only tests for truthiness, compares
      with [===] or copies around are values of [jsval]; numbers are
      integers ([Z]), fractions are outside the model, and the one number
      that can be NaN (the end of a penalty window, which comes out of
      [parseInt]) is an [option Z].
    - Strings are ASCII strings; [toLowerCase] maps A-Z to a-z.
    - A property that is absent from an object reads as [JUndefined].
    - Time is an integer number of milliseconds ([Date.now()]).
    - Asynchronous code is cut at its [await] points: every synchronous
      stretch between two awaits is one atomic transition, which is how the
      host's single-threaded event loop runs it. *)

From Stdlib Require Import ZArith Bool List String Ascii Lia.
From stdpp Require Import base decidable countable gmap strings list numbers.

Open Scope Z_scope.

(* ===================================================================== *)
(** * Part I.  Definitions                                                *)
(* ===================================================================== *)

(** ** JavaScript values *)

Module JS.

Inductive jsval : Type :=
| JUndefined
| JNull
| JBool (b : bool)
| JNum (n : Z)
| JStr (s : string).

#[global] Instance jsval_eq_dec : EqDecision jsval.
Proof. solve_decision. Defined.

#[global] Instance jsval_countable : Countable jsval.
Proof.
  refine (inj_countable'
    (fun v => match v with
              | JUndefined => inl (inl tt)
              | JNull => inl (inr tt)
              | JBool b => inr (inl b)
              | JNum n => inr (inr (inl n))
              | JStr s => inr (inr (inr s))
              end)
    (fun x => match x with
              | inl (inl _) => JUndefined
              | inl (inr _) => JNull
              | inr (inl b) => JBool b
              | inr (inr (inl n)) => JNum n
              | inr (inr (inr s)) => JStr s
              end) _).
  by intros [].
Defined.

(** [ToBoolean]: undefined, null, false, 0 and the empty string are falsy. *)
Definition truthy (v : jsval) : bool :=
  match v with
  | JUndefined | JNull => false
  | JBool b => b
  | JNum n => negb (n =? 0)
  | JStr s => negb (String.eqb s "")
  end.

(** [a || b] *)
Definition js_or (a b : jsval) : jsval := if truthy a then a else b.

(** [a === b] *)
Definition strict_eq (a b : jsval) : bool := bool_decide (a = b).

(** [s || d] for a property that holds a string when it is present. *)
Definition str_or (s : option string) (d : string) : string :=
  match s with
  | Some x => if String.eqb x "" then d else x
  | None => d
  end.

(** Truthiness of a property that holds a string when it is present. *)
Definition str_truthy (s : option string) : bool :=
  match s with
  | Some x => negb (String.eqb x "")
  | None => false
  end.

Definition lower_ascii (c : ascii) : ascii :=
  let n := nat_of_ascii c in
  if ((65 <=? n)%nat && (n <=? 90)%nat)%bool then ascii_of_nat (n + 32) else c.

(** [String.prototype.toLowerCase] *)
Fixpoint toLowerCase (s : string) : string :=
  match s with
  | EmptyString => EmptyString
  | String c s' => String (lower_ascii c) (toLowerCase s')
  end.

(** [s.includes(sub)] *)
Fixpoint includes (s sub : string) : bool :=
  String.prefix sub s ||
  match s with
  | EmptyString => false
  | String _ s' => includes s' sub
  end.

End JS.

Import JS.

(* --------------------------------------------------------------------- *)
(** ** Bracket reconciler  (dataCache.js: groupRelatedOrders)               *)
(* --------------------------------------------------------------------- *)

(** An order record as the brokerage returns it and as the cache stores
    it.  [orderType] and [text] hold strings when present ([toLowerCase]
    is applied to them); every other property is only compared, tested for
    truthiness or copied. *)
Module Order.
Record t : Type := mk {
  id : jsval;
  orderId : jsval;
  action : jsval;
  orderType : option string;
  text : option string;
  orderQty : jsval;
  price : jsval;
  limitPrice : jsval;
  stopPrice : jsval;
  workingPrice : jsval;
  linkedId : jsval;
  parentId : jsval;
  ocoId : jsval;
  status : jsval;
  ordStatus : jsval
}.
End Order.

Inductive Role : Type := entry | stop | target | other.

#[global] Instance Role_eq_dec : EqDecision Role.
Proof. solve_decision. Defined.

(** The sub-records of [bracketDetails].  The entry sub-record has the keys
    action, qty, price, orderId, status; a stop-loss or take-profit
    sub-record has price, orderId, status, orderType.  A key the object
    literal does not write reads as undefined ([JUndefined], [None]). *)
Module Summary.
Record t : Type := mk {
  action : jsval;
  qty : jsval;
  price : jsval;
  orderId : jsval;
  status : jsval;
  orderType : option string
}.
End Summary.

Module Details.
Record t : Type := mk {
  entry : option Summary.t;
  stopLoss : option Summary.t;
  takeProfit : option Summary.t
}.
End Details.

(** An element of the array [groupRelatedOrders] returns: the properties
    spread from an order ([base]) overwritten by [orderType] and [isGroup],
    and for a bracket also [groupSize] and [bracketDetails]. *)
Module Group.
Record t : Type := mk {
  base : option Order.t;
  orderType : string;
  isGroup : bool;
  groupSize : option nat;
  bracketDetails : option Details.t
}.
End Group.

(** [order.id || order.orderId] *)
Definition orderIdOf (order : Order.t) : jsval :=
  js_or (Order.id order) (Order.orderId order).

Definition getOrderRole (order : Order.t) : Role :=
  let orderType := toLowerCase (str_or (Order.orderType order) "") in
  let text := toLowerCase (str_or (Order.text order) "") in
  if includes orderType "stop"
     || negb (strict_eq (Order.stopPrice order) JUndefined)
     || includes text "stop"
     || includes text "sl"
     || String.eqb orderType "stoplimit"
  then stop
  else if (includes orderType "limit"
           && (includes text "profit" || includes text "target" || includes text "tp"))
          || (String.eqb orderType "limit"
              && truthy (Order.linkedId order)
              && negb (truthy (Order.stopPrice order)))
  then target
  else if includes orderType "market"
          || (includes orderType "limit"
              && negb (truthy (Order.linkedId order))
              && negb (truthy (Order.stopPrice order)))
  then entry
  else other.

(** The relation test in the body of the loop of [findRelatedOrders]. *)
Definition isRelated (mainOrder order : Order.t) : bool :=
  let mainOrderId := orderIdOf mainOrder in
  let orderId := orderIdOf order in
  let linkedRelation :=
    strict_eq (Order.linkedId order) mainOrderId
    || strict_eq (Order.linkedId mainOrder) orderId in
  let ocoRelation :=
    strict_eq (Order.ocoId order) orderId
    || strict_eq (Order.ocoId order) mainOrderId in
  let parentChildRelation :=
    strict_eq (Order.parentId order) mainOrderId
    || strict_eq (Order.parentId mainOrder) orderId in
  let siblingRelation :=
    truthy (Order.parentId order) && truthy (Order.parentId mainOrder)
    && strict_eq (Order.parentId order) (Order.parentId mainOrder) in
  let sharedLinkedId :=
    truthy (Order.linkedId mainOrder)
    && strict_eq (Order.linkedId order) (Order.linkedId mainOrder) in
  let linkedBySharedId :=
    truthy (Order.linkedId mainOrder)
    && strict_eq orderId (Order.linkedId mainOrder) in
  linkedRelation || ocoRelation || parentChildRelation || siblingRelation
  || sharedLinkedId || linkedBySharedId.

Definition findRelatedOrders (mainOrder : Order.t) (allOrders : list Order.t)
  : list Order.t :=
  mainOrder ::
  List.filter
    (fun order => negb (strict_eq (orderIdOf order) (orderIdOf mainOrder))
                  && isRelated mainOrder order)
    allOrders.

(** [const roleOrder = { 'entry': 0, 'stop': 1, 'target': 2, 'other': 3 }] *)
Definition roleOrder (r : Role) : Z :=
  match r with entry => 0 | stop => 1 | target => 2 | other => 3 end.

(** [roleOrder[role] || 3] *)
Definition roleRank (r : Role) : Z :=
  if roleOrder r =? 0 then 3 else roleOrder r.

(** The comparator handed to [Array.prototype.sort]. *)
Definition compareRoles (a b : Order.t) : Z :=
  roleRank (getOrderRole a) - roleRank (getOrderRole b).

(** [Array.prototype.sort] is stable: the result is the one arrangement
    that is ordered by the comparator and keeps equal elements in their
    original order; stable insertion computes it. *)
Fixpoint sortInsert (o : Order.t) (sorted : list Order.t) : list Order.t :=
  match sorted with
  | [] => [o]
  | x :: rest =>
      if compareRoles o x <=? 0 then o :: x :: rest
      else x :: sortInsert o rest
  end.

Definition sortByRole (l : list Order.t) : list Order.t :=
  List.fold_right sortInsert [] l.

(** [order.price || order.limitPrice || order.stopPrice || order.workingPrice || null] *)
Definition extractOrderPrice (order : Order.t) : jsval :=
  js_or (js_or (js_or (js_or (Order.price order) (Order.limitPrice order))
                      (Order.stopPrice order))
               (Order.workingPrice order))
        JNull.

Definition entrySummary (o : Order.t) : Summary.t :=
  {| Summary.action := Order.action o;
     Summary.qty := Order.orderQty o;
     Summary.price := extractOrderPrice o;
     Summary.orderId := js_or (Order.orderId o) (Order.id o);
     Summary.status := js_or (Order.ordStatus o) (Order.status o);
     Summary.orderType := None |}.

Definition legSummary (o : Order.t) : Summary.t :=
  {| Summary.action := JUndefined;
     Summary.qty := JUndefined;
     Summary.price := extractOrderPrice o;
     Summary.orderId := js_or (Order.orderId o) (Order.id o);
     Summary.status := js_or (Order.ordStatus o) (Order.status o);
     Summary.orderType := Order.orderType o |}.

Definition hasRole (r : Role) (o : Order.t) : bool :=
  bool_decide (getOrderRole o = r).

Definition createBracketOrderGroup (relatedOrders : list Order.t) : Group.t :=
  let sortedOrders := sortByRole relatedOrders in
  let entryOrder :=
    match List.find (hasRole entry) sortedOrders with
    | Some o => Some o
    | None => List.head sortedOrders
    end in
  let stopOrder := List.find (hasRole stop) sortedOrders in
  let targetOrder := List.find (hasRole target) sortedOrders in
  {| Group.base := entryOrder;
     Group.orderType := "Bracket";
     Group.isGroup := true;
     Group.groupSize := Some (length relatedOrders);
     Group.bracketDetails :=
       Some {| Details.entry := option_map entrySummary entryOrder;
               Details.stopLoss := option_map legSummary stopOrder;
               Details.takeProfit := option_map legSummary targetOrder |} |}.

(** The value of [entryOrder] in [createBracketOrderGroup], read off the
    unsorted array: the first member of the entry role, and when there is
    none the first member in sorted order. *)
Definition primaryOrder (members : list Order.t) : option Order.t :=
  match List.find (hasRole entry) members with
  | Some e => Some e
  | None => List.head (sortByRole members)
  end.

Definition standaloneGroup (order : Order.t) : Group.t :=
  {| Group.base := Some order;
     Group.orderType := str_or (Order.orderType order) "Single";
     Group.isGroup := false;
     Group.groupSize := None;
     Group.bracketDetails := None |}.

(** The loop of [groupRelatedOrders].  [processedOrderIds] is the [Set] of
    the source.  Each emitted group is paired with the orders it was made
    from (the related set, or the order alone): the emitted object itself
    keeps only their number. *)
Fixpoint groupLoop (orders : list Order.t) (processedOrderIds : gset jsval)
    (rest : list Order.t) : list (list Order.t * Group.t) :=
  match rest with
  | [] => []
  | order :: rest' =>
      let orderId := orderIdOf order in
      if decide (orderId ∈ processedOrderIds)
      then groupLoop orders processedOrderIds rest'
      else
        let relatedOrders := findRelatedOrders order orders in
        if (1 <? length relatedOrders)%nat
        then (relatedOrders, createBracketOrderGroup relatedOrders)
             :: groupLoop orders
                  (processedOrderIds ∪ list_to_set (List.map orderIdOf relatedOrders))
                  rest'
        else ([order], standaloneGroup order)
             :: groupLoop orders (processedOrderIds ∪ {[ orderId ]}) rest'
  end.

Definition groupedWithMembers (orders : list Order.t)
  : list (list Order.t * Group.t) :=
  groupLoop orders ∅ orders.

Definition groupRelatedOrders (orders : list Order.t) : list Group.t :=
  List.map snd (groupedWithMembers orders).

(* --------------------------------------------------------------------- *)
(** ** Freshness cache  (dataCache.js: class DataCache)                    *)
(* --------------------------------------------------------------------- *)

Inductive Mode : Type := IDLE | ACTIVE | CRITICAL.

#[global] Instance Mode_eq_dec : EqDecision Mode.
Proof. solve_decision. Defined.

(** The texts written to [mode_change_reason]. *)
Inductive Reason : Type :=
| NoTradingActivity                                     (* 'No trading activity' *)
| HighActivity (openPositions workingOrders : Z)        (* `High activity: ...` *)
| ActiveTrading (openPositions workingOrders : Z)       (* `Active trading: ...` *)
| InitialState                                          (* 'Initial state' *)
| RateLimitProtection                                   (* 'Rate limit protection' *)
| AutoRevertFromForcedMode                              (* 'Auto-revert from forced mode' *)
| CallerReason (s : string).                            (* the caller's text *)

Inductive DataType : Type := balance | positions | orders.

#[global] Instance DataType_eq_dec : EqDecision DataType.
Proof. solve_decision. Defined.

Module Position.
Record t : Type := mk { contractId : jsval; netPos : jsval; netPrice : jsval }.
End Position.

Module Balance.
Record t : Type := mk { balance : jsval; equity : jsval; margin : jsval; dayPnL : jsval }.
End Balance.

Module DataCache.

(** One row of each table; the tables are keyed by [account_id]. *)
Inductive AccountData : Type :=
| FromBrokerage (name : string)     (* an element of the account list *)
| Placeholder.                      (* { id: accountId, name: `Account ${accountId}` } *)

Record AccountRow : Type := {
  account_data : AccountData;
  account_last_updated : Z
}.

Record BalanceRow : Type := {
  balance_data : Balance.t;
  balance_last_updated : Z
}.

Record PositionsRow : Type := {
  positions_data : list Position.t;
  positions_last_updated : Z;
  open_positions_count : Z
}.

Record OrdersRow : Type := {
  orders_data : list Order.t;
  orders_last_updated : Z;
  working_orders_count : Z
}.

Record PollingRow : Type := {
  current_mode : Mode;
  last_mode_change : Z;
  mode_change_reason : Reason;
  last_poll_timestamp : Z
}.

Record LogRow : Type := {
  log_account_id : Z;
  data_type : string;
  update_timestamp : Z;
  success : bool;
  error_message : option string;
  response_time_ms : option Z
}.

Record t : Type := mk {
  isInitialized : bool;
  accounts_cache : gmap Z AccountRow;
  account_balances : gmap Z BalanceRow;
  positions_cache : gmap Z PositionsRow;
  orders_cache : gmap Z OrdersRow;
  polling_state : gmap Z PollingRow;
  update_log : list LogRow
}.

(** The cache before [initialize()], and right after it on an empty file. *)
Definition closed : t := mk false ∅ ∅ ∅ ∅ ∅ [].
Definition fresh : t := mk true ∅ ∅ ∅ ∅ ∅ [].

Definition logUpdate (now : Z) (c : t) (accountId : Z) (dataType : string)
    (ok : bool) (errorMessage : option string) (responseTime : option Z) : t :=
  if negb (isInitialized c) then c
  else mk (isInitialized c) (accounts_cache c) (account_balances c)
          (positions_cache c) (orders_cache c) (polling_state c)
          (update_log c ++ [ {| log_account_id := accountId;
                                data_type := dataType;
                                update_timestamp := now;
                                success := ok;
                                error_message := errorMessage;
                                response_time_ms := responseTime |} ]).

Definition cacheAccountData (now : Z) (c : t) (accountId : Z)
    (accountData : AccountData) : t :=
  if negb (isInitialized c) then c
  else logUpdate now
         (mk (isInitialized c)
             (<[accountId := {| account_data := accountData;
                                account_last_updated := now |}]>
                (accounts_cache c))
             (account_balances c) (positions_cache c) (orders_cache c)
             (polling_state c) (update_log c))
         accountId "account_data" true None None.

Definition cacheAccountBalance (now : Z) (c : t) (accountId : Z)
    (balanceData : Balance.t) : t :=
  if negb (isInitialized c) then c
  else logUpdate now
         (mk (isInitialized c) (accounts_cache c)
             (<[accountId := {| balance_data := balanceData;
                                balance_last_updated := now |}]>
                (account_balances c))
             (positions_cache c) (orders_cache c) (polling_state c) (update_log c))
         accountId "balance" true None None.

(** [positionsData.filter(p => p.netPos !== 0).length] *)
Definition countOpenPositions (positionsData : list Position.t) : Z :=
  Z.of_nat (length (List.filter
    (fun p => negb (strict_eq (Position.netPos p) (JNum 0))) positionsData)).

Definition cachePositions (now : Z) (c : t) (accountId : Z)
    (positionsData : list Position.t) : t :=
  if negb (isInitialized c) then c
  else
    let openPositions := countOpenPositions positionsData in
    logUpdate now
      (mk (isInitialized c) (accounts_cache c) (account_balances c)
          (<[accountId := {| positions_data := positionsData;
                             positions_last_updated := now;
                             open_positions_count := openPositions |}]>
             (positions_cache c))
          (orders_cache c) (polling_state c) (update_log c))
      accountId "positions" true None None.

(** The filter of [cacheOrders]:
    [const status = o.status || o.ordStatus; return status === 'Working'] *)
Definition isWorking (o : Order.t) : bool :=
  strict_eq (js_or (Order.status o) (Order.ordStatus o)) (JStr "Working").

Definition countWorkingOrders (ordersData : list Order.t) : Z :=
  Z.of_nat (length (List.filter isWorking ordersData)).

(** The working-order count as the specification words it: the orders whose
    status is neither filled, nor cancelled, nor rejected (the brokerage
    spells the second one 'Canceled'; both spellings are excluded here). *)
Definition specEligibleToFill (o : Order.t) : bool :=
  let status := js_or (Order.status o) (Order.ordStatus o) in
  negb (strict_eq status (JStr "Filled")
        || strict_eq status (JStr "Canceled")
        || strict_eq status (JStr "Cancelled")
        || strict_eq status (JStr "Rejected")).

Definition specWorkingOrdersCount (ordersData : list Order.t) : Z :=
  Z.of_nat (length (List.filter specEligibleToFill ordersData)).

Definition cacheOrders (now : Z) (c : t) (accountId : Z)
    (ordersData : list Order.t) : t :=
  if negb (isInitialized c) then c
  else
    let workingOrders := countWorkingOrders ordersData in
    logUpdate now
      (mk (isInitialized c) (accounts_cache c) (account_balances c)
          (positions_cache c)
          (<[accountId := {| orders_data := ordersData;
                             orders_last_updated := now;
                             working_orders_count := workingOrders |}]>
             (orders_cache c))
          (polling_state c) (update_log c))
      accountId "orders" true None None.

Definition getCachedAccountData (c : t) (accountId : Z) : option AccountRow :=
  if negb (isInitialized c) then None else accounts_cache c !! accountId.

(** What [getCachedPositions] and [getCachedOrders] return. *)
Record CachedPositions : Type := {
  cp_data : list Position.t;
  cp_lastUpdated : Z;
  cp_age : Z;
  openPositionsCount : Z
}.

Record CachedOrders : Type := {
  co_data : list Order.t;
  co_lastUpdated : Z;
  co_age : Z;
  workingOrdersCount : Z
}.

Definition getCachedPositions (now : Z) (c : t) (accountId : Z)
  : option CachedPositions :=
  if negb (isInitialized c) then None
  else match positions_cache c !! accountId with
       | Some result =>
           Some {| cp_data := positions_data result;
                   cp_lastUpdated := positions_last_updated result;
                   cp_age := now - positions_last_updated result;
                   openPositionsCount := open_positions_count result |}
       | None => None
       end.

Definition getCachedOrders (now : Z) (c : t) (accountId : Z)
  : option CachedOrders :=
  if negb (isInitialized c) then None
  else match orders_cache c !! accountId with
       | Some result =>
           Some {| co_data := orders_data result;
                   co_lastUpdated := orders_last_updated result;
                   co_age := now - orders_last_updated result;
                   workingOrdersCount := working_orders_count result |}
       | None => None
       end.

Definition updatePollingState (now : Z) (c : t) (accountId : Z) (mode : Mode)
    (reason : Reason) : t :=
  if negb (isInitialized c) then c
  else mk (isInitialized c) (accounts_cache c) (account_balances c)
          (positions_cache c) (orders_cache c)
          (<[accountId := {| current_mode := mode;
                             last_mode_change := now;
                             mode_change_reason := reason;
                             last_poll_timestamp := now |}]>
             (polling_state c))
          (update_log c).

Definition getPollingState (c : t) (accountId : Z) : option PollingRow :=
  if negb (isInitialized c) then None else polling_state c !! accountId.

(** [count || 0], where [None] is a count read through [?.] from nothing. *)
Definition count_or_0 (count : option Z) : Z :=
  match count with
  | Some n => if n =? 0 then 0 else n
  | None => 0
  end.

Record PollingInfo : Type := {
  mode : Mode;
  reason : Reason;
  openPositions : Z;
  workingOrders : Z
}.

Definition determinePollingMode (now : Z) (c : t) (accountId : Z) : PollingInfo :=
  let positions := getCachedPositions now c accountId in
  let orders := getCachedOrders now c accountId in
  let openPositions := count_or_0 (openPositionsCount <$> positions) in
  let workingOrders := count_or_0 (workingOrdersCount <$> orders) in
  if (openPositions =? 0) && (workingOrders =? 0)
  then {| mode := IDLE; reason := NoTradingActivity;
          openPositions := openPositions; workingOrders := workingOrders |}
  else if (2 <? openPositions) || (3 <? workingOrders)
  then {| mode := CRITICAL; reason := HighActivity openPositions workingOrders;
          openPositions := openPositions; workingOrders := workingOrders |}
  else {| mode := ACTIVE; reason := ActiveTrading openPositions workingOrders;
          openPositions := openPositions; workingOrders := workingOrders |}.


(** *** The rest of the class *)

Record CachedBalance : Type := {
  cb_data : Balance.t;
  cb_lastUpdated : Z;
  cb_age : Z
}.

Definition getCachedAccountBalance (now : Z) (c : t) (accountId : Z)
  : option CachedBalance :=
  if negb (isInitialized c) then None
  else match account_balances c !! accountId with
       | Some result =>
           Some {| cb_data := balance_data result;
                   cb_lastUpdated := balance_last_updated result;
                   cb_age := now - balance_last_updated result |}
       | None => None
       end.

(** The objects [lastUpdated] and [dataAge] of a snapshot. *)
Record PerTable : Type := {
  of_account : option Z;
  of_balance : option Z;
  of_positions : option Z;
  of_orders : option Z
}.

Record AccountSnapshot : Type := {
  snap_account : option AccountData;
  snap_balance : option Balance.t;
  snap_positions : option (list Position.t);
  snap_orders : option (list Order.t);
  snap_pollingState : option PollingRow;
  snap_lastUpdated : PerTable;
  snap_dataAge : PerTable
}.

(** [getAccountSnapshot]; of the object [getCachedAccountData] returns,
    [data], [lastUpdated] and [age] are read off the row. *)
Definition getAccountSnapshot (now : Z) (c : t) (accountId : Z) : AccountSnapshot :=
  let account := getCachedAccountData c accountId in
  let balance := getCachedAccountBalance now c accountId in
  let positions := getCachedPositions now c accountId in
  let orders := getCachedOrders now c accountId in
  let pollingState := getPollingState c accountId in
  {| snap_account := account_data <$> account;
     snap_balance := cb_data <$> balance;
     snap_positions := cp_data <$> positions;
     snap_orders := co_data <$> orders;
     snap_pollingState := pollingState;
     snap_lastUpdated :=
       {| of_account := account_last_updated <$> account;
          of_balance := cb_lastUpdated <$> balance;
          of_positions := cp_lastUpdated <$> positions;
          of_orders := co_lastUpdated <$> orders |};
     snap_dataAge :=
       {| of_account := (fun row => now - account_last_updated row) <$> account;
          of_balance := cb_age <$> balance;
          of_positions := cp_age <$> positions;
          of_orders := co_age <$> orders |} |}.

(** [maxAgeMs = 24 * 60 * 60 * 1000] *)
Definition defaultMaxAgeMs : Z := 24 * 60 * 60 * 1000.

(** [cleanup]: [DELETE FROM update_log WHERE update_timestamp < cutoff]. *)
Definition cleanup (now : Z) (c : t) (maxAgeMs : option Z) : t :=
  if negb (isInitialized c) then c
  else
    let cutoff := now - default defaultMaxAgeMs maxAgeMs in
    mk (isInitialized c) (accounts_cache c) (account_balances c)
       (positions_cache c) (orders_cache c) (polling_state c)
       (List.filter (fun row => negb (update_timestamp row <? cutoff))
                    (update_log c)).

(** [close]: the connection is closed and the flag is lowered; what the
    tables hold stays in the database file.  ([this.db] is set whenever the
    flag is up.) *)
Definition close (c : t) : t :=
  mk false (accounts_cache c) (account_balances c) (positions_cache c)
     (orders_cache c) (polling_state c) (update_log c).

(** The row [logUpdate] writes for a cache write that went through. *)
Definition writeLogged (now : Z) (accountId : Z) (dataType : string) : LogRow :=
  {| log_account_id := accountId; data_type := dataType;
     update_timestamp := now; success := true;
     error_message := None; response_time_ms := None |}.

End DataCache.

(* --------------------------------------------------------------------- *)
(** ** Polling supervisor  (tradovateClient.js: class TradovateDataCollector) *)
(* --------------------------------------------------------------------- *)

Module Collector.

Import DataCache.

(** What one call of the brokerage client resolves to after [elapsed]
    milliseconds: [inl message] is a rejection with [Error(message)].  The
    calls go through the request gate; the supervisor sees only this. *)
Record Reply (A : Type) : Type := mkReply {
  elapsed : N;
  outcome : string + A
}.
Arguments mkReply {A} _ _.
Arguments elapsed {A} _.
Arguments outcome {A} _.

(** The brokerage as the supervisor meets it: the reply to its n-th call. *)
Record Upstream : Type := {
  getPositions : nat -> Z -> Reply (list Position.t);
  getOrdersList : nat -> Z -> Reply (list Order.t);
  getAccountBalance : nat -> Z -> Reply Balance.t
}.

(** [this.pollingIntervals] *)
Definition pollingIntervals (mode : Mode) (dataType : DataType) : Z :=
  match mode, dataType with
  | IDLE, balance => 5 * 60 * 1000
  | IDLE, positions => 2 * 60 * 1000
  | IDLE, orders => 2 * 60 * 1000
  | ACTIVE, balance => 60 * 1000
  | ACTIVE, positions => 15 * 1000
  | ACTIVE, orders => 10 * 1000
  | CRITICAL, balance => 30 * 1000
  | CRITICAL, positions => 5 * 1000
  | CRITICAL, orders => 5 * 1000
  end.

(** The object [{ balance, positions, orders }] of timer handles. *)
Record AccountTimers : Type := {
  balanceTimer : option nat;
  positionsTimer : option nat;
  ordersTimer : option nat
}.

(** A pending [setTimeout] of [startPollingTimer]. *)
Record PollTimer : Type := {
  handle : nat;
  due : Z;
  timerAccount : Z;
  timerDataType : DataType
}.

(** The supervisor and the part of the host it uses: the clock, the pending
    timers and the number of brokerage calls made so far.  The timeouts of
    [forcePollingMode] are kept apart ([revertTimers], due time and account):
    the code drops their handles, so nothing can cancel them. *)
Record t : Type := mk {
  dataCache : DataCache.t;
  timers : gmap Z AccountTimers;
  pollTimers : list PollTimer;
  revertTimers : list (Z * Z);
  nextHandle : nat;
  now : Z;
  calls : nat
}.

Definition withCache (c : t) (dc : DataCache.t) : t :=
  mk dc (timers c) (pollTimers c) (revertTimers c) (nextHandle c) (now c) (calls c).

(** One brokerage call: the clock moves on by the reply's [elapsed]. *)
Definition afterCall (c : t) (ms : N) : t :=
  mk (dataCache c) (timers c) (pollTimers c) (revertTimers c) (nextHandle c)
     (now c + Z.of_N ms) (S (calls c)).

Definition clearTimeout (c : t) (h : option nat) : t :=
  match h with
  | Some h =>
      mk (dataCache c) (timers c)
         (List.filter (fun p => negb (Nat.eqb (handle p) h)) (pollTimers c))
         (revertTimers c) (nextHandle c) (now c) (calls c)
  | None => c
  end.

Definition timerOf (a : AccountTimers) (dataType : DataType) : option nat :=
  match dataType with
  | balance => balanceTimer a
  | positions => positionsTimer a
  | orders => ordersTimer a
  end.

Definition setTimerOf (a : AccountTimers) (dataType : DataType) (h : option nat)
  : AccountTimers :=
  match dataType with
  | balance => {| balanceTimer := h; positionsTimer := positionsTimer a;
                  ordersTimer := ordersTimer a |}
  | positions => {| balanceTimer := balanceTimer a; positionsTimer := h;
                    ordersTimer := ordersTimer a |}
  | orders => {| balanceTimer := balanceTimer a; positionsTimer := positionsTimer a;
                 ordersTimer := h |}
  end.

(** [pollingState?.current_mode || 'IDLE'] *)
Definition modeOrIdle (row : option PollingRow) : Mode :=
  match row with
  | Some r => current_mode r
  | None => IDLE
  end.

Definition startPollingTimer (c : t) (accountId : Z) (dataType : DataType)
    (accountTimers : AccountTimers) : t * AccountTimers :=
  let pollingState := getPollingState (dataCache c) accountId in
  let mode := modeOrIdle pollingState in
  let interval := pollingIntervals mode dataType in
  let c1 := clearTimeout c (timerOf accountTimers dataType) in
  let h := nextHandle c1 in
  (mk (dataCache c1) (timers c1)
      (pollTimers c1 ++ [ {| handle := h; due := now c1 + interval;
                             timerAccount := accountId;
                             timerDataType := dataType |} ])
      (revertTimers c1) (S h) (now c1) (calls c1),
   setTimerOf accountTimers dataType (Some h)).

(** The field standardisation of [TradovateClient.getOrders]
    ([status: order.ordStatus || order.status],
     [limitPrice: order.price || order.limitPrice]). *)
Definition standardize (order : Order.t) : Order.t :=
  Order.mk (Order.id order) (Order.orderId order) (Order.action order)
    (Order.orderType order) (Order.text order) (Order.orderQty order)
    (Order.price order)
    (js_or (Order.price order) (Order.limitPrice order))
    (Order.stopPrice order) (Order.workingPrice order) (Order.linkedId order)
    (Order.parentId order) (Order.ocoId order)
    (js_or (Order.ordStatus order) (Order.status order))
    (Order.ordStatus order).

(** [if (!existingAccount) cacheAccountData(accountId, { id, name })] *)
Definition ensureAccount (c : t) (accountId : Z) : t :=
  match getCachedAccountData (dataCache c) accountId with
  | Some _ => c
  | None => withCache c (cacheAccountData (now c) (dataCache c) accountId Placeholder)
  end.

(** [existingOrders?.data?.some(o => o.limitPrice && o.orderType)] *)
Definition hasEnrichedData (existingOrders : option CachedOrders) : bool :=
  match existingOrders with
  | Some e => List.existsb
                (fun o => truthy (Order.limitPrice o) && str_truthy (Order.orderType o))
                (co_data e)
  | None => false
  end.

(** [TradovateClient.getOrders] after the list has arrived: the basic
    orders are cached unless enriched ones are there already.  The
    enrichment it then starts runs in the background, is not awaited by the
    poll, and is not part of this function. *)
Definition getOrders_cached (c : t) (accountId : Z) (rawOrders : list Order.t)
  : t * list Order.t :=
  let basicOrders := List.map standardize rawOrders in
  if isInitialized (dataCache c)
  then
    let c1 := ensureAccount c accountId in
    let existingOrders := getCachedOrders (now c1) (dataCache c1) accountId in
    if hasEnrichedData existingOrders then (c1, basicOrders)
    else (withCache c1 (cacheOrders (now c1) (dataCache c1) accountId basicOrders),
          basicOrders)
  else (c, basicOrders).

Inductive Payload : Type :=
| BalanceData (data : Balance.t)
| PositionsData (data : list Position.t)
| OrdersData (data : list Order.t).

(** The [switch (dataType)] of [pollDataType]: the awaited call. *)
Definition fetch (up : Upstream) (c : t) (accountId : Z) (dataType : DataType)
  : t * (string + Payload) :=
  match dataType with
  | balance =>
      let r := getAccountBalance up (calls c) accountId in
      (afterCall c (elapsed r),
       match outcome r with inl m => inl m | inr d => inr (BalanceData d) end)
  | positions =>
      let r := getPositions up (calls c) accountId in
      (afterCall c (elapsed r),
       match outcome r with inl m => inl m | inr d => inr (PositionsData d) end)
  | orders =>
      let r := getOrdersList up (calls c) accountId in
      let c1 := afterCall c (elapsed r) in
      match outcome r with
      | inl m => (c1, inl m)
      | inr raw => let '(c2, basic) := getOrders_cached c1 accountId raw in
                   (c2, inr (OrdersData basic))
      end
  end.

(** [if (cacheMethod && this.dataCache && this.dataCache.isInitialized) ...];
    [cacheMethod] is null for orders. *)
Definition cacheFetched (c : t) (accountId : Z) (data : Payload) : t :=
  match data with
  | OrdersData _ => c
  | BalanceData b =>
      if isInitialized (dataCache c)
      then let c1 := ensureAccount c accountId in
           withCache c1 (cacheAccountBalance (now c1) (dataCache c1) accountId b)
      else c
  | PositionsData l =>
      if isInitialized (dataCache c)
      then let c1 := ensureAccount c accountId in
           withCache c1 (cachePositions (now c1) (dataCache c1) accountId l)
      else c
  end.

Definition dataTypeName (dataType : DataType) : string :=
  match dataType with
  | balance => "balance"
  | positions => "positions"
  | orders => "orders"
  end.

Definition setMode (c : t) (accountId : Z) (mode : Mode) (reason : Reason) : t :=
  withCache c (updatePollingState (now c) (dataCache c) accountId mode reason).

(** How a stretch of code that may throw ends. *)
Inductive Completion : Type :=
| Normal (c : t)
| Throw (message : string) (c : t).

Section WithRestart.

(** [restartAccountPolling], which the functions below call back into;
    [None] is a nesting of restarts deeper than the fuel given. *)
Variable restart : t -> Z -> option t.
Variable up : Upstream.

Definition checkPollingModeChange (c : t) (accountId : Z) : option Completion :=
  match getPollingState (dataCache c) accountId with
  | None =>
      (* currentState is null or undefined: reading .current_mode throws *)
      Some (Throw "Cannot read properties of undefined (reading 'current_mode')" c)
  | Some currentState =>
      let newPollingInfo := determinePollingMode (now c) (dataCache c) accountId in
      if bool_decide (current_mode currentState <> mode newPollingInfo)
      then
        c2 ← restart (setMode c accountId (mode newPollingInfo) (reason newPollingInfo))
                     accountId;
        Some (Normal c2)
      else Some (Normal c)
  end.

Definition handleRateLimit (c : t) (accountId : Z) : option t :=
  restart (setMode c accountId IDLE RateLimitProtection) accountId.

(** The [catch] block of [pollDataType]. *)
Definition pollFailed (c : t) (accountId : Z) (dataType : DataType)
    (startTime : Z) (message : string) : option (t * bool) :=
  let c1 := withCache c (logUpdate (now c) (dataCache c) accountId
                           (dataTypeName dataType) false (Some message)
                           (Some (now c - startTime))) in
  if includes message "rate limit" || includes message "429"
  then c2 ← handleRateLimit c1 accountId; Some (c2, false)
  else Some (c1, false).

(** [pollDataType]; the flag tells whether the [try] block ran to its end
    (the poll succeeded and 'data_updated' is emitted). *)
Definition pollDataType (c : t) (accountId : Z) (dataType : DataType)
  : option (t * bool) :=
  let startTime := now c in
  match fetch up c accountId dataType with
  | (c1, inl message) => pollFailed c1 accountId dataType startTime message
  | (c1, inr data) =>
      let c2 := cacheFetched c1 accountId data in
      let responseTime := now c2 - startTime in
      let c3 := withCache c2 (logUpdate (now c2) (dataCache c2) accountId
                                (dataTypeName dataType) true None
                                (Some responseTime)) in
      match checkPollingModeChange c3 accountId with
      | None => None
      | Some (Normal c4) => Some (c4, true)
      | Some (Throw message c4) =>
          pollFailed c4 accountId dataType startTime message
      end
  end.

Definition initializeAccountPolling (c : t) (accountId : Z) : option t :=
  '(c1, _) ← pollDataType c accountId positions;
  '(c2, _) ← pollDataType c1 accountId orders;
  let pollingInfo := determinePollingMode (now c2) (dataCache c2) accountId in
  let c3 := setMode c2 accountId (mode pollingInfo) (reason pollingInfo) in
  let accountTimers :=
    {| balanceTimer := None; positionsTimer := None; ordersTimer := None |} in
  let '(c4, accountTimers) := startPollingTimer c3 accountId balance accountTimers in
  let '(c5, accountTimers) := startPollingTimer c4 accountId positions accountTimers in
  let '(c6, accountTimers) := startPollingTimer c5 accountId orders accountTimers in
  Some (mk (dataCache c6) (<[accountId := accountTimers]> (timers c6))
           (pollTimers c6) (revertTimers c6) (nextHandle c6) (now c6) (calls c6)).

End WithRestart.

(** The first half of [restartAccountPolling]: the account's timers are
    cleared. *)
Definition clearAccountTimers (c : t) (accountId : Z) : t :=
  match timers c !! accountId with
  | Some accountTimers =>
      clearTimeout (clearTimeout (clearTimeout c (balanceTimer accountTimers))
                                 (positionsTimer accountTimers))
                   (ordersTimer accountTimers)
  | None => c
  end.

Fixpoint restartAccountPolling (fuel : nat) (up : Upstream) (c : t)
    (accountId : Z) : option t :=
  match fuel with
  | O => None
  | S fuel' =>
      initializeAccountPolling (restartAccountPolling fuel' up) up
        (clearAccountTimers c accountId) accountId
  end.

(** [durationMs = 10 * 60 * 1000] *)
Definition defaultDurationMs : Z := 10 * 60 * 1000.

Definition forcePollingMode (fuel : nat) (up : Upstream) (c : t) (accountId : Z)
    (mode : Mode) (reason : Reason) (durationMs : option Z) : option t :=
  let durationMs := default defaultDurationMs durationMs in
  let c1 := setMode c accountId mode reason in
  c2 ← restartAccountPolling fuel up c1 accountId;
  if 0 <? durationMs
  then Some (mk (dataCache c2) (timers c2) (pollTimers c2)
                (revertTimers c2 ++ [ (now c2 + durationMs, accountId) ])
                (nextHandle c2) (now c2) (calls c2))
  else Some c2.

(** The callback [forcePollingMode] hands to [setTimeout]. *)
Definition autoRevert (fuel : nat) (up : Upstream) (c : t) (accountId : Z)
  : option t :=
  let pollingInfo := determinePollingMode (now c) (dataCache c) accountId in
  let c1 := setMode c accountId (DataCache.mode pollingInfo) AutoRevertFromForcedMode in
  restartAccountPolling fuel up c1 accountId.

(** The host: time passes, and a pending reversion that is due fires. *)
Definition advance (c : t) (ms : N) : t :=
  mk (dataCache c) (timers c) (pollTimers c) (revertTimers c) (nextHandle c)
     (now c + Z.of_N ms) (calls c).

Definition fireRevertTimer (fuel : nat) (up : Upstream) (c : t) (i : nat)
  : option t :=
  match revertTimers c !! i with
  | Some (dueAt, accountId) =>
      if dueAt <=? now c
      then autoRevert fuel up
             (mk (dataCache c) (timers c) (pollTimers c)
                 (delete i (revertTimers c)) (nextHandle c) (now c) (calls c))
             accountId
      else None
  | None => None
  end.

Definition initialized (c : t) : bool := isInitialized (dataCache c).

Definition currentMode (c : t) (accountId : Z) : option Mode :=
  current_mode <$> getPollingState (dataCache c) accountId.

Definition dataDerivedMode (c : t) (accountId : Z) : Mode :=
  DataCache.mode (determinePollingMode (now c) (dataCache c) accountId).


(** *** The rest of the supervisor *)

(** The test of the [catch] block of [pollDataType]:
    [error.message.includes('rate limit') || error.message.includes('429')] *)
Definition rateLimited (message : string) : bool :=
  includes message "rate limit" || includes message "429".

(** The test of [TradovateClient.getOrders] on one cached order:
    [o.limitPrice && o.orderType] *)
Definition enriched (o : Order.t) : bool :=
  truthy (Order.limitPrice o) && str_truthy (Order.orderType o).

(** The three calls of [startPollingTimer] in [forceDataRefresh]: they
    write the new handles into the object the map holds. *)
Definition rearmTimers (c : t) (accountId : Z) : t :=
  match timers c !! accountId with
  | Some accountTimers =>
      let '(c1, accountTimers) := startPollingTimer c accountId balance accountTimers in
      let '(c2, accountTimers) := startPollingTimer c1 accountId positions accountTimers in
      let '(c3, accountTimers) := startPollingTimer c2 accountId orders accountTimers in
      mk (dataCache c3) (<[accountId := accountTimers]> (timers c3))
         (pollTimers c3) (revertTimers c3) (nextHandle c3) (now c3) (calls c3)
  | None => c
  end.

(** [forceDataRefresh]; [pollDataType] catches what is thrown under it, so
    the [catch] block here is not reached. *)
Definition forceDataRefresh (fuel : nat) (up : Upstream) (c : t) (accountId : Z)
  : option t :=
  '(c1, _) ← pollDataType (restartAccountPolling fuel up) up c accountId positions;
  '(c2, _) ← pollDataType (restartAccountPolling fuel up) up c1 accountId orders;
  '(c3, _) ← pollDataType (restartAccountPolling fuel up) up c2 accountId balance;
  let pollingInfo := determinePollingMode (now c3) (dataCache c3) accountId in
  let currentMode := current_mode <$> getPollingState (dataCache c3) accountId in
  if bool_decide (Some (mode pollingInfo) <> currentMode)
  then Some (rearmTimers
               (setMode c3 accountId (mode pollingInfo) (reason pollingInfo))
               accountId)
  else Some c3.

(** [x?.filter(f).length || 0] *)
Definition count_of {A} (f : A -> bool) (l : option (list A)) : Z :=
  match l with
  | Some l => Z.of_nat (length (List.filter f l))
  | None => 0
  end.

(** What [getStatus] reports for one account (the object it pushes in its
    loop, without the account's name). *)
Record AccountStatus : Type := {
  pollingMode : option Mode;
  lastModeChange : option Z;
  modeChangeReason : option Reason;
  dataAge : PerTable;
  status_openPositions : Z;
  status_workingOrders : Z
}.

Definition accountStatus (c : t) (accountId : Z) : AccountStatus :=
  let pollingState := getPollingState (dataCache c) accountId in
  let snapshot := getAccountSnapshot (now c) (dataCache c) accountId in
  {| pollingMode := current_mode <$> pollingState;
     lastModeChange := last_mode_change <$> pollingState;
     modeChangeReason := mode_change_reason <$> pollingState;
     dataAge := snap_dataAge snapshot;
     status_openPositions :=
       count_of (fun p => negb (strict_eq (Position.netPos p) (JNum 0)))
                (snap_positions snapshot);
     status_workingOrders :=
       count_of (fun o => strict_eq (Order.ordStatus o) (JStr "Working"))
                (snap_orders snapshot) |}.

(** The three [clearTimeout]s for one entry of the map of timers. *)
Definition clearThree (c : t) (accountTimers : AccountTimers) : t :=
  clearTimeout (clearTimeout (clearTimeout c (balanceTimer accountTimers))
                             (positionsTimer accountTimers))
               (ordersTimer accountTimers).

(** [stop]: the timers the map holds are cleared, the map is emptied and
    the cache is closed.  The timeouts of [forcePollingMode] are not in the
    map.  (The flag [isRunning], the client's [disconnect] and the event
    are outside this state.) *)
Definition stop (c : t) : t :=
  let c1 := List.fold_right (fun entry acc => clearThree acc (snd entry)) c
              (map_to_list (timers c)) in
  mk (close (dataCache c1)) ∅ (pollTimers c1) (revertTimers c1) (nextHandle c1)
     (now c1) (calls c1).

(** The brokerage call a poll of [dataType] makes when [n] calls have been
    made: the time it takes, and the message of its error if it fails. *)
Definition callElapsed (up : Upstream) (n : nat) (accountId : Z)
    (dataType : DataType) : N :=
  match dataType with
  | balance => elapsed (getAccountBalance up n accountId)
  | positions => elapsed (getPositions up n accountId)
  | orders => elapsed (getOrdersList up n accountId)
  end.

Definition callFailure (up : Upstream) (n : nat) (accountId : Z)
    (dataType : DataType) : option string :=
  let failure {A} (r : Reply A) :=
    match outcome r with inl message => Some message | inr _ => None end in
  match dataType with
  | balance => failure (getAccountBalance up n accountId)
  | positions => failure (getPositions up n accountId)
  | orders => failure (getOrdersList up n accountId)
  end.

(** No call of the brokerage fails with a rate-limit error. *)
Definition neverLimited (up : Upstream) : Prop :=
  forall n accountId dataType message,
    callFailure up n accountId dataType = Some message ->
    rateLimited message = false.

End Collector.

(* --------------------------------------------------------------------- *)
(** ** Request gate  (rateLimiter.js: class RateLimiter)                   *)
(* --------------------------------------------------------------------- *)

Module RateLimiter.

(** The [options] object of the constructor; [None] is an absent key. *)
Record Options : Type := {
  opt_minRequestInterval : option Z;
  opt_defaultRetryDelay : option Z;
  opt_maxRetryAttempts : option Z
}.

Definition noOptions : Options :=
  {| opt_minRequestInterval := None; opt_defaultRetryDelay := None;
     opt_maxRetryAttempts := None |}.

(** The options [TradovateClient]'s constructor passes. *)
Definition clientOptions : Options :=
  {| opt_minRequestInterval := Some 1500; opt_defaultRetryDelay := Some 5000;
     opt_maxRetryAttempts := Some 3 |}.

(** [options.key || d] *)
Definition option_or (o : option Z) (d : Z) : Z :=
  match o with
  | Some n => if n =? 0 then d else n
  | None => d
  end.

(** [response.data] with the three penalty markers
    ['p-ticket'], ['p-time'], ['p-captcha']. *)
Record ResponseData : Type := {
  p_ticket : jsval;
  p_time : jsval;
  p_captcha : jsval
}.

Record Response : Type := { data : option ResponseData }.

(** A thrown error: its message and [error.response.status] when
    [error.response] is there. *)
Record RequestError : Type := {
  message : string;
  responseStatus : option jsval
}.

(** What [await requestFn()] ends in; it may resolve to nothing. *)
Inductive Outcome : Type :=
| Resolved (response : option Response)
| Rejected (error : RequestError).

(** A queue entry.  [requestFn] names the upstream call: what it answers
    comes from the environment when it is run. *)
Record Request : Type := {
  requestFn : nat;
  requestId : string;
  attempts : Z;
  createdAt : Z
}.

(** How a caller's promise was settled: [resolve(response)] or
    [reject(error)]. *)
Inductive Settlement : Type :=
| Fulfilled (response : option Response)
| Failed (error : RequestError).

(** [this.stats], without the running average (a floating-point mean). *)
Record Stats : Type := {
  totalRequests : Z;
  penaltiesReceived : Z;
  failedRequests : Z
}.

Record t : Type := mk {
  minRequestInterval : Z;
  defaultRetryDelay : Z;
  maxRetryAttempts : Z;
  requestQueue : list Request;
  isProcessing : bool;
  lastRequestTime : Z;
  penaltyActive : bool;
  penaltyEndTime : option Z;          (* [None] is NaN *)
  currentPenaltyTicket : jsval;
  stats : Stats
}.

Definition new (options : Options) : t :=
  {| minRequestInterval := option_or (opt_minRequestInterval options) 1000;
     defaultRetryDelay := option_or (opt_defaultRetryDelay options) 5000;
     maxRetryAttempts := option_or (opt_maxRetryAttempts options) 3;
     requestQueue := [];
     isProcessing := false;
     lastRequestTime := 0;
     penaltyActive := false;
     penaltyEndTime := Some 0;
     currentPenaltyTicket := JNull;
     stats := {| totalRequests := 0; penaltiesReceived := 0; failedRequests := 0 |} |}.

Definition withQueue (g : t) (q : list Request) : t :=
  mk (minRequestInterval g) (defaultRetryDelay g) (maxRetryAttempts g) q
     (isProcessing g) (lastRequestTime g) (penaltyActive g) (penaltyEndTime g)
     (currentPenaltyTicket g) (stats g).

Definition withProcessing (g : t) (b : bool) : t :=
  mk (minRequestInterval g) (defaultRetryDelay g) (maxRetryAttempts g)
     (requestQueue g) b (lastRequestTime g) (penaltyActive g) (penaltyEndTime g)
     (currentPenaltyTicket g) (stats g).

Definition withLastRequestTime (g : t) (time : Z) : t :=
  mk (minRequestInterval g) (defaultRetryDelay g) (maxRetryAttempts g)
     (requestQueue g) (isProcessing g) time (penaltyActive g) (penaltyEndTime g)
     (currentPenaltyTicket g) (stats g).

Definition withPenalty (g : t) (active : bool) (endTime : option Z)
    (ticket : jsval) : t :=
  mk (minRequestInterval g) (defaultRetryDelay g) (maxRetryAttempts g)
     (requestQueue g) (isProcessing g) (lastRequestTime g) active endTime
     ticket (stats g).

Definition withStats (g : t) (s : Stats) : t :=
  mk (minRequestInterval g) (defaultRetryDelay g) (maxRetryAttempts g)
     (requestQueue g) (isProcessing g) (lastRequestTime g) (penaltyActive g)
     (penaltyEndTime g) (currentPenaltyTicket g) s.

Definition bump (request : Request) : Request :=
  {| requestFn := requestFn request; requestId := requestId request;
     attempts := attempts request + 1; createdAt := createdAt request |}.

(** [isPenaltyResponse] *)
Definition isPenaltyResponse (response : option Response) : bool :=
  match response with
  | Some {| data := Some d |} =>
      truthy (p_ticket d) || truthy (p_time d) || truthy (p_captcha d)
  | _ => false
  end.

Definition isDigit (c : ascii) : bool :=
  let n := nat_of_ascii c in ((48 <=? n)%nat && (n <=? 57)%nat)%bool.

Fixpoint digitsValue (acc : Z) (seen : bool) (s : string) : option Z :=
  match s with
  | String c s' =>
      if isDigit c
      then digitsValue (acc * 10 + Z.of_nat (nat_of_ascii c - 48)) true s'
      else if seen then Some acc else None
  | EmptyString => if seen then Some acc else None
  end.

Fixpoint skipSpaces (s : string) : string :=
  match s with
  | String c s' => if Ascii.eqb c " " then skipSpaces s' else s
  | EmptyString => s
  end.

(** [parseInt(v)] for an integer or a string: leading blanks, a sign, then
    the longest run of decimal digits; [None] is NaN. *)
Definition parseInt (v : jsval) : option Z :=
  match v with
  | JNum n => Some n
  | JStr s =>
      match skipSpaces s with
      | String "-" s' => Z.opp <$> digitsValue 0 false s'
      | String "+" s' => digitsValue 0 false s'
      | s' => digitsValue 0 false s'
      end
  | _ => None
  end.

Definition captchaError : RequestError :=
  {| message := "CAPTCHA penalty - API access suspended for 1 hour";
     responseStatus := None |}.

Definition maxRetryError (request : Request) : RequestError :=
  {| message := "Max retry attempts reached for request " ++ requestId request;
     responseStatus := None |}.

(** [addPenaltyTicketToRequest]: the function it returns awaits the
    original one and hands on what that returns or throws. *)
Definition addPenaltyTicketToRequest (originalRequestFn : nat) (pTicket : jsval)
  : nat := originalRequestFn.

Definition countPenalty (g : t) : t :=
  withStats g {| totalRequests := totalRequests (stats g);
                 penaltiesReceived := penaltiesReceived (stats g) + 1;
                 failedRequests := failedRequests (stats g) |}.

(** [handlePenaltyResponse]: the gate afterwards, and how the request's
    promise was settled, if it was. *)
Definition handlePenaltyResponse (now : Z) (g : t) (d : ResponseData)
    (request : Request) : t * option Settlement :=
  let pTicket := p_ticket d in
  let pTime := p_time d in
  let pCaptcha := p_captcha d in
  let g := countPenalty g in
  if truthy pCaptcha
  then (withPenalty g true (Some (now + 60 * 60 * 1000)) JNull,
        Some (Failed captchaError))
  else if truthy pTicket && truthy pTime
  then
    let waitSeconds := parseInt pTime in
    let g := withPenalty g true ((fun s => now + s * 1000) <$> waitSeconds) pTicket in
    let request := bump request in
    if attempts request <? maxRetryAttempts g
    then
      let request :=
        {| requestFn := addPenaltyTicketToRequest (requestFn request) pTicket;
           requestId := requestId request; attempts := attempts request;
           createdAt := createdAt request |} in
      (withQueue g (request :: requestQueue g), None)
    else (g, Some (Failed (maxRetryError request)))
  else (g, None).

Definition countFailure (g : t) : t :=
  withStats g {| totalRequests := totalRequests (stats g);
                 penaltiesReceived := penaltiesReceived (stats g);
                 failedRequests := failedRequests (stats g) + 1 |}.

(** [handleRequestError]: the gate afterwards, the timeout it set (due
    time and request), and the settlement, if any. *)
Definition handleRequestError (now : Z) (g : t) (error : RequestError)
    (request : Request) : t * option (Z * Request) * option Settlement :=
  let g := countFailure g in
  if bool_decide (responseStatus error = Some (JNum 429))
  then
    let request := bump request in
    if attempts request <? maxRetryAttempts g
    then
      let backoffDelay := defaultRetryDelay g * 2 ^ (attempts request - 1) in
      (g, Some (now + backoffDelay, request), None)
    else (g, None, Some (Failed error))
  else (g, None, Some (Failed error)).

(** [updateStats(responseTime, true)] *)
Definition updateStats (g : t) : t :=
  withStats g {| totalRequests := totalRequests (stats g) + 1;
                 penaltiesReceived := penaltiesReceived (stats g);
                 failedRequests := failedRequests (stats g) |}.

(** [isHealthy] *)
Definition isHealthy (g : t) : bool :=
  negb (penaltyActive g) && (length (requestQueue g) <? 10)%nat.

(** *** The worker on the host's event loop *)

(** Where the one activation of [processQueue] stands. *)
Inductive Worker : Type :=
| Idle                                     (* no activation is running *)
| SleepingPenalty (wake : Z)               (* in [await this.sleep(remainingTime)] *)
| SleepingInterval (wake : Z)              (* in [await this.sleep(waitTime)] *)
| Executing (request : Request) (startTime : Z)   (* in [await requestFn()] *)
| Crashed.                                 (* [shift()] on an empty queue: the
                                              destructuring in executeRequest throws *)

(** The line [Executing request ${requestId} (attempt ${attempts + 1})]
    with the [startTime] taken right after it. *)
Record Execution : Type := {
  executed : Request;
  attempt : Z;
  startedAt : Z
}.

Record World : Type := mkWorld {
  gate : t;
  worker : Worker;
  now : Z;
  retryTimers : list (Z * Request);          (* timeouts of handleRequestError *)
  settled : list (Request * Settlement);     (* promises settled, oldest first *)
  executions : list Execution                (* executions begun, latest first *)
}.

Definition boot (options : Options) (startTime : Z) : World :=
  mkWorld (new options) Idle startTime [] [] [].

(** From [const request = this.requestQueue.shift()] to [await requestFn()]. *)
Definition beginExecution (w : World) : World :=
  match requestQueue (gate w) with
  | [] => mkWorld (gate w) Crashed (now w) (retryTimers w) (settled w) (executions w)
  | request :: rest =>
      let startTime := now w in
      mkWorld (withLastRequestTime (withQueue (gate w) rest) startTime)
              (Executing request startTime) (now w) (retryTimers w) (settled w)
              ({| executed := request; attempt := attempts request + 1;
                  startedAt := startTime |} :: executions w)
  end.

(** The minimum-interval check of the loop body. *)
Definition enforceInterval (w : World) : World :=
  let timeSinceLastRequest := now w - lastRequestTime (gate w) in
  if timeSinceLastRequest <? minRequestInterval (gate w)
  then
    let waitTime := minRequestInterval (gate w) - timeSinceLastRequest in
    mkWorld (gate w) (SleepingInterval (now w + waitTime)) (now w)
            (retryTimers w) (settled w) (executions w)
  else beginExecution w.

(** [Date.now() < this.penaltyEndTime]; a comparison with NaN is false. *)
Definition beforeEnd (now : Z) (endTime : option Z) : bool :=
  match endTime with
  | Some e => now <? e
  | None => false
  end.

(** The loop of [processQueue] from its test to its next [await]. *)
Definition loopHead (w : World) : World :=
  match requestQueue (gate w) with
  | [] => mkWorld (withProcessing (gate w) false) Idle (now w) (retryTimers w)
                  (settled w) (executions w)
  | _ :: _ =>
      if penaltyActive (gate w) && beforeEnd (now w) (penaltyEndTime (gate w))
      then
        let remainingTime := default 0 (penaltyEndTime (gate w)) - now w in
        mkWorld (gate w) (SleepingPenalty (now w + remainingTime)) (now w)
                (retryTimers w) (settled w) (executions w)
      else enforceInterval w
  end.

Definition processQueue (w : World) : World :=
  if isProcessing (gate w) || bool_decide (requestQueue (gate w) = [])
  then w
  else loopHead (mkWorld (withProcessing (gate w) true) (worker w) (now w)
                         (retryTimers w) (settled w) (executions w)).

(** [requestId || `req_${Date.now()}_${random}`] *)
Definition requestIdOr (requestId : option string) : string :=
  str_or requestId "req_".

Definition queueRequest (w : World) (fn : nat) (id : option string) : World :=
  let request := {| requestFn := fn; requestId := requestIdOr id;
                    attempts := 0; createdAt := now w |} in
  processQueue (mkWorld (withQueue (gate w) (requestQueue (gate w) ++ [request]))
                        (worker w) (now w) (retryTimers w) (settled w)
                        (executions w)).

Definition settle (l : list (Request * Settlement)) (request : Request)
    (s : option Settlement) : list (Request * Settlement) :=
  match s with
  | Some s => l ++ [(request, s)]
  | None => l
  end.

(** [executeRequest] from the return of [requestFn] to its end. *)
Definition finishExecution (w : World) (request : Request) (startTime : Z)
    (o : Outcome) : World :=
  match o with
  | Resolved response =>
      let g := updateStats (gate w) in
      if isPenaltyResponse response
      then
        match response with
        | Some {| data := Some d |} =>
            let '(g', s) := handlePenaltyResponse (now w) g d request in
            mkWorld g' (worker w) (now w) (retryTimers w)
                    (settle (settled w) request s) (executions w)
        | _ => mkWorld g (worker w) (now w) (retryTimers w) (settled w)
                       (executions w)
        end
      else mkWorld g (worker w) (now w) (retryTimers w)
                   (settle (settled w) request (Some (Fulfilled response)))
                   (executions w)
  | Rejected error =>
      let '(g', timer, s) := handleRequestError (now w) (gate w) error request in
      mkWorld g' (worker w) (now w)
              (retryTimers w ++ match timer with Some x => [x] | None => [] end)
              (settle (settled w) request s) (executions w)
  end.

(** What the host does next. *)
Inductive Event : Type :=
| QueueRequest (requestFn : nat) (requestId : option string)
| Elapse (ms : N)                    (* time passes *)
| WakeFromPenalty                    (* the penalty sleep's timeout fires *)
| WakeFromInterval                   (* the spacing sleep's timeout fires *)
| RequestDone (o : Outcome)          (* the awaited request settles *)
| RetryTimerFires (i : nat).         (* a backoff timeout fires *)

(** One turn of the event loop; [None] when the event cannot happen in
    this state (a timeout never fires before its delay has passed). *)
Definition step (e : Event) (w : World) : option World :=
  match e with
  | QueueRequest fn id => Some (queueRequest w fn id)
  | Elapse ms =>
      Some (mkWorld (gate w) (worker w) (now w + Z.of_N ms) (retryTimers w)
                    (settled w) (executions w))
  | WakeFromPenalty =>
      match worker w with
      | SleepingPenalty wake =>
          if wake <=? now w
          then Some (enforceInterval
                       (mkWorld (withPenalty (gate w) false (penaltyEndTime (gate w)) JNull)
                                (worker w) (now w) (retryTimers w) (settled w)
                                (executions w)))
          else None
      | _ => None
      end
  | WakeFromInterval =>
      match worker w with
      | SleepingInterval wake =>
          if wake <=? now w then Some (beginExecution w) else None
      | _ => None
      end
  | RequestDone o =>
      match worker w with
      | Executing request startTime =>
          Some (loopHead (finishExecution w request startTime o))
      | _ => None
      end
  | RetryTimerFires i =>
      match retryTimers w !! i with
      | Some (dueAt, request) =>
          if dueAt <=? now w
          then Some (processQueue
                       (mkWorld (withQueue (gate w) (request :: requestQueue (gate w)))
                                (worker w) (now w) (delete i (retryTimers w))
                                (settled w) (executions w)))
          else None
      | None => None
      end
  end.

Fixpoint run (events : list Event) (w : World) : option World :=
  match events with
  | [] => Some w
  | e :: events' =>
      match step e w with
      | Some w' => run events' w'
      | None => None
      end
  end.

(** The start times of consecutive executions are at least [gap] apart
    (the list is latest first). *)
Fixpoint spaced (gap : Z) (l : list Execution) : Prop :=
  match l with
  | later :: (earlier :: _) as rest =>
      startedAt earlier + gap <= startedAt later /\ spaced gap rest
  | _ => True
  end.

(** *** Invariants of the worker *)

(** The log of executions is spaced, and its latest entry is the one
    [lastRequestTime] remembers. *)
Definition spacingCore (w : World) : Prop :=
  spaced (minRequestInterval (gate w)) (executions w)
  /\ match executions w with
     | e :: _ => startedAt e = lastRequestTime (gate w)
     | [] => True
     end.

(** While the worker sleeps for the spacing, it wakes no earlier than one
    interval after the last request. *)
Definition spacingInv (w : World) : Prop :=
  spacingCore w
  /\ match worker w with
     | SleepingInterval wake =>
         lastRequestTime (gate w) + minRequestInterval (gate w) <= wake
     | _ => True
     end.

(** Every request that is queued, waits for its backoff or is being
    executed has made fewer than [maxRetryAttempts] attempts, and every
    execution in the log is numbered one more than the attempts its
    request had made, which is no more than [maxRetryAttempts]. *)
Definition attemptsCore (w : World) : Prop :=
  let limit := maxRetryAttempts (gate w) in
  (forall r, In r (requestQueue (gate w)) -> 0 <= attempts r < limit)
  /\ (forall dueAt r, In (dueAt, r) (retryTimers w) -> 0 <= attempts r < limit)
  /\ (forall x, In x (executions w) ->
        attempt x = attempts (executed x) + 1 /\ 1 <= attempt x <= limit).

Definition attemptsInv (w : World) : Prop :=
  attemptsCore w
  /\ (forall r startTime, worker w = Executing r startTime ->
        0 <= attempts r < maxRetryAttempts (gate w)).

(** The configuration is the same in both worlds. *)
Definition sameConfig (w w' : World) : Prop :=
  minRequestInterval (gate w') = minRequestInterval (gate w)
  /\ defaultRetryDelay (gate w') = defaultRetryDelay (gate w)
  /\ maxRetryAttempts (gate w') = maxRetryAttempts (gate w).

(** The configuration and the clock are the same in both worlds. *)
Definition sameSetup (w w' : World) : Prop :=
  sameConfig w w' /\ now w' = now w.

(** After a CAPTCHA marker handled at a time one hour before [endTime]:
    until [endTime] the penalty stays active and the worker is idle or
    asleep until then. *)
Definition suspendedUntil (endTime : Z) (w : World) : Prop :=
  now w < endTime ->
  penaltyActive (gate w) = true
  /\ penaltyEndTime (gate w) = Some endTime
  /\ (worker w = Idle \/ worker w = SleepingPenalty endTime).


(** *** More invariants of the worker *)

(** The number of requests in [await requestFn()]: at most one. *)
Definition inFlight (wk : Worker) : nat :=
  match wk with
  | Executing _ _ => 1
  | _ => 0
  end.

(** The flag [isProcessing] and the queue, by the place the worker is at:
    idle, the flag is down and the queue is empty; asleep inside the loop,
    the flag is up and the request it will shift is in the queue; and it
    never shifts from an empty queue. *)
Definition workerInv (w : World) : Prop :=
  match worker w with
  | Idle => isProcessing (gate w) = false /\ requestQueue (gate w) = []
  | SleepingPenalty _ | SleepingInterval _ =>
      isProcessing (gate w) = true /\ requestQueue (gate w) <> []
  | Executing _ _ => isProcessing (gate w) = true
  | Crashed => False
  end.

(** [totalRequests] counts the executions that ended with a response,
    [failedRequests] those that ended with an error, [penaltiesReceived]
    the responses with a penalty marker. *)
Definition statsInv (w : World) : Prop :=
  totalRequests (stats (gate w)) + failedRequests (stats (gate w))
    + Z.of_nat (inFlight (worker w))
    = Z.of_nat (length (executions w))
  /\ 0 <= penaltiesReceived (stats (gate w)) <= totalRequests (stats (gate w))
  /\ 0 <= failedRequests (stats (gate w)).

(** The requests the gate still owes an answer: queued, waiting for a
    backoff timeout, or being executed. *)
Definition pending (w : World) : nat :=
  length (requestQueue (gate w)) + length (retryTimers w) + inFlight (worker w).

(** A response that [isPenaltyResponse] takes for a penalty and for which
    [handlePenaltyResponse] does nothing but count it: no CAPTCHA marker,
    and a ticket without a time or a time without a ticket. *)
Definition dropsRequest (o : Outcome) : bool :=
  match o with
  | Resolved (Some {| data := Some d |}) =>
      negb (truthy (p_captcha d))
      && xorb (truthy (p_ticket d)) (truthy (p_time d))
  | _ => false
  end.

(** An outcome that can put the request back: a timed penalty, or an error
    with the status 429. *)
Definition asksRetry (o : Outcome) : bool :=
  match o with
  | Resolved (Some {| data := Some d |}) =>
      negb (truthy (p_captcha d)) && truthy (p_ticket d) && truthy (p_time d)
  | Resolved _ => false
  | Rejected error => bool_decide (responseStatus error = Some (JNum 429))
  end.

(** Along a list of events: the calls of [queueRequest], the responses
    that drop their request, and the calls with what they name. *)
Definition accepted (events : list Event) : nat :=
  length (List.filter (fun e => match e with QueueRequest _ _ => true | _ => false end)
            events).

Definition dropped (events : list Event) : nat :=
  length (List.filter (fun e => match e with
                                | RequestDone o => dropsRequest o
                                | _ => false
                                end) events).

Definition retryFree (events : list Event) : Prop :=
  forall o, In (RequestDone o) events -> asksRetry o = false.

Fixpoint submitted (events : list Event) : list (nat * string) :=
  match events with
  | [] => []
  | QueueRequest fn id :: events' => (fn, requestIdOr id) :: submitted events'
  | _ :: events' => submitted events'
  end.

Definition named (request : Request) : nat * string :=
  (requestFn request, requestId request).

(** The requests executed so far, oldest first, then the queue. *)
Definition served (w : World) : list (nat * string) :=
  List.map named (List.rev (List.map executed (executions w)))
  ++ List.map named (requestQueue (gate w)).

(** *** The manual controls *)

Definition queueClearedError : RequestError :=
  {| message := "Request queue cleared"; responseStatus := None |}.

(** [clearQueue]: every queued request is rejected, front first, and the
    queue is replaced by an empty one. *)
Definition clearQueue (w : World) : World :=
  mkWorld (withQueue (gate w) []) (worker w) (now w) (retryTimers w)
          (settled w ++ List.map (fun request => (request, Failed queueClearedError))
                          (requestQueue (gate w)))
          (executions w).

(** [resetPenalties] *)
Definition resetPenalties (w : World) : World :=
  mkWorld (withPenalty (gate w) false (Some 0) JNull) (worker w) (now w)
          (retryTimers w) (settled w) (executions w).

(** The worker stays in the penalty sleep that ends at [wake] until then. *)
Definition asleepUntil (wake : Z) (w : World) : Prop :=
  now w < wake -> worker w = SleepingPenalty wake.

End RateLimiter.

(* --------------------------------------------------------------------- *)
(** ** Bracket reconciler: related sets as classes                         *)
(* --------------------------------------------------------------------- *)

(** [x] is an order [findRelatedOrders o] puts into the related set of
    [o]: the order with the id of [o], or one that passes the relation
    test of its loop. *)
Definition sameOrRelated (o x : Order.t) : bool :=
  strict_eq (orderIdOf x) (orderIdOf o) || isRelated o x.

(** The orders of all the groups emitted, group after group. *)
Definition groupedMembers (orders : list Order.t) : list Order.t :=
  List.concat (List.map fst (groupedWithMembers orders)).

(** The orders that [roleOrder[role] || 3] ranks last: those of the role
    'other' (3) and those of the role 'entry' (0, which is falsy). *)
Definition rankedLast (o : Order.t) : bool := hasRole entry o || hasRole other o.

(** The test at the head of the loop of [groupRelatedOrders], negated:
    [!processedOrderIds.has(orderId)]. *)
Definition unprocessed (processedOrderIds : gset jsval) (order : Order.t) : bool :=
  bool_decide (orderIdOf order ∉ processedOrderIds).

(* --------------------------------------------------------------------- *)
(** ** Brokerage client  (tradovateClient.js: class TradovateClient)       *)
(* --------------------------------------------------------------------- *)

Module TradovateClient.

(** What [getCurrentContractInternal] resolves a base symbol to.  The
    cache keeps the object as it is; of its properties only these three are
    kept here. *)
Record ContractInfo : Type := {
  baseSymbol : string;
  contractName : string;
  contractId : Z
}.

(** The contract resolution cache: [this.contractCache] (a [Map]) and
    [this.cacheTimestamp] ([None] is null), one timestamp for the whole
    map. *)
Record t : Type := mk {
  contractCache : gmap string ContractInfo;
  cacheTimestamp : option Z
}.

(** The cache of a client just constructed. *)
Definition new : t := mk ∅ None.

(** [this.cacheExpiryHours] *)
Definition cacheExpiryHours : Z := 24.

(** [isCacheValid]; [!this.cacheTimestamp] holds for null and for 0. *)
Definition isCacheValid (now : Z) (c : t) : bool :=
  match cacheTimestamp c with
  | None => false
  | Some timestamp =>
      if timestamp =? 0 then false
      else
        let cacheAge := now - timestamp in
        let cacheMaxAge := cacheExpiryHours * 60 * 60 * 1000 in
        cacheAge <? cacheMaxAge
  end.

Definition getCachedContract (now : Z) (c : t) (baseSymbol : string)
  : option ContractInfo :=
  if negb (isCacheValid now c) then None
  else contractCache c !! baseSymbol.

Definition cacheContract (now : Z) (c : t) (baseSymbol : string)
    (contractInfo : ContractInfo) : t :=
  mk (<[baseSymbol := contractInfo]> (contractCache c)) (Some now).

(** [getCurrentContract] at the time [now]: the cached contract if there
    is one, and otherwise what the lookup at the brokerage gives after
    [elapsed] milliseconds, which is then cached; [inl message] is the
    error the lookup throws. *)
Definition getCurrentContract (now : Z) (c : t) (baseSymbol : string)
    (lookup : Collector.Reply ContractInfo) : t * (string + ContractInfo) :=
  match getCachedContract now c baseSymbol with
  | Some cached => (c, inr cached)
  | None =>
      match Collector.outcome lookup with
      | inl message => (c, inl message)
      | inr contract =>
          (cacheContract (now + Z.of_N (Collector.elapsed lookup)) c baseSymbol
             contract,
           inr contract)
      end
  end.

(** *** The front month by the name of the contract *)

(** A contract of the list the brokerage returns, as far as the choice by
    name looks at it. *)
Record Contract : Type := {
  name : string;
  id : Z
}.

Record YearMonth : Type := {
  year : Z;
  monthIndex : Z
}.

Definition isUpper (c : ascii) : bool :=
  let n := nat_of_ascii c in ((65 <=? n)%nat && (n <=? 90)%nat)%bool.

Definition isDigit (c : ascii) : bool :=
  let n := nat_of_ascii c in ((48 <=? n)%nat && (n <=? 57)%nat)%bool.

(** The last two characters of a string. *)
Fixpoint lastTwo (s : string) : option (ascii * ascii) :=
  match s with
  | String a (String b EmptyString) => Some (a, b)
  | String _ s' => lastTwo s'
  | EmptyString => None
  end.

(** [const monthMap = { F: 1, G: 2, H: 3, J: 4, K: 5, M: 6, N: 7, Q: 8,
    U: 9, V: 10, X: 11, Z: 12 }] read as [monthMap[monthCode] || 99]. *)
Definition monthOf (monthCode : ascii) : Z :=
  if Ascii.eqb monthCode "F" then 1
  else if Ascii.eqb monthCode "G" then 2
  else if Ascii.eqb monthCode "H" then 3
  else if Ascii.eqb monthCode "J" then 4
  else if Ascii.eqb monthCode "K" then 5
  else if Ascii.eqb monthCode "M" then 6
  else if Ascii.eqb monthCode "N" then 7
  else if Ascii.eqb monthCode "Q" then 8
  else if Ascii.eqb monthCode "U" then 9
  else if Ascii.eqb monthCode "V" then 10
  else if Ascii.eqb monthCode "X" then 11
  else if Ascii.eqb monthCode "Z" then 12
  else 99.

(** [extractYearMonth]: [name.match(/([A-Z])(\d)$/)], a capital letter and
    one digit at the end of the name. *)
Definition extractYearMonth (name : string) : YearMonth :=
  match lastTwo name with
  | Some (monthCode, digit) =>
      if isUpper monthCode && isDigit digit
      then {| year := 2020 + Z.of_nat (nat_of_ascii digit - 48);
              monthIndex := monthOf monthCode |}
      else {| year := 9999; monthIndex := 99 |}
  | None => {| year := 9999; monthIndex := 99 |}
  end.

(** The comparator handed to [sort]. *)
Definition compareByName (a b : Contract) : Z :=
  let aData := extractYearMonth (name a) in
  let bData := extractYearMonth (name b) in
  if negb (year aData =? year bData) then year aData - year bData
  else monthIndex aData - monthIndex bData.

(** [Array.prototype.sort] with this comparator, by stable insertion. *)
Fixpoint insertByName (c : Contract) (sorted : list Contract) : list Contract :=
  match sorted with
  | [] => [c]
  | x :: rest =>
      if compareByName c x <=? 0 then c :: x :: rest
      else x :: insertByName c rest
  end.

Definition sortByName (l : list Contract) : list Contract :=
  List.fold_right insertByName [] l.

(** The branch of [getCurrentContractInternal] that is taken when no
    active contract has an [expirationDate]: the first contract in the
    order of the names. *)
Definition frontMonthByName (activeContracts : list Contract) : option Contract :=
  List.head (sortByName activeContracts).

(** [a] is not later than [b], by the year and the month read off the
    names. *)
Definition notLater (a b : Contract) : Prop :=
  let aData := extractYearMonth (name a) in
  let bData := extractYearMonth (name b) in
  year aData < year bData
  \/ (year aData = year bData /\ monthIndex aData <= monthIndex bData).

Definition earlier (a b : Contract) : Prop :=
  let aData := extractYearMonth (name a) in
  let bData := extractYearMonth (name b) in
  year aData < year bData
  \/ (year aData = year bData /\ monthIndex aData < monthIndex bData).

End TradovateClient.

(* --------------------------------------------------------------------- *)
(** ** Sample data                                                         *)
(* --------------------------------------------------------------------- *)

Module Sample.

(** An order with no property set. *)
Definition blank : Order.t :=
  Order.mk JUndefined JUndefined JUndefined None None JUndefined JUndefined
           JUndefined JUndefined JUndefined JUndefined JUndefined JUndefined
           JUndefined JUndefined.

(** A bracket as the brokerage lists it: a market entry (id 1), its stop
    (id 2, [parentId] 1) and its limit target (id 3, [linkedId] 1). *)
Definition entryOrder : Order.t :=
  Order.mk (JNum 1) JUndefined (JStr "Buy") (Some "Market") None (JNum 2)
           JUndefined JUndefined JUndefined JUndefined
           JUndefined JUndefined JUndefined
           JUndefined (JStr "Working").

Definition stopOrder : Order.t :=
  Order.mk (JNum 2) JUndefined (JStr "Sell") (Some "Stop") None (JNum 2)
           JUndefined JUndefined (JNum 90) JUndefined
           JUndefined (JNum 1) JUndefined
           JUndefined (JStr "Working").

Definition targetOrder : Order.t :=
  Order.mk (JNum 3) JUndefined (JStr "Sell") (Some "Limit") None (JNum 2)
           (JNum 110) JUndefined JUndefined JUndefined
           (JNum 1) JUndefined JUndefined
           JUndefined (JStr "Working").

(** The two legs that stay active once the entry (id 1) has filled: both
    name it as their parent. *)
Definition stopLeg : Order.t :=
  Order.mk (JNum 2) JUndefined (JStr "Sell") (Some "Stop") None (JNum 2)
           JUndefined JUndefined (JNum 90) JUndefined
           JUndefined (JNum 1) JUndefined
           JUndefined (JStr "Working").

Definition targetLeg : Order.t :=
  Order.mk (JNum 3) JUndefined (JStr "Sell") (Some "Limit") None (JNum 2)
           (JNum 110) JUndefined JUndefined JUndefined
           (JNum 1) (JNum 1) JUndefined
           JUndefined (JStr "Working").

(** An order of which only the id (5) and the status are known. *)
Definition untypedOrder : Order.t :=
  Order.mk (JNum 5) JUndefined (JStr "Buy") None None JUndefined
           JUndefined JUndefined JUndefined JUndefined
           JUndefined JUndefined JUndefined
           JUndefined (JStr "Working").

(** An order the brokerage has accepted but not yet put to work. *)
Definition pendingOrder : Order.t :=
  Order.mk (JNum 6) JUndefined (JStr "Buy") (Some "Limit") None (JNum 1)
           (JNum 100) JUndefined JUndefined JUndefined
           JUndefined JUndefined JUndefined
           JUndefined (JStr "PendingNew").

Definition openPosition : Position.t :=
  Position.mk (JNum 3001) (JNum 1) (JNum 100).

Definition someBalance : Balance.t :=
  Balance.mk (JNum 50000) (JNum 50000) (JNum 0) (JNum 0).

(** A brokerage that answers every call the same way: one open position,
    one working order (the sample entry order). *)
Definition upstream : Collector.Upstream :=
  {| Collector.getPositions := fun _ _ => Collector.mkReply 200%N (inr [openPosition]);
     Collector.getOrdersList := fun _ _ => Collector.mkReply 300%N (inr [entryOrder]);
     Collector.getAccountBalance := fun _ _ => Collector.mkReply 250%N (inr someBalance) |}.

(** The supervisor after [loadAccounts] has cached account 7 and written
    its initial polling state, at time 1000. *)
Definition collector : Collector.t :=
  Collector.mk
    (DataCache.updatePollingState 1000
       (DataCache.cacheAccountData 1000 DataCache.fresh 7
          (DataCache.FromBrokerage "demo"))
       7 IDLE InitialState)
    ∅ [] [] 0%nat 1000 0%nat.

(** Responses of the brokerage: one without markers, one with a timed
    penalty (ticket 'X', 5 seconds), one with the CAPTCHA marker. *)
Definition plainResponse : option RateLimiter.Response :=
  Some {| RateLimiter.data :=
            Some {| RateLimiter.p_ticket := JUndefined;
                    RateLimiter.p_time := JUndefined;
                    RateLimiter.p_captcha := JUndefined |} |}.

Definition timedPenalty : RateLimiter.ResponseData :=
  {| RateLimiter.p_ticket := JStr "X";
     RateLimiter.p_time := JNum 5;
     RateLimiter.p_captcha := JUndefined |}.

Definition captcha : RateLimiter.ResponseData :=
  {| RateLimiter.p_ticket := JUndefined;
     RateLimiter.p_time := JUndefined;
     RateLimiter.p_captcha := JBool true |}.

Definition penalized (d : RateLimiter.ResponseData) : RateLimiter.Outcome :=
  RateLimiter.Resolved (Some {| RateLimiter.data := Some d |}).

Definition tooManyRequests : RateLimiter.RequestError :=
  {| RateLimiter.message := "Request failed with status code 429";
     RateLimiter.responseStatus := Some (JNum 429) |}.

(** The client's gate at time 10000 with one request queued: it is being
    executed at once. *)
Definition gateBusy : RateLimiter.World :=
  RateLimiter.queueRequest (RateLimiter.boot RateLimiter.clientOptions 10000)
    1%nat (Some "get-positions-7").

(** A list on which being the same or related is an equivalence: a
    bracket whose two legs name the entry as their parent, and one order
    with no link at all. *)
Definition bracketAndSingle : list Order.t :=
  [stopLeg; entryOrder; targetLeg; untypedOrder].

(** A penalty response with a ticket and no waiting time. *)
Definition ticketOnly : RateLimiter.ResponseData :=
  {| RateLimiter.p_ticket := JStr "X";
     RateLimiter.p_time := JUndefined;
     RateLimiter.p_captcha := JUndefined |}.

(** The client's gate after two calls of [queueRequest] at time 10000, the
    answer to the first and 1500 ms: the worker is in its spacing sleep,
    which is over, with the second request in the queue. *)
Definition gateAsleep : option RateLimiter.World :=
  RateLimiter.run
    [ RateLimiter.QueueRequest 1 (Some "a"); RateLimiter.QueueRequest 2 (Some "b");
      RateLimiter.RequestDone (RateLimiter.Resolved plainResponse);
      RateLimiter.Elapse 1500 ]
    (RateLimiter.boot RateLimiter.clientOptions 10000).

(** The cache of the sample supervisor after one open position and one
    working order have been written for account 7, at times 1100 and
    1200. *)
Definition tradingCache : DataCache.t :=
  DataCache.cacheOrders 1200
    (DataCache.cachePositions 1100 (Collector.dataCache collector) 7 [openPosition])
    7 [entryOrder].

(** A brokerage that answers every call with the error the client throws
    once the gate has given up on a status 429. *)
Definition limitedUpstream : Collector.Upstream :=
  {| Collector.getPositions := fun _ _ =>
       Collector.mkReply 200%N (inl "Request failed with status code 429");
     Collector.getOrdersList := fun _ _ =>
       Collector.mkReply 200%N (inl "Request failed with status code 429");
     Collector.getAccountBalance := fun _ _ =>
       Collector.mkReply 200%N (inl "Request failed with status code 429") |}.

(** A brokerage that is down: every call ends in a network error. *)
Definition brokenUpstream : Collector.Upstream :=
  {| Collector.getPositions := fun _ _ =>
       Collector.mkReply 50%N (inl "connect ECONNREFUSED");
     Collector.getOrdersList := fun _ _ =>
       Collector.mkReply 50%N (inl "connect ECONNREFUSED");
     Collector.getAccountBalance := fun _ _ =>
       Collector.mkReply 50%N (inl "connect ECONNREFUSED") |}.

(** A brokerage with nothing to report: no position, no order. *)
Definition quietUpstream : Collector.Upstream :=
  {| Collector.getPositions := fun _ _ => Collector.mkReply 200%N (inr []);
     Collector.getOrdersList := fun _ _ => Collector.mkReply 300%N (inr []);
     Collector.getAccountBalance := fun _ _ => Collector.mkReply 250%N (inr someBalance) |}.

(** The sample supervisor after [getOrders] has cached the sample target
    order: a limit order with a price, which the standardisation copies to
    [limitPrice]. *)
Definition collectorWithTarget : Collector.t :=
  fst (Collector.getOrders_cached collector 7 [targetOrder]).

(** A supervisor whose cache holds one open position and one working
    order for account 7 while the stored mode is still the initial IDLE,
    with a reversion of account 7 pending (due at 2000). *)
Definition staleModeCollector : Collector.t :=
  Collector.mk tradingCache ∅ [] [ (2000, 7) ] 0%nat 1300 0%nat.


(** Four contracts of one product as the brokerage may list them, none with
    an expiration date: December 2025, March 2026, September 2025 and a
    March contract whose year ends in 0. *)
Definition listedContracts : list TradovateClient.Contract :=
  [ {| TradovateClient.name := "MNQZ5"; TradovateClient.id := 1 |};
    {| TradovateClient.name := "MNQH6"; TradovateClient.id := 2 |};
    {| TradovateClient.name := "MNQU5"; TradovateClient.id := 3 |};
    {| TradovateClient.name := "MNQH0"; TradovateClient.id := 4 |} ].

(** What the two symbols ES and NQ resolve to. *)
Definition esContract : TradovateClient.ContractInfo :=
  {| TradovateClient.baseSymbol := "ES";
     TradovateClient.contractName := "ESZ5";
     TradovateClient.contractId := 11 |}.

Definition nqContract : TradovateClient.ContractInfo :=
  {| TradovateClient.baseSymbol := "NQ";
     TradovateClient.contractName := "NQZ5";
     TradovateClient.contractId := 12 |}.

(** The contract cache of a client that resolved ES at the time 1000. *)
Definition esCached : TradovateClient.t :=
  TradovateClient.cacheContract 1000 TradovateClient.new "ES" esContract.
End Sample.

(* ===================================================================== *)
(** * Part II.  Properties                                                *)
(* ===================================================================== *)

(** ** Bracket reconciler *)

Section BracketFacts.

Implicit Types (o m : Order.t) (l orders members : list Order.t) (r : Role).

Lemma strict_eq_true (a b : jsval) : strict_eq a b = true <-> a = b.
Proof. unfold strict_eq. apply bool_decide_eq_true. Qed.

Lemma strict_eq_false (a b : jsval) : strict_eq a b = false <-> a <> b.
Proof. unfold strict_eq. apply bool_decide_eq_false. Qed.

Lemma strict_eq_refl (a : jsval) : strict_eq a a = true.
Proof. by apply strict_eq_true. Qed.

Lemma hasRole_true r o : hasRole r o = true <-> getOrderRole o = r.
Proof. unfold hasRole. apply bool_decide_eq_true. Qed.

(** Orders of one role compare as equal. *)
Lemma compareRoles_same_role r o m :
  hasRole r o = true -> hasRole r m = true -> compareRoles o m = 0.
Proof.
  rewrite !hasRole_true. unfold compareRoles. intros -> ->. lia.
Qed.

(** The sort is stable: it leaves the orders of any one role in the order
    they had. *)
Lemma filter_sortInsert r o l :
  List.filter (hasRole r) (sortInsert o l) =
  if hasRole r o then o :: List.filter (hasRole r) l
  else List.filter (hasRole r) l.
Proof.
  induction l as [|x l IH]; simpl.
  - by destruct (hasRole r o).
  - destruct (compareRoles o x <=? 0) eqn:Hc; simpl.
    + by destruct (hasRole r o).
    + rewrite IH. destruct (hasRole r o) eqn:Ho, (hasRole r x) eqn:Hx; try done.
      rewrite (compareRoles_same_role r o x Ho Hx) in Hc. done.
Qed.

Lemma filter_sortByRole r l :
  List.filter (hasRole r) (sortByRole l) = List.filter (hasRole r) l.
Proof.
  induction l as [|x l IH]; simpl; [done|].
  rewrite filter_sortInsert, IH. done.
Qed.

Lemma find_head_filter {A} (f : A -> bool) (l : list A) :
  List.find f l = List.head (List.filter f l).
Proof.
  induction l as [|x l IH]; simpl; [done|]. by destruct (f x).
Qed.

Lemma find_sortByRole r l :
  List.find (hasRole r) (sortByRole l) = List.find (hasRole r) l.
Proof. by rewrite !find_head_filter, filter_sortByRole. Qed.

Lemma sortInsert_not_nil o l : sortInsert o l <> [].
Proof. destruct l as [|x l]; simpl; [done|]. by destruct (_ <=? _). Qed.

Lemma sortByRole_head l : l <> [] -> is_Some (List.head (sortByRole l)).
Proof.
  destruct l as [|x l]; [done|]. intros _. simpl.
  pose proof (sortInsert_not_nil x (sortByRole l)) as H.
  destruct (sortInsert x (sortByRole l)); [done|]. by eexists.
Qed.

Lemma createBracketOrderGroup_eq members :
  createBracketOrderGroup members =
  {| Group.base := primaryOrder members;
     Group.orderType := "Bracket";
     Group.isGroup := true;
     Group.groupSize := Some (length members);
     Group.bracketDetails :=
       Some {| Details.entry := entrySummary <$> primaryOrder members;
               Details.stopLoss := legSummary <$> List.find (hasRole stop) members;
               Details.takeProfit := legSummary <$> List.find (hasRole target) members |} |}.
Proof.
  unfold createBracketOrderGroup, primaryOrder.
  by rewrite !find_sortByRole.
Qed.

(** Every emitted pair is a bracket built from the related set of some
    order of the list, or that order alone. *)
Lemma groupLoop_emits orders processed rest members g :
  In (members, g) (groupLoop orders processed rest) ->
  exists o, In o rest /\
    ((members = findRelatedOrders o orders /\ (1 < length members)%nat
      /\ g = createBracketOrderGroup members)
     \/ (members = [o] /\ g = standaloneGroup o)).
Proof.
  revert processed.
  induction rest as [|x rest IH]; intros processed; cbn [groupLoop]; [done|].
  destruct (decide _) as [Hin|Hnin].
  - intros H. destruct (IH _ H) as (o & Ho & Hcase). exists o. split; [by right|done].
  - destruct (1 <? length (findRelatedOrders x orders))%nat eqn:Hlen.
    + intros [Heq|H].
      * inversion Heq; subst. exists x. split; [by left|]. left.
        apply Nat.ltb_lt in Hlen. done.
      * destruct (IH _ H) as (o & Ho & Hcase). exists o. split; [by right|done].
    + intros [Heq|H].
      * inversion Heq; subst. exists x. split; [by left|]. by right.
      * destruct (IH _ H) as (o & Ho & Hcase). exists o. split; [by right|done].
Qed.

Lemma find_none_iff {A} (f : A -> bool) (l : list A) :
  List.find f l = None <-> forall x, In x l -> f x = false.
Proof.
  split.
  - apply List.find_none.
  - induction l as [|x l IH]; simpl; [done|]. intros H.
    rewrite (H x (or_introl eq_refl)). apply IH. intros y Hy. apply H. by right.
Qed.

End BracketFacts.

Section BracketClaims.

Implicit Types (o m E S T : Order.t) (orders members : list Order.t).

Lemma isRelated_parent E S :
  Order.parentId S = orderIdOf E -> isRelated E S = true.
Proof.
  intros H. unfold isRelated. rewrite H, strict_eq_refl.
  rewrite !orb_true_r. done.
Qed.

Lemma isRelated_linked E T :
  Order.linkedId T = orderIdOf E -> isRelated E T = true.
Proof.
  intros H. unfold isRelated. rewrite H, strict_eq_refl. done.
Qed.

(** Once every order of the list is marked as processed, the loop emits
    nothing more. *)
Lemma groupLoop_all_processed orders (processed : gset jsval) rest :
  (forall o, In o rest -> orderIdOf o ∈ processed) ->
  groupLoop orders processed rest = [].
Proof.
  induction rest as [|x rest IH]; intros Hsub; cbn [groupLoop]; [done|].
  destruct (decide _) as [_|Hn].
  - apply IH. intros o Ho. apply Hsub. by right.
  - exfalso. apply Hn, Hsub. by left.
Qed.

(** C3 (amended): when the entry order comes first in the list, followed
    by its stop ([parentId] = the entry's id) and its target ([linkedId] =
    the entry's id) in either order, role inference giving them the roles
    entry, stop and target, [groupRelatedOrders] returns exactly one group.
    It is built on the entry order, has [orderType] 'Bracket', [isGroup]
    true and [groupSize] 3, and all three sub-records of [bracketDetails]
    are there: [entry] carries the entry's action, quantity, price, id and
    status, [stopLoss] and [takeProfit] carry the price, id, status and
    order type of the stop and of the target. *)
Theorem entry_first_bracket_roundtrip E S T orders :
  orders = [E; S; T] \/ orders = [E; T; S] ->
  getOrderRole E = entry -> getOrderRole S = stop -> getOrderRole T = target ->
  Order.parentId S = orderIdOf E ->
  Order.linkedId T = orderIdOf E ->
  orderIdOf S <> orderIdOf E ->
  orderIdOf T <> orderIdOf E ->
  groupRelatedOrders orders =
  [ {| Group.base := Some E;
       Group.orderType := "Bracket";
       Group.isGroup := true;
       Group.groupSize := Some 3%nat;
       Group.bracketDetails :=
         Some {| Details.entry :=
                   Some {| Summary.action := Order.action E;
                           Summary.qty := Order.orderQty E;
                           Summary.price := extractOrderPrice E;
                           Summary.orderId := js_or (Order.orderId E) (Order.id E);
                           Summary.status := js_or (Order.ordStatus E) (Order.status E);
                           Summary.orderType := None |};
                 Details.stopLoss :=
                   Some {| Summary.action := JUndefined;
                           Summary.qty := JUndefined;
                           Summary.price := extractOrderPrice S;
                           Summary.orderId := js_or (Order.orderId S) (Order.id S);
                           Summary.status := js_or (Order.ordStatus S) (Order.status S);
                           Summary.orderType := Order.orderType S |};
                 Details.takeProfit :=
                   Some {| Summary.action := JUndefined;
                           Summary.qty := JUndefined;
                           Summary.price := extractOrderPrice T;
                           Summary.orderId := js_or (Order.orderId T) (Order.id T);
                           Summary.status := js_or (Order.ordStatus T) (Order.status T);
                           Summary.orderType := Order.orderType T |} |} |} ].
Proof.
  intros Hord HE HS HT Hp Hl HnS HnT.
  pose proof (isRelated_parent E S Hp) as HrS.
  pose proof (isRelated_linked E T Hl) as HrT.
  apply strict_eq_false in HnS, HnT.
  assert (Hrel : findRelatedOrders E orders = orders).
  { unfold findRelatedOrders.
    destruct Hord as [-> | ->]; cbn [List.filter];
      rewrite strict_eq_refl, HnS, HnT, HrS, HrT; done. }
  assert (Hlen : (1 <? length orders)%nat = true) by (by destruct Hord as [-> | ->]).
  assert (Hcons : exists tl, orders = E :: tl)
    by (destruct Hord as [-> | ->]; by eexists).
  destruct Hcons as [tl Htl].
  assert (Hloop : groupLoop orders ∅ (E :: tl)
                  = [(orders, createBracketOrderGroup orders)]).
  { cbn [groupLoop]. destruct (decide _) as [Hin|_]; [set_solver|].
    rewrite Hrel, Hlen, groupLoop_all_processed; [done|].
    intros o Ho. apply elem_of_union_r, elem_of_list_to_set.
    apply list_elem_of_In, List.in_map. rewrite Htl. by right. }
  unfold groupRelatedOrders, groupedWithMembers.
  rewrite Htl at 2. rewrite Hloop. cbn [List.map snd]. f_equal.
  rewrite createBracketOrderGroup_eq. unfold primaryOrder.
  destruct Hord as [-> | ->]; cbn [List.find length];
    unfold hasRole; rewrite HE, HS, HT; done.
Qed.

Lemma entry_first_bracket_roundtrip_witness :
  exists g d,
    groupRelatedOrders [Sample.entryOrder; Sample.stopOrder; Sample.targetOrder] = [g]
    /\ Group.groupSize g = Some 3%nat
    /\ Group.bracketDetails g = Some d
    /\ Details.entry d = Some (entrySummary Sample.entryOrder)
    /\ Details.stopLoss d = Some (legSummary Sample.stopOrder)
    /\ Details.takeProfit d = Some (legSummary Sample.targetOrder).
Proof.
  eexists _, _. split.
  - apply (entry_first_bracket_roundtrip
             Sample.entryOrder Sample.stopOrder Sample.targetOrder);
      [left; reflexivity | reflexivity | reflexivity | reflexivity
      | reflexivity | reflexivity | discriminate | discriminate].
  - repeat split; reflexivity.
Defined.

(** C3 (counterexample).  The claim as stated fails on the sample bracket:
    listed as stop, entry, target it comes out as two groups of two orders
    (the entry order in both), and even listed entry first the stop-loss
    sub-record has no action and no quantity, while the stop order has an
    action ('Sell') and a quantity (2). *)
Lemma bracket_roundtrip_as_stated_fails :
  List.map Group.groupSize
    (groupRelatedOrders [Sample.stopOrder; Sample.entryOrder; Sample.targetOrder])
    = [Some 2%nat; Some 2%nat]
  /\ (exists g d sl,
        groupRelatedOrders [Sample.entryOrder; Sample.stopOrder; Sample.targetOrder] = [g]
        /\ Group.bracketDetails g = Some d
        /\ Details.stopLoss d = Some sl
        /\ Summary.action sl = JUndefined
        /\ Summary.qty sl = JUndefined
        /\ Order.action Sample.stopOrder = JStr "Sell"
        /\ Order.orderQty Sample.stopOrder = JNum 2).
Proof.
  split; [by vm_compute|].
  eexists _, _, _. repeat split; by vm_compute.
Qed.

Lemma findRelatedOrders_unrelated o orders :
  (forall x, In x orders -> orderIdOf x <> orderIdOf o -> isRelated o x = false) ->
  findRelatedOrders o orders = [o].
Proof.
  intros H. unfold findRelatedOrders. f_equal.
  induction orders as [|x l IH]; simpl; [done|].
  destruct (strict_eq (orderIdOf x) (orderIdOf o)) eqn:He; simpl.
  - apply IH. intros y Hy. apply H. by right.
  - rewrite (H x); [|by left|by apply strict_eq_false].
    apply IH. intros y Hy. apply H. by right.
Qed.

Lemma groupLoop_standalone orders :
  forall rest (processed : gset jsval),
  List.NoDup (List.map orderIdOf rest) ->
  (forall o, In o rest -> orderIdOf o ∉ processed) ->
  (forall o, In o rest -> findRelatedOrders o orders = [o]) ->
  groupLoop orders processed rest =
  List.map (fun o => ([o], standaloneGroup o)) rest.
Proof.
  induction rest as [|x rest IH]; intros processed Hnd Hfresh Hrel;
    cbn [groupLoop List.map]; [done|].
  destruct (decide _) as [Hin|_].
  { exfalso. by apply (Hfresh x (or_introl eq_refl)). }
  rewrite (Hrel x (or_introl eq_refl)). cbn [length Nat.ltb Nat.leb].
  f_equal. simpl in Hnd. apply List.NoDup_cons_iff in Hnd as [Hx Hnd].
  apply IH; [done| |].
  - intros o Ho. rewrite elem_of_union, elem_of_singleton.
    intros [Hc|Hc].
    + by apply (Hfresh o (or_intror Ho)).
    + apply Hx. rewrite <- Hc. by apply List.in_map.
  - intros o Ho. apply Hrel. by right.
Qed.

(** C9 (amended): for a list of orders with pairwise different ids in which
    no order is related to another one by the relation test of
    [findRelatedOrders], [groupRelatedOrders] returns one standalone group
    per order, in the order of the list: the order's own properties with
    [isGroup] false and with [orderType] the order's own type when it has
    one, 'Single' only when it has none. *)
Theorem unrelated_orders_are_standalone orders :
  List.NoDup (List.map orderIdOf orders) ->
  (forall a b, In a orders -> In b orders -> orderIdOf a <> orderIdOf b ->
               isRelated a b = false) ->
  groupRelatedOrders orders =
    List.map (fun o => {| Group.base := Some o;
                          Group.orderType := str_or (Order.orderType o) "Single";
                          Group.isGroup := false;
                          Group.groupSize := None;
                          Group.bracketDetails := None |}) orders
  /\ length (groupRelatedOrders orders) = length orders
  /\ (forall g, In g (groupRelatedOrders orders) -> Group.isGroup g = false).
Proof.
  intros Hnd Hrel.
  assert (Heq : groupRelatedOrders orders = List.map standaloneGroup orders).
  { unfold groupRelatedOrders, groupedWithMembers.
    rewrite groupLoop_standalone; [|done|set_solver|].
    - rewrite List.map_map. done.
    - intros o Ho. apply findRelatedOrders_unrelated.
      intros x Hx Hne. apply Hrel; done. }
  split; [done|]. rewrite Heq. split; [by rewrite List.length_map|].
  intros g Hg. apply List.in_map_iff in Hg as (o & <- & Ho). done.
Qed.

Lemma unrelated_orders_are_standalone_witness :
  groupRelatedOrders [Sample.entryOrder; Sample.untypedOrder] =
    [ {| Group.base := Some Sample.entryOrder; Group.orderType := "Market";
         Group.isGroup := false; Group.groupSize := None;
         Group.bracketDetails := None |};
      {| Group.base := Some Sample.untypedOrder; Group.orderType := "Single";
         Group.isGroup := false; Group.groupSize := None;
         Group.bracketDetails := None |} ].
Proof.
  refine (proj1 (unrelated_orders_are_standalone
                   [Sample.entryOrder; Sample.untypedOrder] _ _)).
  - apply List.NoDup_cons; [simpl; intros [H|[]]; discriminate H|].
    apply List.NoDup_cons; [simpl; tauto|]. apply List.NoDup_nil.
  - intros a b Ha Hb Hne. simpl in Ha, Hb.
    destruct Ha as [<-|[<-|[]]]; destruct Hb as [<-|[<-|[]]];
      first [ reflexivity | exfalso; apply Hne; reflexivity ].
Defined.

(** C9 (counterexample).  A list of one order relates no two orders, and
    the standalone group of a market order is emitted with [orderType]
    'Market', not 'Single'. *)
Lemma standalone_orderType_single_fails :
  List.map Group.orderType (groupRelatedOrders [Sample.entryOrder]) = ["Market"]
  /\ List.map Group.isGroup (groupRelatedOrders [Sample.entryOrder]) = [false].
Proof. split; by vm_compute. Qed.

(** C8 (amended): in every bracket group [groupRelatedOrders] emits, the
    stop-loss sub-record is null exactly when no member of the group has
    the stop role and otherwise summarises the first member of that role,
    and likewise the take-profit sub-record for the target role; the entry
    sub-record is never null: it summarises the group's primary record,
    which is the first member of the entry role when there is one and
    otherwise the first member in the sorted order. *)
Theorem bracket_details_by_role orders members g :
  In (members, g) (groupedWithMembers orders) ->
  Group.isGroup g = true ->
  exists primary d,
    Group.base g = Some primary
    /\ Group.bracketDetails g = Some d
    /\ Details.entry d = Some (entrySummary primary)
    /\ (forall e, List.find (hasRole entry) members = Some e -> primary = e)
    /\ ((forall m, In m members -> getOrderRole m <> entry) ->
        List.head (sortByRole members) = Some primary)
    /\ Details.stopLoss d = legSummary <$> List.find (hasRole stop) members
    /\ (Details.stopLoss d = None <->
        forall m, In m members -> getOrderRole m <> stop)
    /\ Details.takeProfit d = legSummary <$> List.find (hasRole target) members
    /\ (Details.takeProfit d = None <->
        forall m, In m members -> getOrderRole m <> target).
Proof.
  intros Hin Hgroup.
  assert (Hnone : forall r, legSummary <$> List.find (hasRole r) members = None
                     <-> forall m, In m members -> getOrderRole m <> r).
  { intros r. rewrite fmap_None, find_none_iff. split; intros H m Hm.
    - intros Hr. apply hasRole_true in Hr. specialize (H m Hm). congruence.
    - specialize (H m Hm). destruct (hasRole r m) eqn:Hr; [|done].
      by apply hasRole_true in Hr. }
  apply groupLoop_emits in Hin as (o & Ho & [(Hm & Hlen & ->)|(-> & ->)]);
    [|discriminate Hgroup].
  rewrite createBracketOrderGroup_eq. cbn.
  assert (Hne : members <> []) by (intros ->; simpl in Hlen; lia).
  destruct (primaryOrder members) as [primary|] eqn:Hprim.
  2:{ unfold primaryOrder in Hprim. destruct (List.find _ members); [done|].
      destruct (sortByRole_head members Hne) as [x Hx]. congruence. }
  exists primary. eexists. repeat split; try done.
  - intros e He. unfold primaryOrder in Hprim. rewrite He in Hprim. congruence.
  - intros Hno. unfold primaryOrder in Hprim.
    destruct (List.find (hasRole entry) members) as [e|] eqn:He; [|done].
    apply List.find_some in He as [Hein Her]. apply hasRole_true in Her.
    by destruct (Hno e Hein).
  - apply Hnone.
  - apply Hnone.
  - apply Hnone.
  - apply Hnone.
Qed.

Lemma bracket_details_by_role_witness :
  exists primary d,
    Group.base (createBracketOrderGroup [Sample.stopLeg; Sample.targetLeg])
      = Some primary
    /\ Group.bracketDetails (createBracketOrderGroup [Sample.stopLeg; Sample.targetLeg])
      = Some d
    /\ Details.entry d = Some (entrySummary primary)
    /\ (forall e, List.find (hasRole entry) [Sample.stopLeg; Sample.targetLeg] = Some e
                  -> primary = e)
    /\ ((forall m, In m [Sample.stopLeg; Sample.targetLeg] -> getOrderRole m <> entry) ->
        List.head (sortByRole [Sample.stopLeg; Sample.targetLeg]) = Some primary)
    /\ Details.stopLoss d
      = legSummary <$> List.find (hasRole stop) [Sample.stopLeg; Sample.targetLeg]
    /\ (Details.stopLoss d = None <->
        forall m, In m [Sample.stopLeg; Sample.targetLeg] -> getOrderRole m <> stop)
    /\ Details.takeProfit d
      = legSummary <$> List.find (hasRole target) [Sample.stopLeg; Sample.targetLeg]
    /\ (Details.takeProfit d = None <->
        forall m, In m [Sample.stopLeg; Sample.targetLeg] -> getOrderRole m <> target).
Proof.
  apply (bracket_details_by_role [Sample.stopLeg; Sample.targetLeg]).
  - vm_compute. left. reflexivity.
  - reflexivity.
Defined.

(** C8 (counterexample).  The two legs left of a bracket whose entry has
    filled form a bracket group in which no member has the entry role, and
    yet its entry sub-record is not null: it summarises the stop leg, which
    is also the group's primary record. *)
Lemma entry_subrecord_without_entry_member :
  getOrderRole Sample.stopLeg = stop
  /\ getOrderRole Sample.targetLeg = target
  /\ (exists g d,
        groupedWithMembers [Sample.stopLeg; Sample.targetLeg]
          = [([Sample.stopLeg; Sample.targetLeg], g)]
        /\ Group.isGroup g = true
        /\ Group.base g = Some Sample.stopLeg
        /\ Group.bracketDetails g = Some d
        /\ Details.entry d = Some (entrySummary Sample.stopLeg)).
Proof.
  split; [by vm_compute|]. split; [by vm_compute|].
  eexists _, _. repeat split; by vm_compute.
Qed.

(** C10 (the code at the failing input).  For the sample bracket listed as
    stop, entry, target the loop emits two bracket groups, made from the
    orders with ids 2, 1 and 3, 1: the entry order (id 1) is a member of
    both. *)
Lemma entry_order_in_two_groups :
  List.map (fun p => (List.map orderIdOf (fst p), Group.isGroup (snd p)))
    (groupedWithMembers [Sample.stopOrder; Sample.entryOrder; Sample.targetOrder])
  = [ ([JNum 2; JNum 1], true); ([JNum 3; JNum 1], true) ].
Proof. by vm_compute. Qed.

End BracketClaims.

(** ** Freshness cache *)

Section CacheFacts.

Import DataCache.

Implicit Types (dc : DataCache.t) (a accountId : Z).

Lemma logUpdate_init now dc a ty ok e rt :
  isInitialized (logUpdate now dc a ty ok e rt) = isInitialized dc.
Proof. unfold logUpdate. by destruct (isInitialized dc) eqn:E. Qed.

Lemma cacheAccountData_init now dc a d :
  isInitialized (cacheAccountData now dc a d) = isInitialized dc.
Proof.
  unfold cacheAccountData, logUpdate.
  destruct (isInitialized dc) eqn:E; simpl; rewrite ?E; done.
Qed.

Lemma cacheAccountBalance_init now dc a d :
  isInitialized (cacheAccountBalance now dc a d) = isInitialized dc.
Proof.
  unfold cacheAccountBalance, logUpdate.
  destruct (isInitialized dc) eqn:E; simpl; rewrite ?E; done.
Qed.

Lemma cachePositions_init now dc a d :
  isInitialized (cachePositions now dc a d) = isInitialized dc.
Proof.
  unfold cachePositions, logUpdate.
  destruct (isInitialized dc) eqn:E; simpl; rewrite ?E; done.
Qed.

Lemma cacheOrders_init now dc a d :
  isInitialized (cacheOrders now dc a d) = isInitialized dc.
Proof.
  unfold cacheOrders, logUpdate.
  destruct (isInitialized dc) eqn:E; simpl; rewrite ?E; done.
Qed.

Lemma updatePollingState_init now dc a m r :
  isInitialized (updatePollingState now dc a m r) = isInitialized dc.
Proof. unfold updatePollingState. by destruct (isInitialized dc) eqn:E. Qed.

Lemma determinePollingMode_updatePollingState n now dc a m r a' :
  determinePollingMode n (updatePollingState now dc a m r) a'
  = determinePollingMode n dc a'.
Proof.
  unfold determinePollingMode, getCachedPositions, getCachedOrders, updatePollingState.
  by destruct (isInitialized dc) eqn:E; simpl; rewrite ?E.
Qed.




End CacheFacts.

(** ** Polling supervisor *)

Section CollectorFacts.

Import DataCache Collector.

Implicit Types (c : Collector.t) (dc : DataCache.t) (a accountId : Z).

(** What a restart and everything under it leave alone: whether the cache
    is initialised, and the pending reversions. *)
Local Abbreviation frame c c' :=
  (initialized c' = initialized c /\ revertTimers c' = revertTimers c).

Lemma ensureAccount_frame c a : frame c (ensureAccount c a).
Proof.
  unfold ensureAccount, initialized. destruct (getCachedAccountData _ _); [done|].
  simpl. by rewrite cacheAccountData_init.
Qed.

Lemma fetch_frame up c a dt c' r :
  fetch up c a dt = (c', r) -> frame c c'.
Proof.
  unfold fetch. destruct dt.
  - by intros [= <- _].
  - by intros [= <- _].
  - destruct (outcome _) as [m|raw]; [by intros [= <- _]|].
    set (c1 := afterCall c _). unfold getOrders_cached.
    destruct (ensureAccount_frame c1 a) as [Hi Hr].
    destruct (isInitialized (dataCache c1)); [|by intros [= <- _]].
    destruct (hasEnrichedData _); intros [= <- _].
    + by rewrite Hi, Hr.
    + unfold initialized in *. simpl. by rewrite cacheOrders_init, Hi, Hr.
Qed.

Lemma cacheFetched_frame c a d : frame c (cacheFetched c a d).
Proof.
  unfold cacheFetched. destruct (ensureAccount_frame c a) as [Hi Hr].
  destruct d; [| |done]; destruct (isInitialized (dataCache c)); try done;
    unfold initialized in *; simpl.
  - by rewrite cacheAccountBalance_init, Hi, Hr.
  - by rewrite cachePositions_init, Hi, Hr.
Qed.

Lemma setMode_frame c a m r : frame c (setMode c a m r).
Proof. unfold setMode, initialized. simpl. by rewrite updatePollingState_init. Qed.

Lemma clearAccountTimers_frame c a : frame c (clearAccountTimers c a).
Proof.
  unfold clearAccountTimers, initialized.
  destruct (timers c !! a) as [tm|]; [|done].
  by destruct (balanceTimer tm), (positionsTimer tm), (ordersTimer tm).
Qed.

Lemma currentMode_setMode c a m r :
  initialized c = true -> currentMode (setMode c a m r) a = Some m.
Proof.
  unfold initialized, currentMode, setMode, getPollingState, updatePollingState.
  intros E. cbn. rewrite E. cbn. by rewrite lookup_insert_eq.
Qed.

Lemma dataDerivedMode_setMode c a m r a' :
  dataDerivedMode (setMode c a m r) a' = dataDerivedMode c a'.
Proof.
  unfold dataDerivedMode, setMode. simpl.
  by rewrite determinePollingMode_updatePollingState.
Qed.

Lemma currentMode_ext c c' a :
  dataCache c = dataCache c' -> currentMode c a = currentMode c' a.
Proof. unfold currentMode. by intros ->. Qed.

Lemma dataDerivedMode_ext c c' a :
  dataCache c = dataCache c' -> now c = now c' ->
  dataDerivedMode c a = dataDerivedMode c' a.
Proof. unfold dataDerivedMode. by intros -> ->. Qed.

Lemma initialized_ext c c' :
  dataCache c = dataCache c' -> initialized c = initialized c'.
Proof. unfold initialized. by intros ->. Qed.

Section WithRestart.

Variable restart : Collector.t -> Z -> option Collector.t.
Variable up : Upstream.
Hypothesis restart_frame : forall c a c', restart c a = Some c' -> frame c c'.

(** [initializeAccountPolling] ends by writing the data-derived mode and
    arming three new timers at that mode's intervals. *)
Lemma initializeAccountPolling_shape c a c' :
  initializeAccountPolling restart up c a = Some c' ->
  exists c1 b1 c2 b2,
    pollDataType restart up c a positions = Some (c1, b1)
    /\ pollDataType restart up c1 a orders = Some (c2, b2)
    /\ let c3 := setMode c2 a (dataDerivedMode c2 a)
                   (reason (determinePollingMode (now c2) (dataCache c2) a)) in
       let storedMode := modeOrIdle (getPollingState (dataCache c3) a) in
       dataCache c' = dataCache c3
       /\ now c' = now c2
       /\ revertTimers c' = revertTimers c2
       /\ timers c' !! a =
            Some {| balanceTimer := Some (nextHandle c2);
                    positionsTimer := Some (S (nextHandle c2));
                    ordersTimer := Some (S (S (nextHandle c2))) |}
       /\ pollTimers c' =
            pollTimers c2 ++
            [ {| handle := nextHandle c2;
                 due := now c2 + pollingIntervals storedMode balance;
                 timerAccount := a; timerDataType := balance |};
              {| handle := S (nextHandle c2);
                 due := now c2 + pollingIntervals storedMode positions;
                 timerAccount := a; timerDataType := positions |};
              {| handle := S (S (nextHandle c2));
                 due := now c2 + pollingIntervals storedMode orders;
                 timerAccount := a; timerDataType := orders |} ].
Proof.
  unfold initializeAccountPolling. intros H.
  destruct (pollDataType restart up c a positions) as [[c1 b1]|] eqn:E1; [|done].
  simpl in H.
  destruct (pollDataType restart up c1 a orders) as [[c2 b2]|] eqn:E2; [|done].
  simpl in H.
  exists c1, b1, c2, b2. split; [done|]. split; [done|].
  injection H as <-. cbn. rewrite lookup_insert_eq, <- !app_assoc. done.
Qed.

Lemma initializeAccountPolling_mode c a c' :
  initializeAccountPolling restart up c a = Some c' ->
  initialized c' = true ->
  currentMode c' a = Some (dataDerivedMode c' a).
Proof.
  intros H Hi.
  destruct (initializeAccountPolling_shape c a c' H)
    as (c1 & b1 & c2 & b2 & _ & _ & Hdc & Hnow & _).
  rewrite (initialized_ext _ _ Hdc) in Hi.
  rewrite (proj1 (setMode_frame _ _ _ _)) in Hi.
  rewrite (currentMode_ext _ _ a Hdc), (dataDerivedMode_ext _ _ a Hdc Hnow).
  by rewrite currentMode_setMode, dataDerivedMode_setMode.
Qed.

Lemma pollFailed_frame c a dt st msg c' b :
  pollFailed restart c a dt st msg = Some (c', b) -> frame c c' /\ b = false.
Proof.
  unfold pollFailed, handleRateLimit. destruct (_ || _).
  - destruct (restart _ a) as [c2|] eqn:E; [|done]. simpl. intros [= <- <-].
    split; [|done]. destruct (restart_frame _ _ _ E) as [-> ->].
    unfold initialized. simpl. by rewrite updatePollingState_init, logUpdate_init.
  - intros [= <- <-]. split; [|done]. unfold initialized. simpl.
    by rewrite logUpdate_init.
Qed.

Lemma pollDataType_frame c a dt c' b :
  pollDataType restart up c a dt = Some (c', b) -> frame c c'.
Proof.
  unfold pollDataType. destruct (fetch up c a dt) as [c1 [msg|data]] eqn:Ef;
    destruct (fetch_frame up c a dt c1 _ Ef) as [Hi1 Hr1].
  - intros H. apply pollFailed_frame in H as [[-> ->] _]. done.
  - set (c3 := withCache _ _).
    assert (Hc3 : frame c c3).
    { destruct (cacheFetched_frame c1 a data) as [Hi2 Hr2].
      unfold c3, initialized in *. simpl.
      by rewrite logUpdate_init, Hi2, Hr2. }
    destruct Hc3 as [Hi3 Hr3].
    unfold checkPollingModeChange.
    destruct (getPollingState (dataCache c3) a) as [cur|].
    + destruct (bool_decide _).
      * destruct (restart _ a) as [c4|] eqn:E; [|done]. simpl. intros [= <- <-].
        destruct (restart_frame _ _ _ E) as [-> ->].
        destruct (setMode_frame c3 a
                    (mode (determinePollingMode (now c3) (dataCache c3) a))
                    (reason (determinePollingMode (now c3) (dataCache c3) a)))
          as [-> ->].
        done.
      * by intros [= <- <-].
    + intros H. apply pollFailed_frame in H as [[-> ->] _]. done.
Qed.

Lemma initializeAccountPolling_frame c a c' :
  initializeAccountPolling restart up c a = Some c' -> frame c c'.
Proof.
  intros H.
  destruct (initializeAccountPolling_shape c a c' H)
    as (c1 & b1 & c2 & b2 & H1 & H2 & Hdc & _ & Hrev & _).
  rewrite (initialized_ext _ _ Hdc), Hrev.
  rewrite (proj1 (setMode_frame _ _ _ _)).
  destruct (pollDataType_frame _ _ _ _ _ H2) as [-> ->].
  by destruct (pollDataType_frame _ _ _ _ _ H1) as [-> ->].
Qed.

(** After a poll that succeeded the stored mode is the data-derived one,
    if that is so after every restart. *)
Lemma pollDataType_mode c a dt c' :
  pollDataType restart up c a dt = Some (c', true) ->
  (forall c0 c1, restart c0 a = Some c1 -> initialized c1 = true ->
                 currentMode c1 a = Some (dataDerivedMode c1 a)) ->
  currentMode c' a = Some (dataDerivedMode c' a).
Proof.
  unfold pollDataType. intros H Hr.
  destruct (fetch up c a dt) as [c1 [msg|data]] eqn:Ef.
  { apply pollFailed_frame in H as [_ ?]. done. }
  set (c3 := withCache _ _) in H.
  unfold checkPollingModeChange in H.
  destruct (getPollingState (dataCache c3) a) as [cur|] eqn:Hcur.
  2:{ apply pollFailed_frame in H as [_ ?]. done. }
  assert (Hi : initialized c3 = true).
  { unfold initialized. unfold getPollingState in Hcur.
    by destruct (isInitialized (dataCache c3)). }
  destruct (bool_decide _) eqn:Hd.
  - destruct (restart _ a) as [c4|] eqn:E; [|done]. simpl in H.
    injection H as <-. apply (Hr _ _ E).
    rewrite (proj1 (restart_frame _ _ _ E)).
    by rewrite (proj1 (setMode_frame _ _ _ _)).
  - injection H as <-. apply bool_decide_eq_false in Hd.
    unfold currentMode, dataDerivedMode. rewrite Hcur. simpl. f_equal.
    by destruct (decide (current_mode cur
                         = mode (determinePollingMode (now c3) (dataCache c3) a))).
Qed.

End WithRestart.

Lemma restartAccountPolling_frame fuel up c a c' :
  restartAccountPolling fuel up c a = Some c' -> frame c c'.
Proof.
  revert c a c'. induction fuel as [|fuel IH]; intros c a c'; simpl; [done|].
  intros H. apply initializeAccountPolling_frame in H; [|exact IH].
  destruct H as [-> ->]. apply clearAccountTimers_frame.
Qed.

Lemma restartAccountPolling_mode fuel up c a c' :
  restartAccountPolling fuel up c a = Some c' ->
  initialized c' = true ->
  currentMode c' a = Some (dataDerivedMode c' a).
Proof.
  destruct fuel as [|fuel]; simpl; [done|].
  apply initializeAccountPolling_mode.
Qed.

(** The mode is a function of the two cached counts. *)
Lemma determinePollingMode_by_counts now dc a :
  let info := determinePollingMode now dc a in
  let op := openPositions info in
  let wo := workingOrders info in
  (isInitialized dc = true ->
     op = default 0 (open_positions_count <$> positions_cache dc !! a)
     /\ wo = default 0 (working_orders_count <$> orders_cache dc !! a))
  /\ (op = 0 /\ wo = 0 -> mode info = IDLE)
  /\ (2 < op \/ 3 < wo -> mode info = CRITICAL)
  /\ (~ (op = 0 /\ wo = 0) -> ~ (2 < op \/ 3 < wo) -> mode info = ACTIVE).
Proof.
  cbv zeta. unfold determinePollingMode.
  set (op := count_or_0 (openPositionsCount <$> getCachedPositions now dc a)).
  set (wo := count_or_0 (workingOrdersCount <$> getCachedOrders now dc a)).
  assert (Hcounts : isInitialized dc = true ->
            op = default 0 (open_positions_count <$> positions_cache dc !! a)
            /\ wo = default 0 (working_orders_count <$> orders_cache dc !! a)).
  { intros Hi. unfold op, wo, getCachedPositions, getCachedOrders. rewrite Hi.
    cbn [negb]. split.
    - destruct (positions_cache dc !! a) as [row|]; cbn; [|done].
      destruct (Z.eqb_spec (open_positions_count row) 0); congruence.
    - destruct (orders_cache dc !! a) as [row|]; cbn; [|done].
      destruct (Z.eqb_spec (working_orders_count row) 0); congruence. }
  destruct (Z.eqb_spec op 0), (Z.eqb_spec wo 0),
           (Z.ltb_spec 2 op), (Z.ltb_spec 3 wo); cbn;
    (split; [exact Hcounts|]); repeat split; intros; try done; try lia;
    exfalso; intuition lia.
Qed.

(** C1: the mode [determinePollingMode] computes is a function of the two
    cached counts alone (for an initialised cache these are the stored
    [open_positions_count] and [working_orders_count] of the account, 0 for
    a missing row): IDLE when both are 0, CRITICAL when there are more than
    2 open positions or more than 3 working orders, ACTIVE otherwise.  And
    when a poll has succeeded, the mode stored for the account is that
    function of the counts then in the cache (whether or not a manual
    override was made before). *)
Theorem polling_mode_follows_cached_counts :
  (forall now dc a,
     let info := determinePollingMode now dc a in
     let op := openPositions info in
     let wo := workingOrders info in
     (isInitialized dc = true ->
        op = default 0 (open_positions_count <$> positions_cache dc !! a)
        /\ wo = default 0 (working_orders_count <$> orders_cache dc !! a))
     /\ (op = 0 /\ wo = 0 -> mode info = IDLE)
     /\ (2 < op \/ 3 < wo -> mode info = CRITICAL)
     /\ (~ (op = 0 /\ wo = 0) -> ~ (2 < op \/ 3 < wo) -> mode info = ACTIVE))
  /\ (forall fuel up c accountId dataType c',
        pollDataType (restartAccountPolling fuel up) up c accountId dataType
          = Some (c', true) ->
        currentMode c' accountId
          = Some (mode (determinePollingMode (now c') (dataCache c') accountId))).
Proof.
  split; [exact determinePollingMode_by_counts|].
  intros fuel up c a dt c' H.
  apply (pollDataType_mode _ up (restartAccountPolling_frame fuel up) c a dt c' H).
  intros c0 c1 Hr Hi. by apply (restartAccountPolling_mode fuel up c0 a c1).
Qed.

Lemma polling_mode_follows_cached_counts_witness :
  exists c',
    pollDataType (restartAccountPolling 1 Sample.upstream) Sample.upstream
      Sample.collector 7 positions = Some (c', true)
    /\ currentMode c' 7 = Some ACTIVE
    /\ currentMode c' 7
       = Some (mode (determinePollingMode (now c') (dataCache c') 7)).
Proof.
  eexists. split; [vm_compute; reflexivity|]. split; [vm_compute; reflexivity|].
  apply (proj2 polling_mode_follows_cached_counts 1%nat Sample.upstream
           Sample.collector 7 positions).
  vm_compute. reflexivity.
Defined.




End CollectorFacts.

(** ** Request gate *)

Section GateFacts.

Import RateLimiter.

Implicit Types (w : World) (g : RateLimiter.t) (e : Event) (r request : Request).

(** A property that every turn of the event loop keeps holds along every
    run. *)
Lemma run_invariant (I : World -> Prop) :
  (forall e w w', step e w = Some w' -> I w -> I w') ->
  forall events w w', run events w = Some w' -> I w -> I w'.
Proof.
  intros Hstep events. induction events as [|e events IH]; intros w w'; simpl.
  - by intros [= <-].
  - destruct (step e w) as [w1|] eqn:E; [|done].
    intros Hrun Hw. apply (IH w1 w' Hrun). by apply (Hstep e w w1).
Qed.

Lemma In_delete {A} (x : A) i (l : list A) : In x (delete i l) -> In x l.
Proof.
  revert i. induction l as [|y l IH]; intros [|i]; simpl; try done.
  - by right.
  - intros [->|H]; [by left|right; by apply (IH i)].
Qed.

(** *** Configuration and clock *)

Lemma sameSetup_trans w1 w2 w3 :
  sameSetup w1 w2 -> sameSetup w2 w3 -> sameSetup w1 w3.
Proof.
  intros ((? & ? & ?) & ?) ((? & ? & ?) & ?). repeat split; congruence.
Qed.

Lemma beginExecution_setup w : sameSetup w (beginExecution w).
Proof. unfold beginExecution. by destruct (requestQueue (gate w)). Qed.

Lemma enforceInterval_setup w : sameSetup w (enforceInterval w).
Proof.
  unfold enforceInterval. destruct (_ <? _); [done|apply beginExecution_setup].
Qed.

Lemma loopHead_setup w : sameSetup w (loopHead w).
Proof.
  unfold loopHead. destruct (requestQueue (gate w)); [done|].
  destruct (_ && _); [done|apply enforceInterval_setup].
Qed.

Lemma processQueue_setup w : sameSetup w (processQueue w).
Proof.
  unfold processQueue. destruct (_ || _); [done|].
  eapply sameSetup_trans; [|apply loopHead_setup]. done.
Qed.

Lemma finishExecution_setup w request startTime o :
  sameSetup w (finishExecution w request startTime o).
Proof.
  unfold finishExecution. destruct o as [response|error].
  - destruct (isPenaltyResponse response); [|done].
    destruct response as [[[d|]]|]; try done.
    unfold handlePenaltyResponse.
    destruct (truthy (p_captcha d)); [done|].
    destruct (_ && _); [|done]. cbn. by destruct (_ <? _).
  - unfold handleRequestError. destruct (bool_decide _); [|done]. cbn.
    by destruct (_ <? _).
Qed.

Lemma step_config e w w' :
  step e w = Some w' -> sameConfig w w' /\ now w <= now w'.
Proof.
  assert (Hle : forall w2, sameSetup w w2 -> sameConfig w w2 /\ now w <= now w2).
  { intros w2 [? ->]. split; [done|lia]. }
  intros Hstep. destruct e as [fn id|ms| | |o|i]; simpl in Hstep.
  - injection Hstep as <-. apply Hle. unfold queueRequest.
    eapply sameSetup_trans; [|apply processQueue_setup]. done.
  - injection Hstep as <-. split; [done|]. cbn. lia.
  - destruct (worker w) as [|wake|wake|request st|]; try done.
    destruct (wake <=? now w); [|done]. injection Hstep as <-. apply Hle.
    eapply sameSetup_trans; [|apply enforceInterval_setup]. done.
  - destruct (worker w) as [|wake|wake|request st|]; try done.
    destruct (wake <=? now w); [|done]. injection Hstep as <-. apply Hle.
    apply beginExecution_setup.
  - destruct (worker w) as [|wake|wake|request st|]; try done.
    injection Hstep as <-. apply Hle.
    eapply sameSetup_trans; [apply finishExecution_setup|apply loopHead_setup].
  - destruct (retryTimers w !! i) as [[dueAt request]|]; [|done].
    destruct (dueAt <=? now w); [|done]. injection Hstep as <-. apply Hle.
    eapply sameSetup_trans; [|apply processQueue_setup]. done.
Qed.

Lemma run_config events w w' : run events w = Some w' -> sameConfig w w'.
Proof.
  revert w. induction events as [|e events IH]; intros w; simpl.
  - by intros [= <-].
  - destruct (step e w) as [w1|] eqn:E; [|done]. intros Hrun.
    destruct (step_config e w w1 E) as [(? & ? & ?) _].
    destruct (IH w1 Hrun) as (? & ? & ?). repeat split; congruence.
Qed.

(** *** Spacing *)

Lemma beginExecution_spacing w :
  spacingCore w ->
  lastRequestTime (gate w) + minRequestInterval (gate w) <= now w ->
  spacingInv (beginExecution w).
Proof.
  intros [Hsp Hlast] Hgap. unfold beginExecution.
  destruct (requestQueue (gate w)) as [|request rest]; [done|].
  split; [|done]. split; [|done]. cbn.
  destruct (executions w) as [|x l]; [done|]. split; [|done]. lia.
Qed.

Lemma enforceInterval_spacing w : spacingCore w -> spacingInv (enforceInterval w).
Proof.
  intros Hc. unfold enforceInterval.
  destruct (Z.ltb_spec (now w - lastRequestTime (gate w)) (minRequestInterval (gate w))).
  - split; [done|]. cbn. lia.
  - apply beginExecution_spacing; [done|lia].
Qed.

Lemma loopHead_spacing w : spacingCore w -> spacingInv (loopHead w).
Proof.
  intros Hc. unfold loopHead.
  destruct (requestQueue (gate w)) as [|x l] eqn:Hq; [done|].
  destruct (_ && _); [done|]. by apply enforceInterval_spacing.
Qed.

Lemma processQueue_spacing w : spacingInv w -> spacingInv (processQueue w).
Proof.
  intros [Hc Hs]. unfold processQueue. destruct (_ || _); [done|].
  by apply loopHead_spacing.
Qed.

Lemma finishExecution_spacing w request startTime o :
  spacingCore w -> spacingCore (finishExecution w request startTime o).
Proof.
  intros Hc. unfold finishExecution. destruct o as [response|error].
  - destruct (isPenaltyResponse response).
    + destruct response as [[[d|]]|]; try done.
      unfold handlePenaltyResponse.
      destruct (truthy (p_captcha d)); [done|].
      destruct (_ && _); [|done].
      destruct (_ <? _); done.
    + done.
  - unfold handleRequestError. destruct (bool_decide _); [|done].
    destruct (_ <? _); done.
Qed.

Lemma step_spacing e w w' : step e w = Some w' -> spacingInv w -> spacingInv w'.
Proof.
  intros Hstep [Hc Hs]. destruct e as [fn id|ms| | |o|i]; simpl in Hstep.
  - injection Hstep as <-. unfold queueRequest. by apply processQueue_spacing.
  - by injection Hstep as <-.
  - destruct (worker w) as [|wake|wake|request st|] eqn:Hw; try done.
    destruct (wake <=? now w); [|done]. injection Hstep as <-.
    by apply enforceInterval_spacing.
  - destruct (worker w) as [|wake|wake|request st|] eqn:Hw; try done.
    destruct (Z.leb_spec wake (now w)); [|done]. injection Hstep as <-.
    apply beginExecution_spacing; [done|lia].
  - destruct (worker w) as [|wake|wake|request st|] eqn:Hw; try done.
    injection Hstep as <-. by apply loopHead_spacing, finishExecution_spacing.
  - destruct (retryTimers w !! i) as [[dueAt request]|]; [|done].
    destruct (dueAt <=? now w); [|done]. injection Hstep as <-.
    by apply processQueue_spacing.
Qed.

(** *** Attempts *)

Lemma attemptsCore_ext w w' :
  maxRetryAttempts (gate w') = maxRetryAttempts (gate w) ->
  requestQueue (gate w') = requestQueue (gate w) ->
  retryTimers w' = retryTimers w ->
  executions w' = executions w ->
  attemptsCore w -> attemptsCore w'.
Proof. unfold attemptsCore. by intros -> -> -> ->. Qed.

Ltac same_requests w :=
  apply (attemptsCore_ext w); [cbn; rewrite ?app_nil_r; done ..|done].

Lemma beginExecution_attempts w : attemptsCore w -> attemptsInv (beginExecution w).
Proof.
  intros Hc. pose proof Hc as (Hq & Ht & He). unfold beginExecution.
  destruct (requestQueue (gate w)) as [|request rest] eqn:E.
  - split; [|done]. by same_requests w.
  - assert (0 <= attempts request < maxRetryAttempts (gate w))
      by (apply Hq; by left).
    split; [split; [|split]|]; cbn.
    + intros r Hr. apply Hq. by right.
    + done.
    + intros x [<-|Hin]; [cbn; lia|by apply He].
    + intros r st [= <- _]. done.
Qed.

Lemma enforceInterval_attempts w : attemptsCore w -> attemptsInv (enforceInterval w).
Proof.
  intros Hc. unfold enforceInterval. destruct (_ <? _).
  - by split.
  - by apply beginExecution_attempts.
Qed.

Lemma loopHead_attempts w : attemptsCore w -> attemptsInv (loopHead w).
Proof.
  intros Hc. unfold loopHead.
  destruct (requestQueue (gate w)) as [|x l] eqn:Hq.
  - split; [|done]. by same_requests w.
  - destruct (_ && _).
    + by split.
    + by apply enforceInterval_attempts.
Qed.

Lemma processQueue_attempts w : attemptsInv w -> attemptsInv (processQueue w).
Proof.
  intros [Hc Hx]. unfold processQueue. destruct (_ || _); [done|].
  by apply loopHead_attempts.
Qed.

Lemma finishExecution_attempts w request startTime o :
  attemptsCore w -> 0 <= attempts request < maxRetryAttempts (gate w) ->
  attemptsCore (finishExecution w request startTime o).
Proof.
  intros Hc Hr. pose proof Hc as (Hq & Ht & He).
  unfold finishExecution. destruct o as [response|error].
  - destruct (isPenaltyResponse response); [|same_requests w].
    destruct response as [[[d|]]|]; try same_requests w.
    unfold handlePenaltyResponse.
    destruct (truthy (p_captcha d)); [same_requests w|].
    destruct (_ && _); [|same_requests w]. cbn [fst snd bump attempts].
    destruct (Z.ltb_spec (attempts request + 1)
                (maxRetryAttempts (withPenalty (countPenalty (updateStats (gate w)))
                   true ((fun s => now w + s * 1000) <$> parseInt (p_time d))
                   (p_ticket d)))) as [Hlt|Hge];
      [|same_requests w].
    split; [|split]; [|exact Ht|exact He].
    intros r [<-|Hin]; [|by apply Hq]. split; [simpl; lia|exact Hlt].
  - unfold handleRequestError. destruct (bool_decide _); [|same_requests w].
    cbn [fst snd bump attempts].
    destruct (Z.ltb_spec (attempts request + 1)
                (maxRetryAttempts (countFailure (gate w)))) as [Hlt|Hge];
      [|same_requests w].
    split; [|split]; [exact Hq| |exact He].
    intros dueAt r Hin. cbn in Hin.
    apply in_app_or in Hin as [Hin|[[= _ <-]|[]]]; [by apply (Ht dueAt)|].
    split; [simpl; lia|exact Hlt].
Qed.

Lemma step_attempts e w w' :
  1 <= maxRetryAttempts (gate w) ->
  step e w = Some w' -> attemptsInv w -> attemptsInv w'.
Proof.
  intros Hlimit Hstep Hinv. pose proof Hinv as ((Hq & Ht & He) & Hx).
  destruct e as [fn id|ms| | |o|i]; simpl in Hstep.
  - injection Hstep as <-. unfold queueRequest. apply processQueue_attempts.
    split; [|done]. split; [|done]. cbn.
    intros r Hin. apply in_app_or in Hin as [Hin|[<-|[]]]; [by apply Hq|cbn; lia].
  - by injection Hstep as <-.
  - destruct (worker w) as [|wake|wake|request st|] eqn:Hw; try done.
    destruct (wake <=? now w); [|done]. injection Hstep as <-.
    by apply enforceInterval_attempts.
  - destruct (worker w) as [|wake|wake|request st|] eqn:Hw; try done.
    destruct (wake <=? now w); [|done]. injection Hstep as <-.
    by apply beginExecution_attempts.
  - destruct (worker w) as [|wake|wake|request st|] eqn:Hw; try done.
    injection Hstep as <-. apply loopHead_attempts, finishExecution_attempts.
    + done.
    + by apply (Hx request st).
  - destruct (retryTimers w !! i) as [[dueAt request]|] eqn:Hi; [|done].
    destruct (dueAt <=? now w); [|done]. injection Hstep as <-.
    apply processQueue_attempts. split; [|done]. split; [|split]; cbn; try done.
    + intros r [<-|Hin]; [|by apply Hq]. apply (Ht dueAt).
      apply list_elem_of_In. by apply list_elem_of_lookup_2 in Hi.
    + intros d r Hin. apply (Ht d). by apply In_delete in Hin.
Qed.

(** *** Suspension *)

Lemma loopHead_suspended endTime w :
  penaltyActive (gate w) = true ->
  penaltyEndTime (gate w) = Some endTime ->
  suspendedUntil endTime (loopHead w).
Proof.
  intros Ha He Hnow. rewrite (proj2 (loopHead_setup w)) in Hnow.
  unfold loopHead.
  destruct (requestQueue (gate w)) as [|x l]; [cbn; auto|].
  rewrite Ha, He. cbn.
  destruct (Z.ltb_spec (now w) endTime); [|lia]. cbn.
  repeat split; try done. right. f_equal. lia.
Qed.

Lemma processQueue_suspended endTime w :
  suspendedUntil endTime w -> suspendedUntil endTime (processQueue w).
Proof.
  intros Hs. unfold processQueue. destruct (_ || _); [done|].
  set (w1 := mkWorld _ _ _ _ _ _). intros Hnow.
  pose proof Hnow as Hn. rewrite (proj2 (loopHead_setup w1)) in Hn. cbn in Hn.
  destruct (Hs Hn) as (Ha & He & Hw).
  by apply (loopHead_suspended endTime w1).
Qed.

Lemma step_suspended endTime e w w' :
  step e w = Some w' -> suspendedUntil endTime w -> suspendedUntil endTime w'.
Proof.
  intros Hstep Hs Hnow'.
  assert (Hnow : now w < endTime).
  { destruct (step_config e w w' Hstep) as [_ ?]. lia. }
  destruct (Hs Hnow) as (Ha & He & Hw).
  destruct e as [fn id|ms| | |o|i]; simpl in Hstep.
  - injection Hstep as <-. unfold queueRequest in *.
    apply processQueue_suspended; [|done]. intros _. done.
  - injection Hstep as <-. done.
  - destruct Hw as [Hw|Hw]; rewrite Hw in Hstep; [done|].
    destruct (Z.leb_spec endTime (now w)); [lia|done].
  - destruct Hw as [Hw|Hw]; rewrite Hw in Hstep; done.
  - destruct Hw as [Hw|Hw]; rewrite Hw in Hstep; done.
  - destruct (retryTimers w !! i) as [[dueAt request]|]; [|done].
    destruct (dueAt <=? now w); [|done]. injection Hstep as <-.
    apply processQueue_suspended; [|done]. intros _. done.
Qed.

(** *** The claims about the gate *)

(** C6 (amended): the minimum interval is 1000 ms when the constructor is
    given none and 1500 ms as the brokerage client configures it.  Before
    an execution the worker compares the time since the last executed
    request with the interval and, when it is shorter, sleeps until one
    interval after that request; and in every run of the gate from its
    construction the start times of any two consecutive executions are at
    least the configured interval apart. *)
Theorem gate_spaces_consecutive_executions :
  minRequestInterval (new noOptions) = 1000
  /\ minRequestInterval (new clientOptions) = 1500
  /\ (forall w,
        now w - lastRequestTime (gate w) < minRequestInterval (gate w) ->
        enforceInterval w =
          mkWorld (gate w)
            (SleepingInterval (lastRequestTime (gate w) + minRequestInterval (gate w)))
            (now w) (retryTimers w) (settled w) (executions w))
  /\ (forall options startTime events w,
        run events (boot options startTime) = Some w ->
        spaced (minRequestInterval (new options)) (executions w)).
Proof.
  split; [reflexivity|]. split; [reflexivity|]. split.
  - intros w Hlt. unfold enforceInterval.
    destruct (Z.ltb_spec (now w - lastRequestTime (gate w))
                (minRequestInterval (gate w))); [|lia].
    do 2 f_equal. lia.
  - intros options startTime events w Hrun.
    destruct (run_config _ _ _ Hrun) as (Hmin & _ & _).
    change (gate (boot options startTime)) with (new options) in Hmin.
    rewrite <- Hmin.
    refine (proj1 (proj1 (run_invariant spacingInv step_spacing events _ w Hrun _))).
    by repeat split.
Qed.

Lemma gate_spaces_consecutive_executions_witness :
  exists w,
    run [ QueueRequest 1 (Some "a"); Elapse 200; QueueRequest 2 (Some "b");
          RequestDone (Resolved Sample.plainResponse); Elapse 1300;
          WakeFromInterval ]
        (boot clientOptions 10000) = Some w
    /\ List.map startedAt (executions w) = [11500; 10000]
    /\ spaced 1500 (executions w).
Proof.
  eexists. split; [vm_compute; reflexivity|]. split; [vm_compute; reflexivity|].
  apply (proj2 (proj2 (proj2 gate_spaces_consecutive_executions))
           clientOptions 10000
           [ QueueRequest 1 (Some "a"); Elapse 200; QueueRequest 2 (Some "b");
             RequestDone (Resolved Sample.plainResponse); Elapse 1300;
             WakeFromInterval ]).
  vm_compute. reflexivity.
Defined.

(** C6 (counterexample).  A gate constructed without options spaces its
    requests by 1000 ms, not by 1500 ms. *)
Lemma gate_default_interval_is_one_second :
  minRequestInterval (new noOptions) = 1000
  /\ minRequestInterval (new noOptions) <> 1500.
Proof. split; [reflexivity|discriminate]. Qed.

(** C5: when the response to the request being executed carries the
    CAPTCHA marker, the request is rejected at once with the CAPTCHA error
    and is put neither back into the queue nor on a backoff timer, no other
    request is started, and the penalty window ends exactly 3,600,000 ms
    later; and as long as that time has not come, whatever happens at the
    gate, [isHealthy] answers false. *)
Theorem captcha_suspends_gate_for_one_hour w request startTime d w1 :
  worker w = Executing request startTime ->
  truthy (p_captcha d) = true ->
  step (RequestDone (Resolved (Some {| data := Some d |}))) w = Some w1 ->
  settled w1 = settled w ++ [ (request, Failed captchaError) ]
  /\ requestQueue (gate w1) = requestQueue (gate w)
  /\ retryTimers w1 = retryTimers w
  /\ executions w1 = executions w
  /\ penaltyActive (gate w1) = true
  /\ penaltyEndTime (gate w1) = Some (now w + 3600000)
  /\ (forall events w2,
        run events w1 = Some w2 ->
        now w2 < now w + 3600000 ->
        isHealthy (gate w2) = false).
Proof.
  intros Hw Hcaptcha Hstep. unfold step in Hstep. rewrite Hw in Hstep.
  apply (inj Some) in Hstep. rewrite <- Hstep. clear Hstep w1.
  set (w0 := finishExecution w request startTime _).
  assert (H0 : w0 = mkWorld
            (withPenalty (countPenalty (updateStats (gate w))) true
               (Some (now w + 60 * 60 * 1000)) JNull)
            (worker w) (now w) (retryTimers w)
            (settled w ++ [ (request, Failed captchaError) ]) (executions w)).
  { unfold w0, finishExecution, isPenaltyResponse, handlePenaltyResponse.
    rewrite Hcaptcha, !orb_true_r. done. }
  clearbody w0. subst w0.
  set (w0 := mkWorld _ _ _ _ _ _).
  assert (Hs : suspendedUntil (now w + 3600000) (loopHead w0))
    by (by apply loopHead_suspended).
  assert (Hhead : loopHead w0 = mkWorld (withProcessing (gate w0) false) Idle
                    (now w0) (retryTimers w0) (settled w0) (executions w0)
                  \/ loopHead w0 = mkWorld (gate w0)
                       (SleepingPenalty (now w0 + (now w + 60 * 60 * 1000 - now w0)))
                       (now w0) (retryTimers w0) (settled w0) (executions w0)).
  { unfold loopHead. destruct (requestQueue (gate w0)) as [|x l]; [by left|].
    right. cbn.
    destruct (Z.ltb_spec (now w) (now w + 60 * 60 * 1000)); [done|lia]. }
  assert (Hfields : settled (loopHead w0) = settled w0
            /\ requestQueue (gate (loopHead w0)) = requestQueue (gate w0)
            /\ retryTimers (loopHead w0) = retryTimers w0
            /\ executions (loopHead w0) = executions w0
            /\ penaltyActive (gate (loopHead w0)) = penaltyActive (gate w0)
            /\ penaltyEndTime (gate (loopHead w0)) = penaltyEndTime (gate w0))
    by (by destruct Hhead as [-> | ->]).
  destruct Hfields as (-> & -> & -> & -> & -> & ->).
  repeat split; try done.
  intros events w2 Hrun Hnow.
  destruct (run_invariant (suspendedUntil (now w + 3600000))
              (step_suspended _) events _ w2 Hrun Hs Hnow) as (Ha & _).
  unfold isHealthy. by rewrite Ha.
Qed.

Lemma captcha_suspends_gate_for_one_hour_witness :
  exists w1 w2,
    step (RequestDone (Sample.penalized Sample.captcha)) Sample.gateBusy = Some w1
    /\ List.map snd (settled w1) = [ Failed captchaError ]
    /\ penaltyEndTime (gate w1) = Some (10000 + 3600000)
    /\ run [ Elapse 1000; QueueRequest 2 (Some "b"); Elapse 3598999 ] w1 = Some w2
    /\ now w2 = 10000 + 3599999
    /\ isHealthy (gate w2) = false.
Proof.
  eexists _, _.
  refine (conj _ (conj _ (conj _ (conj _ (conj _ _))))).
  1: vm_compute; reflexivity.
  3: vm_compute; reflexivity.
  1, 2, 3: try (vm_compute; reflexivity).
  lazymatch goal with
  | |- isHealthy (gate ?w2) = false =>
      refine (proj2 (proj2 (proj2 (proj2 (proj2 (proj2
                (captcha_suspends_gate_for_one_hour Sample.gateBusy
                   {| requestFn := 1%nat; requestId := "get-positions-7";
                      attempts := 0; createdAt := 10000 |}
                   10000 Sample.captcha _ eq_refl eq_refl eq_refl))))))
                [ Elapse 1000; QueueRequest 2 (Some "b"); Elapse 3598999 ]
                w2 _ _)
  end.
  - vm_compute. reflexivity.
  - vm_compute. reflexivity.
Defined.

(** C2: a response with a timed penalty (ticket and wait seconds, no
    CAPTCHA marker) opens a penalty window of that many seconds and, with
    the attempt counter incremented, puts the same request back at the
    front of the queue as long as the counter stays below
    [maxRetryAttempts], and rejects it with the 'Max retry attempts reached'
    error otherwise.  A failure with status 429 increments the counter
    too and sets a timeout of [defaultRetryDelay * 2^(attempts - 1)] whose
    firing puts the request at the front of the queue, again as long as the
    counter stays below the cap, and rejects it with the error otherwise.
    The cap is 3 by default and as the client configures it, and in every
    run of a gate from its construction each execution is an attempt
    numbered between 1 and the cap: no request is executed a further
    time. *)
Theorem penalized_requests_are_retried_up_to_the_cap :
  (forall now g d request,
      truthy (p_captcha d) = false ->
      truthy (p_ticket d) = true ->
      truthy (p_time d) = true ->
      let result := handlePenaltyResponse now g d request in
      penaltyActive (fst result) = true
      /\ penaltyEndTime (fst result) = (fun s => now + s * 1000) <$> parseInt (p_time d)
      /\ (attempts request + 1 < maxRetryAttempts g ->
            requestQueue (fst result) = bump request :: requestQueue g
            /\ snd result = None)
      /\ (maxRetryAttempts g <= attempts request + 1 ->
            requestQueue (fst result) = requestQueue g
            /\ snd result = Some (Failed (maxRetryError (bump request)))))
  /\ (forall now g error request,
        responseStatus error = Some (JNum 429) ->
        let result := handleRequestError now g error request in
        requestQueue (fst (fst result)) = requestQueue g
        /\ (attempts request + 1 < maxRetryAttempts g ->
              snd (fst result)
                = Some (now + defaultRetryDelay g * 2 ^ (attempts request + 1 - 1),
                        bump request)
              /\ snd result = None)
        /\ (maxRetryAttempts g <= attempts request + 1 ->
              snd (fst result) = None /\ snd result = Some (Failed error)))
  /\ (forall w i dueAt request w',
        retryTimers w !! i = Some (dueAt, request) ->
        step (RetryTimerFires i) w = Some w' ->
        dueAt <= now w
        /\ exists w0,
             requestQueue (gate w0) = request :: requestQueue (gate w)
             /\ w' = processQueue w0)
  /\ maxRetryAttempts (new noOptions) = 3
  /\ maxRetryAttempts (new clientOptions) = 3
  /\ (forall options startTime events w,
        1 <= maxRetryAttempts (new options) ->
        run events (boot options startTime) = Some w ->
        forall x, In x (executions w) ->
          attempt x = attempts (executed x) + 1
          /\ 1 <= attempt x <= maxRetryAttempts (new options)).
Proof.
  split; [|split; [|split; [|split; [reflexivity|split; [reflexivity|]]]]].
  - intros now g d request Hc Ht Hs. cbv zeta. unfold handlePenaltyResponse.
    rewrite Hc, Ht, Hs. cbn [andb].
    destruct (Z.ltb_spec (attempts (bump request))
                (maxRetryAttempts
                   (withPenalty (countPenalty g) true
                      ((fun s => now + s * 1000) <$> parseInt (p_time d))
                      (p_ticket d)))) as [Hlt|Hge]; cbn in *.
    + repeat split; try done; exfalso; lia.
    + repeat split; try done; exfalso; lia.
  - intros now g error request H429. cbv zeta. unfold handleRequestError.
    rewrite bool_decide_eq_true_2 by done.
    destruct (Z.ltb_spec (attempts (bump request))
                (maxRetryAttempts (countFailure g))) as [Hlt|Hge]; cbn in *.
    + repeat split; try done; exfalso; lia.
    + repeat split; try done; exfalso; lia.
  - intros w i dueAt request w' Hi Hstep. unfold step in Hstep.
    rewrite Hi in Hstep.
    destruct (Z.leb_spec dueAt (now w)); [|done]. apply (inj Some) in Hstep.
    split; [done|].
    exists (mkWorld (withQueue (gate w) (request :: requestQueue (gate w)))
                    (worker w) (now w) (delete i (retryTimers w)) (settled w)
                    (executions w)).
    by split.
  - intros options startTime events w Hcap Hrun x Hx.
    assert (Hinv : maxRetryAttempts (gate w) = maxRetryAttempts (new options)
                   /\ attemptsInv w).
    { refine (run_invariant
                (fun w => maxRetryAttempts (gate w) = maxRetryAttempts (new options)
                          /\ attemptsInv w)
                _ events _ w Hrun _).
      - intros e w1 w2 Hstep (Hm & Hi).
        destruct (step_config e w1 w2 Hstep) as [(_ & _ & Hm2) _].
        split; [congruence|].
        apply (step_attempts e w1 w2); [lia|done|done].
      - by repeat split. }
    destruct Hinv as (Hmax & (_ & _ & He) & _). rewrite <- Hmax. by apply He.
Qed.

Lemma penalized_requests_are_retried_up_to_the_cap_witness :
  exists w,
    run [ QueueRequest 1 (Some "get-positions-7");
          RequestDone (Sample.penalized Sample.timedPenalty);
          Elapse 5000; WakeFromPenalty;
          RequestDone (Sample.penalized Sample.timedPenalty);
          Elapse 5000; WakeFromPenalty;
          RequestDone (Sample.penalized Sample.timedPenalty) ]
        (boot clientOptions 10000) = Some w
    /\ List.map attempt (executions w) = [3; 2; 1]
    /\ List.map startedAt (executions w) = [20000; 15000; 10000]
    /\ List.map snd (settled w)
       = [ Failed (maxRetryError
                     {| requestFn := 1%nat; requestId := "get-positions-7";
                        attempts := 3; createdAt := 10000 |}) ]
    /\ requestQueue (gate w) = []
    /\ (forall x, In x (executions w) ->
          attempt x = attempts (executed x) + 1 /\ 1 <= attempt x <= 3).
Proof.
  eexists. split; [vm_compute; reflexivity|].
  split; [vm_compute; reflexivity|]. split; [vm_compute; reflexivity|].
  split; [vm_compute; reflexivity|]. split; [vm_compute; reflexivity|].
  apply (proj2 (proj2 (proj2 (proj2 (proj2
           penalized_requests_are_retried_up_to_the_cap))))
           clientOptions 10000
           [ QueueRequest 1 (Some "get-positions-7");
             RequestDone (Sample.penalized Sample.timedPenalty);
             Elapse 5000; WakeFromPenalty;
             RequestDone (Sample.penalized Sample.timedPenalty);
             Elapse 5000; WakeFromPenalty;
             RequestDone (Sample.penalized Sample.timedPenalty) ]).
  - vm_compute. discriminate.
  - vm_compute. reflexivity.
Defined.

End GateFacts.

(** ** Bracket reconciler: the sort, the groups and their members *)

Section BracketStructure.

Implicit Types (o m x : Order.t) (l orders members rest : list Order.t) (r : Role).

Lemma roleRank_cases r :
  (r = stop /\ roleRank r = 1) \/ (r = target /\ roleRank r = 2)
  \/ ((r = entry \/ r = other) /\ roleRank r = 3).
Proof. destruct r; cbn; auto. Qed.

(** An order goes past the orders that rank below it... *)
Lemma sortInsert_pass o l rest :
  (forall x, In x l -> roleRank (getOrderRole x) < roleRank (getOrderRole o)) ->
  sortInsert o (l ++ rest) = l ++ sortInsert o rest.
Proof.
  induction l as [|x l IH]; intros H; simpl; [done|].
  pose proof (H x (or_introl eq_refl)) as Hx.
  unfold compareRoles. destruct (Z.leb_spec (roleRank (getOrderRole o)
                                   - roleRank (getOrderRole x)) 0); [lia|].
  f_equal. apply IH. intros y Hy. apply H. by right.
Qed.

(** ... and stops in front of the first one that does not. *)
Lemma sortInsert_stop o l :
  (forall x, List.head l = Some x ->
             roleRank (getOrderRole o) <= roleRank (getOrderRole x)) ->
  sortInsert o l = o :: l.
Proof.
  destruct l as [|x l]; intros H; simpl; [done|].
  specialize (H x eq_refl). unfold compareRoles.
  destruct (Z.leb_spec (roleRank (getOrderRole o)
              - roleRank (getOrderRole x)) 0); [done|lia].
Qed.

Lemma filter_rank r l x :
  In x (List.filter (hasRole r) l) -> getOrderRole x = r.
Proof. intros H. apply List.filter_In in H as [_ H]. by apply hasRole_true. Qed.

Lemma rankedLast_rank x : rankedLast x = true -> roleRank (getOrderRole x) = 3.
Proof.
  unfold rankedLast. rewrite orb_true_iff, !hasRole_true. by intros [-> | ->].
Qed.

Lemma head_In {A} (xs : list A) (a : A) : List.head xs = Some a -> In a xs.
Proof. destruct xs; [done|]. intros [= <-]. by left. Qed.

Lemma sortByRole_layout l :
  sortByRole l =
  List.filter (hasRole stop) l ++ List.filter (hasRole target) l
  ++ List.filter rankedLast l.
Proof.
  induction l as [|o l IH]; [done|]. cbn [sortByRole List.fold_right].
  fold (sortByRole l). rewrite IH. clear IH.
  set (A := List.filter (hasRole stop) l).
  set (B := List.filter (hasRole target) l).
  set (C := List.filter rankedLast l).
  assert (HA : forall x, In x A -> roleRank (getOrderRole x) = 1)
    by (intros x Hx; by rewrite (filter_rank stop l x Hx)).
  assert (HB : forall x, In x B -> roleRank (getOrderRole x) = 2)
    by (intros x Hx; by rewrite (filter_rank target l x Hx)).
  assert (HC : forall x, In x C -> roleRank (getOrderRole x) = 3).
  { intros x Hx. apply List.filter_In in Hx as [_ Hx]. by apply rankedLast_rank. }
  assert (Hflags : forall r0, getOrderRole o = r0 ->
            hasRole stop o = bool_decide (r0 = stop)
            /\ hasRole target o = bool_decide (r0 = target)
            /\ rankedLast o = bool_decide (r0 = entry) || bool_decide (r0 = other)).
  { intros r0 <-. done. }
  cbn [List.filter]. fold A B C.
  destruct (getOrderRole o) eqn:Ho;
    destruct (Hflags _ eq_refl) as (-> & -> & ->); cbn [orb];
    rewrite ?bool_decide_eq_true_2 by done;
    rewrite ?bool_decide_eq_false_2 by done; cbn [orb].
  - (* entry: ranked 3 *)
    rewrite sortInsert_pass by (intros x Hx; rewrite Ho, (HA x Hx); cbn; lia).
    rewrite sortInsert_pass by (intros x Hx; rewrite Ho, (HB x Hx); cbn; lia).
    rewrite sortInsert_stop; [done|].
    intros x Hx. destruct C as [|y C']; [done|]. injection Hx as <-.
    rewrite Ho, (HC y (or_introl eq_refl)). cbn. lia.
  - (* stop: ranked 1 *)
    rewrite sortInsert_stop; [done|].
    intros x Hx. apply head_In in Hx. rewrite Ho. cbn.
    rewrite !List.in_app_iff in Hx. destruct Hx as [Hx|[Hx|Hx]];
      [rewrite (HA x Hx)|rewrite (HB x Hx)|rewrite (HC x Hx)]; lia.
  - (* target: ranked 2 *)
    rewrite sortInsert_pass by (intros x Hx; rewrite Ho, (HA x Hx); cbn; lia).
    rewrite sortInsert_stop; [done|].
    intros x Hx. apply head_In in Hx. rewrite Ho. cbn.
    rewrite !List.in_app_iff in Hx. destruct Hx as [Hx|Hx];
      [rewrite (HB x Hx)|rewrite (HC x Hx)]; lia.
  - (* other: ranked 3 *)
    rewrite sortInsert_pass by (intros x Hx; rewrite Ho, (HA x Hx); cbn; lia).
    rewrite sortInsert_pass by (intros x Hx; rewrite Ho, (HB x Hx); cbn; lia).
    rewrite sortInsert_stop; [done|].
    intros x Hx. destruct C as [|y C']; [done|]. injection Hx as <-.
    rewrite Ho, (HC y (or_introl eq_refl)). cbn. lia.
Qed.

Lemma filter_all {A} (f : A -> bool) (xs : list A) :
  (forall a, In a xs -> f a = true) -> List.filter f xs = xs.
Proof.
  induction xs as [|a xs IH]; intros H; simpl; [done|].
  rewrite (H a (or_introl eq_refl)). f_equal. apply IH. intros y Hy. apply H. by right.
Qed.

(** X1.  The comparator ranks a role by [roleOrder[role] || 3], and the
    rank 0 of 'entry' is falsy: the sort of [createBracketOrderGroup] puts
    the stops first, then the targets, then the entries together with the
    others, each kind in the order it had.  So the primary record of a
    bracket is its first entry-role member, and when it has none its first
    stop, else its first target, else its first member. *)
Theorem role_sort_ranks_entries_last :
  (forall members,
     sortByRole members =
     List.filter (hasRole stop) members ++ List.filter (hasRole target) members
     ++ List.filter rankedLast members)
  /\ (forall members,
        Group.base (createBracketOrderGroup members) =
        match List.find (hasRole entry) members with
        | Some e => Some e
        | None =>
            match List.find (hasRole stop) members with
            | Some s => Some s
            | None =>
                match List.find (hasRole target) members with
                | Some t => Some t
                | None => List.head members
                end
            end
        end).
Proof.
  split; [exact sortByRole_layout|].
  intros members. rewrite createBracketOrderGroup_eq. cbn [Group.base].
  unfold primaryOrder.
  destruct (List.find (hasRole entry) members) as [e|] eqn:He; [done|].
  rewrite sortByRole_layout, !(find_head_filter (hasRole _)).
  destruct (List.filter (hasRole stop) members) as [|s A] eqn:HA; [|done].
  destruct (List.filter (hasRole target) members) as [|t B] eqn:HB; [|done].
  cbn [app List.head]. f_equal. apply filter_all. intros x Hx.
  unfold rankedLast.
  pose proof (proj1 (find_none_iff _ _) He x Hx) as Hne.
  assert (Hns : hasRole stop x = false).
  { destruct (hasRole stop x) eqn:E; [|done].
    assert (In x (List.filter (hasRole stop) members))
      by (apply List.filter_In; done).
    rewrite HA in *. done. }
  assert (Hnt : hasRole target x = false).
  { destruct (hasRole target x) eqn:E; [|done].
    assert (In x (List.filter (hasRole target) members))
      by (apply List.filter_In; done).
    rewrite HB in *. done. }
  unfold hasRole in *. destruct (getOrderRole x); done.
Qed.

End BracketStructure.

Section BracketGroups.

Implicit Types (o m x y : Order.t) (orders members rest : list Order.t)
  (processed : gset jsval).

Lemma In_sortInsert o m sorted : In m (sortInsert o sorted) <-> m = o \/ In m sorted.
Proof.
  induction sorted as [|x sorted IH]; simpl; [intuition congruence|].
  destruct (compareRoles o x <=? 0); simpl; rewrite ?IH; intuition congruence.
Qed.

Lemma In_sortByRole m members : In m (sortByRole members) <-> In m members.
Proof.
  induction members as [|x members IH]; simpl; [done|].
  rewrite In_sortInsert, IH. intuition congruence.
Qed.

Lemma primaryOrder_In members p : primaryOrder members = Some p -> In p members.
Proof.
  unfold primaryOrder. destruct (List.find _ members) as [e|] eqn:He.
  - intros [= <-]. by apply List.find_some in He as [? _].
  - intros H. apply head_In in H. by apply In_sortByRole.
Qed.

Lemma findRelatedOrders_In o orders m :
  In m (findRelatedOrders o orders) <->
  m = o \/ (In m orders /\ orderIdOf m <> orderIdOf o /\ isRelated o m = true).
Proof.
  unfold findRelatedOrders. simpl. rewrite List.filter_In, andb_true_iff,
    negb_true_iff, strict_eq_false. intuition congruence.
Qed.

Lemma groupLoop_length orders processed rest :
  (length (groupLoop orders processed rest) <= length rest)%nat.
Proof.
  revert processed. induction rest as [|x rest IH]; intros processed;
    cbn [groupLoop length]; [done|].
  destruct (decide _); [specialize (IH processed); lia|].
  destruct (_ <? _)%nat; cbn [length];
    match goal with |- context [groupLoop orders ?p rest] => specialize (IH p) end;
    lia.
Qed.

(** An order of the rest that is not yet marked as processed gets into a
    group, itself or by its id. *)
Lemma groupLoop_covers orders rest :
  forall processed o,
  In o rest -> orderIdOf o ∉ processed ->
  exists members g m,
    In (members, g) (groupLoop orders processed rest)
    /\ In m members /\ orderIdOf m = orderIdOf o.
Proof.
  induction rest as [|x rest IH]; intros processed o Ho Hfresh; [done|].
  cbn [groupLoop]. destruct (decide (orderIdOf x ∈ processed)) as [Hin|Hnin].
  - destruct Ho as [->|Ho]; [done|]. by apply IH.
  - set (members := findRelatedOrders x orders).
    assert (Hhere : forall mem (g0 : Group.t) tl,
              (exists m, In m mem /\ orderIdOf m = orderIdOf o) ->
              exists members g m, In (members, g) ((mem, g0) :: tl)
                /\ In m members /\ orderIdOf m = orderIdOf o).
    { intros mem g0 tl (m & Hm & Hid). exists mem, g0, m. split; [by left|done]. }
    assert (Hlater : forall p0 (hd : list Order.t * Group.t),
              orderIdOf o ∉ p0 -> In o rest ->
              exists members g m, In (members, g) (hd :: groupLoop orders p0 rest)
                /\ In m members /\ orderIdOf m = orderIdOf o).
    { intros p0 hd Hp Hr. destruct (IH p0 o Hr Hp) as (mem & g & m & H1 & H2).
      exists mem, g, m. split; [by right|done]. }
    destruct (1 <? length members)%nat.
    + destruct Ho as [->|Ho].
      { apply Hhere. exists o. split; [by left|done]. }
      destruct (decide (orderIdOf o ∈
                  (list_to_set (List.map orderIdOf members) : gset jsval))) as [Hm|Hm].
      * apply Hhere. apply elem_of_list_to_set, list_elem_of_In, List.in_map_iff in Hm
          as (m & Hid & Hm). by exists m.
      * apply Hlater; [|done]. by intros [?|?]%elem_of_union.
    + destruct Ho as [->|Ho].
      { apply Hhere. exists o. split; [by left|done]. }
      destruct (decide (orderIdOf o = orderIdOf x)) as [He|Hne].
      * apply Hhere. exists x. split; [by left|done].
      * apply Hlater; [|done]. by intros [?|?%elem_of_singleton]%elem_of_union.
Qed.

Lemma same_id_same_order orders o m :
  List.NoDup (List.map orderIdOf orders) ->
  In o orders -> In m orders -> orderIdOf m = orderIdOf o -> m = o.
Proof.
  induction orders as [|x orders IH]; [done|]. simpl.
  rewrite List.NoDup_cons_iff. intros [Hx Hnd] [->|Ho] [->|Hm] Hid; try done.
  - exfalso. apply Hx. rewrite <- Hid. by apply List.in_map.
  - exfalso. apply Hx. rewrite Hid. by apply List.in_map.
  - by apply IH.
Qed.

Lemma groupLoop_members orders processed rest members g :
  (forall o, In o rest -> In o orders) ->
  In (members, g) (groupLoop orders processed rest) ->
  forall m, In m members -> In m orders.
Proof.
  intros Hsub Hin m Hm.
  apply groupLoop_emits in Hin as (o & Ho & [(-> & _)|(-> & _)]).
  - apply findRelatedOrders_In in Hm as [->|(? & _)]; [by apply Hsub|done].
  - destruct Hm as [<-|[]]. by apply Hsub.
Qed.

(** X2.  Grouping loses no order and invents none: there are never more
    groups than orders, every member of a group is an order of the list,
    and when the ids in the list are pairwise different every order of the
    list is a member of some group. *)
Theorem grouping_keeps_every_order orders :
  (length (groupRelatedOrders orders) <= length orders)%nat
  /\ (forall members g m,
        In (members, g) (groupedWithMembers orders) -> In m members -> In m orders)
  /\ (List.NoDup (List.map orderIdOf orders) ->
      forall o, In o orders ->
        exists members g, In (members, g) (groupedWithMembers orders) /\ In o members).
Proof.
  split; [|split].
  - unfold groupRelatedOrders, groupedWithMembers. rewrite List.length_map.
    apply groupLoop_length.
  - intros members g m Hin Hm. by apply (groupLoop_members orders ∅ orders members g).
  - intros Hnd o Ho.
    destruct (groupLoop_covers orders orders ∅ o Ho) as (members & g & m & Hin & Hm & Hid);
      [set_solver|].
    exists members, g. split; [done|].
    assert (m = o) as <-; [|done].
    apply (same_id_same_order orders); try done.
    by apply (groupLoop_members orders ∅ orders members g).
Qed.

End BracketGroups.

(** *** When the related sets are classes *)

Section BracketPartition.

Variable orders : list Order.t.
Hypothesis ids_differ : List.NoDup (List.map orderIdOf orders).
Hypothesis symmetric : forall o x,
  In o orders -> In x orders -> sameOrRelated o x = true -> sameOrRelated x o = true.
Hypothesis transitive : forall o x y,
  In o orders -> In x orders -> In y orders ->
  sameOrRelated o x = true -> sameOrRelated x y = true -> sameOrRelated o y = true.

Implicit Types (o m x y : Order.t) (rest : list Order.t) (processed : gset jsval).

Lemma sameOrRelated_In o x :
  In o orders -> In x orders ->
  (In x (findRelatedOrders o orders) <-> sameOrRelated o x = true).
Proof.
  intros Ho Hx. rewrite findRelatedOrders_In. unfold sameOrRelated.
  rewrite orb_true_iff, strict_eq_true. split.
  - intros [->|(_ & _ & ?)]; auto.
  - intros [Hid|Hr].
    + left. by apply (same_id_same_order orders).
    + destruct (decide (orderIdOf x = orderIdOf o)) as [Hid|Hne]; [|by right].
      left. by apply (same_id_same_order orders).
Qed.

Lemma filter_nil {A} (f : A -> bool) (xs : list A) :
  (forall a, In a xs -> f a = false) -> List.filter f xs = [].
Proof.
  induction xs as [|a xs IH]; intros H; simpl; [done|].
  rewrite (H a (or_introl eq_refl)). apply IH. intros b Hb. apply H. by right.
Qed.

Lemma filter_split {A} (f g : A -> bool) (xs : list A) :
  List.filter f xs ≡ₚ
  List.filter (fun a => f a && g a) xs ++ List.filter (fun a => f a && negb (g a)) xs.
Proof.
  induction xs as [|a xs IH]; simpl; [done|].
  destruct (f a), (g a); simpl; rewrite ?IH; try done.
  by apply Permutation_middle.
Qed.

(** The related set of an order of the list is, up to the place of the
    order itself, the orders of the list that are the same or related. *)
Lemma findRelatedOrders_class o :
  In o orders ->
  findRelatedOrders o orders ≡ₚ List.filter (sameOrRelated o) orders.
Proof.
  intros Ho. unfold findRelatedOrders.
  set (g := fun order => negb (strict_eq (orderIdOf order) (orderIdOf o))
                         && isRelated o order).
  assert (Hgen : forall l,
            List.NoDup (List.map orderIdOf l) ->
            (In o l -> o :: List.filter g l ≡ₚ List.filter (sameOrRelated o) l)
            /\ ((forall x, In x l -> orderIdOf x <> orderIdOf o) ->
                List.filter g l = List.filter (sameOrRelated o) l)).
  { induction l as [|x l IH]; intros Hnd; [done|].
    simpl in Hnd. apply List.NoDup_cons_iff in Hnd as [Hx Hnd].
    destruct (IH Hnd) as [IH1 IH2]. split.
    - intros [->|Hin].
      + simpl. unfold g at 1, sameOrRelated at 1. rewrite strict_eq_refl. simpl.
        rewrite IH2; [done|]. intros y Hy Hid. apply Hx. rewrite <- Hid.
        by apply List.in_map.
      + assert (Hne : orderIdOf x <> orderIdOf o).
        { intros Hid. apply Hx. rewrite Hid. by apply List.in_map. }
        simpl. unfold g at 1, sameOrRelated at 1.
        rewrite (proj2 (strict_eq_false _ _) Hne). simpl.
        destruct (isRelated o x); rewrite <- (IH1 Hin); [apply perm_swap|done].
    - intros Hall. simpl. unfold g at 1, sameOrRelated at 1.
      rewrite (proj2 (strict_eq_false _ _) (Hall x (or_introl eq_refl))). simpl.
      rewrite IH2; [done|]. intros y Hy. apply Hall. by right. }
  by apply (proj1 (Hgen orders ids_differ)).
Qed.

Lemma groupLoop_partition rest :
  forall processed,
  (forall o, In o rest -> In o orders) ->
  (forall x, In x orders -> orderIdOf x ∉ processed -> In x rest) ->
  (forall x y, In x orders -> In y orders -> orderIdOf x ∈ processed ->
               sameOrRelated x y = true -> orderIdOf y ∈ processed) ->
  List.concat (List.map fst (groupLoop orders processed rest))
  ≡ₚ List.filter (unprocessed processed) orders.
Proof.
  induction rest as [|o rest IH]; intros processed Hsub Hahead Hclosed.
  { simpl. rewrite filter_nil; [done|]. intros x Hx. unfold unprocessed.
    apply bool_decide_eq_false. intros Hn. by apply (Hahead x Hx Hn). }
  assert (Ho : In o orders) by (apply Hsub; by left).
  assert (Hsub' : forall x, In x rest -> In x orders)
    by (intros x Hx; apply Hsub; by right).
  cbn [groupLoop]. destruct (decide (orderIdOf o ∈ processed)) as [Hin|Hnin].
  { apply IH; try done. intros x Hx Hn.
    destruct (Hahead x Hx Hn) as [->|?]; done. }
  set (members := findRelatedOrders o orders).
  set (processed' := processed ∪ list_to_set (List.map orderIdOf members)).
  assert (Hids : forall x, In x orders ->
            (orderIdOf x ∈ (list_to_set (List.map orderIdOf members) : gset jsval)
             <-> sameOrRelated o x = true)).
  { intros x Hx. rewrite elem_of_list_to_set, list_elem_of_In, List.in_map_iff.
    rewrite <- (sameOrRelated_In o x Ho Hx). split; [|by exists x].
    intros (m & Hid & Hm). assert (m = x) as <-; [|done].
    apply (same_id_same_order orders); try done.
    apply findRelatedOrders_In in Hm as [->|(? & _)]; done. }
  assert (Hfresh : forall x, In x orders -> sameOrRelated o x = true ->
                             orderIdOf x ∉ processed).
  { intros x Hx Hr Hp. apply Hnin.
    apply (Hclosed x o Hx Ho Hp). by apply symmetric. }
  assert (Hgoal : members ++ List.concat (List.map fst
                              (groupLoop orders processed' rest))
                  ≡ₚ List.filter (unprocessed processed) orders).
  { rewrite IH; try done.
    - rewrite (filter_split (unprocessed processed) (sameOrRelated o)).
      apply Permutation_app.
      + unfold members. rewrite (findRelatedOrders_class o Ho).
        erewrite List.filter_ext_in; [done|]. intros x Hx. cbn.
        destruct (sameOrRelated o x) eqn:Hr; [|by rewrite andb_false_r].
        rewrite andb_true_r. symmetry. apply bool_decide_eq_true.
        by apply Hfresh.
      + erewrite List.filter_ext_in; [done|]. intros x Hx. cbn.
        unfold unprocessed, processed'.
        destruct (sameOrRelated o x) eqn:Hr.
        * rewrite andb_false_r. apply bool_decide_eq_false. intros Hn. apply Hn.
          apply elem_of_union_r. by apply Hids.
        * rewrite andb_true_r. apply bool_decide_ext.
          rewrite elem_of_union, (Hids x Hx), Hr. intuition congruence.
    - intros x Hx Hn. unfold processed' in Hn.
      assert (Hn1 : orderIdOf x ∉ processed)
        by (intros ?; apply Hn; by apply elem_of_union_l).
      destruct (Hahead x Hx Hn1) as [->|?]; [|done].
      exfalso. apply Hn, elem_of_union_r, (Hids x Hx).
      unfold sameOrRelated. by rewrite strict_eq_refl.
    - intros x y Hx Hy Hp Hr. unfold processed' in *.
      apply elem_of_union in Hp as [Hp|Hp].
      + apply elem_of_union_l. by apply (Hclosed x y).
      + apply elem_of_union_r, (Hids y Hy).
        apply (transitive o x y); try done. by apply Hids. }
  destruct (1 <? length members)%nat eqn:Hlen; cbn [List.map fst List.concat].
  - exact Hgoal.
  - assert (Hone : members = [o]).
    { unfold members, findRelatedOrders in *. simpl in Hlen.
      destruct (List.filter _ orders); [done|]. simpl in Hlen. done. }
    assert (Hsame : processed ∪ {[orderIdOf o]} = processed').
    { unfold processed'. rewrite Hone. cbn. by rewrite (right_id_L ∅ (∪)). }
    rewrite Hsame, <- Hone. exact Hgoal.
Qed.

Lemma groupedMembers_partition : groupedMembers orders ≡ₚ orders.
Proof.
  unfold groupedMembers, groupedWithMembers.
  rewrite (groupLoop_partition orders ∅); try done.
  rewrite filter_all; [done|]. intros x _. by apply bool_decide_eq_true.
Qed.

End BracketPartition.

Section BracketExtras.

(** X3.  When the ids in the list are pairwise different and being the
    same or related is symmetric and transitive among the orders of the
    list, the groups partition the list: the members of all the groups,
    taken together, are the orders of the list, each exactly once. *)
Theorem groups_partition_when_related_sets_are_classes orders :
  List.NoDup (List.map orderIdOf orders) ->
  (forall o x, In o orders -> In x orders ->
               sameOrRelated o x = true -> sameOrRelated x o = true) ->
  (forall o x y, In o orders -> In x orders -> In y orders ->
                 sameOrRelated o x = true -> sameOrRelated x y = true ->
                 sameOrRelated o y = true) ->
  groupedMembers orders ≡ₚ orders
  /\ List.NoDup (List.map orderIdOf (groupedMembers orders)).
Proof.
  intros Hnd Hsym Htrans.
  pose proof (groupedMembers_partition orders Hnd Hsym Htrans) as Hp.
  split; [done|].
  apply (Permutation_NoDup (l := List.map orderIdOf orders)); [|done].
  apply Permutation_map. by symmetry.
Qed.

Lemma groups_partition_when_related_sets_are_classes_witness :
  List.map (fun p => List.map orderIdOf (fst p))
    (groupedWithMembers Sample.bracketAndSingle)
    = [ [JNum 2; JNum 1; JNum 3]; [JNum 5] ]
  /\ groupedMembers Sample.bracketAndSingle ≡ₚ Sample.bracketAndSingle
  /\ List.NoDup (List.map orderIdOf (groupedMembers Sample.bracketAndSingle)).
Proof.
  split; [by vm_compute|].
  apply (groups_partition_when_related_sets_are_classes Sample.bracketAndSingle).
  - repeat (apply List.NoDup_cons;
            [simpl; intros H; repeat (destruct H as [H|H]; [discriminate H|]); exact H|]).
    apply List.NoDup_nil.
  - intros o x Ho Hx. unfold Sample.bracketAndSingle in Ho, Hx. simpl in Ho, Hx.
    repeat (destruct Ho as [<-|Ho]); try (destruct Ho);
      repeat (destruct Hx as [<-|Hx]); try (destruct Hx);
      vm_compute; intros H; first [reflexivity | discriminate H].
  - intros o x y Ho Hx Hy. unfold Sample.bracketAndSingle in Ho, Hx, Hy.
    simpl in Ho, Hx, Hy.
    repeat (destruct Ho as [<-|Ho]); try (destruct Ho);
      repeat (destruct Hx as [<-|Hx]); try (destruct Hx);
      repeat (destruct Hy as [<-|Hy]); try (destruct Hy);
      vm_compute; intros H1 H2;
      first [reflexivity | discriminate H1 | discriminate H2].
Defined.

Lemma grouping_keeps_every_order_witness :
  exists members g,
    In (members, g)
       (groupedWithMembers [Sample.stopOrder; Sample.entryOrder; Sample.targetOrder])
    /\ In Sample.targetOrder members.
Proof.
  apply (proj2 (proj2 (grouping_keeps_every_order
                         [Sample.stopOrder; Sample.entryOrder; Sample.targetOrder]))).
  - repeat (apply List.NoDup_cons;
            [simpl; intros H; repeat (destruct H as [H|H]; [discriminate H|]); exact H|]).
    apply List.NoDup_nil.
  - simpl. auto.
Defined.

End BracketExtras.

(** ** Freshness cache: reads after writes, the log and the closed cache *)

Section CacheExtras.

Import DataCache.

Implicit Types (c : DataCache.t) (a accountId : Z).



(** What a write for the account [a] does not change: the snapshot of
    every other account. *)
Local Abbreviation elsewhere a c c' :=
  (forall a' readTime, a' <> a ->
     getAccountSnapshot readTime c' a' = getAccountSnapshot readTime c a').

Ltac unfold_reads :=
  unfold getAccountSnapshot, getCachedAccountData, getCachedAccountBalance,
    getCachedPositions, getCachedOrders, getPollingState.



Lemma filter_length_0 {A} (f : A -> bool) (l : list A) :
  Z.of_nat (length (List.filter f l)) = 0 <-> forall x, In x l -> f x = false.
Proof.
  induction l as [|x l IH]; simpl; [done|].
  destruct (f x) eqn:E; simpl.
  - split; [lia|]. intros H. specialize (H x (or_introl eq_refl)). congruence.
  - rewrite IH. split; [intros H y [<-|Hy]; auto|intros H y Hy; apply H; auto].
Qed.

(** X13.  Before [initialize] and after [close] the cache takes no write
    and answers every read with nothing: each write leaves it as it is,
    the snapshot of every account is empty and the polling mode computed
    from it is IDLE with both counts 0, whatever the tables held when the
    cache was closed. *)
Theorem closed_cache_takes_no_write_and_reads_nothing c :
  isInitialized c = false ->
  (forall now a accountData, cacheAccountData now c a accountData = c)
  /\ (forall now a balanceData, cacheAccountBalance now c a balanceData = c)
  /\ (forall now a positionsData, cachePositions now c a positionsData = c)
  /\ (forall now a ordersData, cacheOrders now c a ordersData = c)
  /\ (forall now a mode reason, updatePollingState now c a mode reason = c)
  /\ (forall now a dataType ok errorMessage responseTime,
        logUpdate now c a dataType ok errorMessage responseTime = c)
  /\ (forall now maxAgeMs, cleanup now c maxAgeMs = c)
  /\ (forall now a,
        getAccountSnapshot now c a
        = {| snap_account := None; snap_balance := None; snap_positions := None;
             snap_orders := None; snap_pollingState := None;
             snap_lastUpdated := {| of_account := None; of_balance := None;
                                    of_positions := None; of_orders := None |};
             snap_dataAge := {| of_account := None; of_balance := None;
                                of_positions := None; of_orders := None |} |})
  /\ (forall now a,
        determinePollingMode now c a
        = {| mode := IDLE; reason := NoTradingActivity;
             openPositions := 0; workingOrders := 0 |}).
Proof.
  intros Hi. repeat split; intros.
  - unfold cacheAccountData. by rewrite Hi.
  - unfold cacheAccountBalance. by rewrite Hi.
  - unfold cachePositions. by rewrite Hi.
  - unfold cacheOrders. by rewrite Hi.
  - unfold updatePollingState. by rewrite Hi.
  - unfold logUpdate. by rewrite Hi.
  - unfold cleanup. by rewrite Hi.
  - unfold_reads. by rewrite Hi.
  - unfold determinePollingMode, getCachedPositions, getCachedOrders. by rewrite Hi.
Qed.

Lemma closed_cache_takes_no_write_and_reads_nothing_witness :
  mode (determinePollingMode 1000 Sample.tradingCache 7) = ACTIVE
  /\ determinePollingMode 1000 (close Sample.tradingCache) 7
     = {| mode := IDLE; reason := NoTradingActivity;
          openPositions := 0; workingOrders := 0 |}
  /\ cachePositions 2000 (close Sample.tradingCache) 7 [] = close Sample.tradingCache.
Proof.
  split; [by vm_compute|].
  pose proof (closed_cache_takes_no_write_and_reads_nothing
                (close Sample.tradingCache) eq_refl)
    as (_ & _ & Hp & _ & _ & _ & _ & _ & Hm).
  split; [apply Hm|apply Hp].
Defined.

(** X14.  [cleanup] removes the rows of the update log that are older than
    the cutoff (24 hours before now unless another age is given), keeps
    the others in their order, and touches nothing else: the cached data
    of an account is never expired by it, however old. *)
Theorem cleanup_removes_only_old_log_rows c now maxAgeMs :
  isInitialized c = true ->
  let c' := cleanup now c maxAgeMs in
  let cutoff := now - default (24 * 60 * 60 * 1000) maxAgeMs in
  (forall row, In row (update_log c') <->
               In row (update_log c) /\ cutoff <= update_timestamp row)
  /\ update_log c' `sublist_of` update_log c
  /\ (forall readTime a,
        getAccountSnapshot readTime c' a = getAccountSnapshot readTime c a)
  /\ (forall readTime a,
        determinePollingMode readTime c' a = determinePollingMode readTime c a)
  /\ cleanup now c' maxAgeMs = c'.
Proof.
  intros Hi. cbv zeta. unfold cleanup. rewrite Hi. cbn [negb].
  fold defaultMaxAgeMs. set (cutoff := now - default defaultMaxAgeMs maxAgeMs).
  cbn. split; [|split; [|split; [|split]]].
  - intros row. by rewrite List.filter_In, negb_true_iff, Z.ltb_ge.
  - induction (update_log c) as [|x l IH]; simpl; [constructor|].
    destruct (negb _); by constructor.
  - intros. unfold_reads. cbn. by rewrite Hi.
  - intros. unfold determinePollingMode, getCachedPositions, getCachedOrders.
    cbn. by rewrite Hi.
  - f_equal. induction (update_log c) as [|x l IH]; simpl; [done|].
    destruct (negb (update_timestamp x <? cutoff)) eqn:E; simpl; rewrite ?E, IH; done.
Qed.

Lemma cleanup_removes_only_old_log_rows_witness :
  List.map update_timestamp (update_log Sample.tradingCache) = [1000; 1100; 1200]
  /\ List.map update_timestamp
       (update_log (cleanup 1250 Sample.tradingCache (Some 100))) = [1200]
  /\ forall readTime a,
       determinePollingMode readTime (cleanup 1250 Sample.tradingCache (Some 100)) a
       = determinePollingMode readTime Sample.tradingCache a.
Proof.
  split; [by vm_compute|]. split; [by vm_compute|].
  exact (proj1 (proj2 (proj2 (proj2
           (cleanup_removes_only_old_log_rows Sample.tradingCache 1250 (Some 100)
              eq_refl))))).
Defined.



End CacheExtras.

(** ** Polling supervisor: restarts, failed polls and shutdown *)

Section CollectorExtras.

Import DataCache Collector.

Implicit Types (c : Collector.t) (dc : DataCache.t) (a accountId : Z).

(** X16.  A restart of an account's polling ends by storing the mode
    computed from the cache, so whatever mode was written just before it
    does not last: when [handleRateLimit] returns, the stored mode is the
    data-derived one and not 'IDLE' as such, and when [forcePollingMode]
    returns it is the data-derived one and not the forced one as such. *)
Theorem restart_ends_in_the_data_derived_mode fuel up c a :
  initialized c = true ->
  (forall c', restartAccountPolling fuel up c a = Some c' ->
              currentMode c' a = Some (dataDerivedMode c' a))
  /\ (forall c', handleRateLimit (restartAccountPolling fuel up) c a = Some c' ->
                 currentMode c' a = Some (dataDerivedMode c' a))
  /\ (forall forced why durationMs c',
        forcePollingMode fuel up c a forced why durationMs = Some c' ->
        currentMode c' a = Some (dataDerivedMode c' a)).
Proof.
  intros Hi.
  assert (Hrestart : forall c0 c', initialized c0 = true ->
            restartAccountPolling fuel up c0 a = Some c' ->
            currentMode c' a = Some (dataDerivedMode c' a)).
  { intros c0 c' H0 Hr. apply (restartAccountPolling_mode fuel up c0 a c' Hr).
    by rewrite (proj1 (restartAccountPolling_frame fuel up c0 a c' Hr)). }
  assert (Hset : forall m r, initialized (setMode c a m r) = true).
  { intros m r. by rewrite (proj1 (setMode_frame c a m r)). }
  split; [|split].
  - intros c'. by apply Hrestart.
  - intros c'. unfold handleRateLimit. by apply Hrestart.
  - intros forced why d c'. unfold forcePollingMode.
    destruct (restartAccountPolling fuel up (setMode c a forced why) a)
      as [c2|] eqn:Hr; [|done].
    pose proof (Hrestart _ c2 (Hset forced why) Hr) as Hm. simpl.
    destruct (0 <? default defaultDurationMs d); intros [= <-]; exact Hm.
Qed.

Lemma restart_ends_in_the_data_derived_mode_witness :
  exists c',
    handleRateLimit (restartAccountPolling 2 Sample.upstream) Sample.collector 7
      = Some c'
    /\ currentMode c' 7 = Some ACTIVE
    /\ currentMode c' 7 = Some (dataDerivedMode c' 7).
Proof.
  let r := eval vm_compute in
      (handleRateLimit (restartAccountPolling 2 Sample.upstream) Sample.collector 7) in
  lazymatch r with Some ?c' => exists c' end.
  lazymatch goal with
  | |- ?h = Some ?c' /\ _ =>
      assert (E : h = Some c') by (vm_compute; reflexivity);
      refine (conj E (conj _ (proj1 (proj2 (restart_ends_in_the_data_derived_mode
                2%nat Sample.upstream Sample.collector 7 eq_refl)) c' E)))
  end.
  vm_compute. reflexivity.
Defined.

(** X17.  A poll whose brokerage call fails with an error that is not a
    rate limit changes nothing but the update log: it returns as failed,
    having added one failure row (the account, the kind of data, the
    error's message, the time the call took); the cached rows, the stored
    mode, the account's timers and the pending reversions are as they were,
    and no restart is made. *)
Theorem failed_poll_only_writes_the_log restart up c a dataType c1 message :
  fetch up c a dataType = (c1, inl message) ->
  rateLimited message = false ->
  exists c',
    pollDataType restart up c a dataType = Some (c', false)
    /\ dataCache c' = logUpdate (now c') (dataCache c) a (dataTypeName dataType)
                        false (Some message) (Some (now c' - now c))
    /\ (forall readTime a',
          getAccountSnapshot readTime (dataCache c') a'
          = getAccountSnapshot readTime (dataCache c) a')
    /\ timers c' = timers c /\ pollTimers c' = pollTimers c
    /\ revertTimers c' = revertTimers c
    /\ calls c' = S (calls c).
Proof.
  intros Hf Hrl.
  assert (Hc1 : exists ms, c1 = afterCall c ms).
  { unfold fetch in Hf. destruct dataType.
    - injection Hf as <- _. by eexists.
    - injection Hf as <- _. by eexists.
    - destruct (outcome _) as [m|raw]; [injection Hf as <- _; by eexists|].
      by destruct (getOrders_cached _ _ _). }
  destruct Hc1 as [ms ->].
  eexists. unfold pollDataType. rewrite Hf. unfold pollFailed.
  unfold rateLimited in Hrl. rewrite Hrl. split; [reflexivity|]. cbn.
  repeat split. intros readTime a'.
  unfold getAccountSnapshot, getCachedAccountData, getCachedAccountBalance,
    getCachedPositions, getCachedOrders, getPollingState.
  rewrite logUpdate_init. unfold logUpdate.
  by destruct (isInitialized (dataCache c)).
Qed.

Lemma failed_poll_only_writes_the_log_witness :
  exists c',
    pollDataType (restartAccountPolling 0 Sample.brokenUpstream)
      Sample.brokenUpstream Sample.collector 7 positions = Some (c', false)
    /\ List.map error_message (update_log (dataCache c'))
       = [None; Some "connect ECONNREFUSED"]
    /\ currentMode c' 7 = Some IDLE
    /\ pollTimers c' = [].
Proof.
  destruct (failed_poll_only_writes_the_log
              (restartAccountPolling 0 Sample.brokenUpstream)
              Sample.brokenUpstream Sample.collector 7 positions
              (afterCall Sample.collector 50) "connect ECONNREFUSED"
              eq_refl eq_refl)
    as (c' & Hpoll & Hdc & _ & _ & Hpt & _).
  exists c'. split; [exact Hpoll|]. split; [|split].
  - rewrite Hdc. reflexivity.
  - unfold currentMode. rewrite Hdc. reflexivity.
  - rewrite Hpt. reflexivity.
Defined.

(** *** Brokerage calls made under a restart *)

Lemma ensureAccount_calls c a : calls (ensureAccount c a) = calls c.
Proof. unfold ensureAccount. by destruct (getCachedAccountData _ _). Qed.

Lemma fetch_calls up c a dt c1 r : fetch up c a dt = (c1, r) -> calls c1 = S (calls c).
Proof.
  unfold fetch. destruct dt.
  - by intros [= <- _].
  - by intros [= <- _].
  - destruct (outcome _) as [m|raw]; [by intros [= <- _]|].
    set (c0 := afterCall c _). unfold getOrders_cached.
    destruct (isInitialized (dataCache c0)); [|by intros [= <- _]].
    destruct (hasEnrichedData _); intros [= <- _]; cbn;
      by rewrite ensureAccount_calls.
Qed.

Lemma cacheFetched_calls c a d : calls (cacheFetched c a d) = calls c.
Proof.
  unfold cacheFetched. destruct d; [| |done];
    destruct (isInitialized (dataCache c)); try done; cbn;
    by rewrite ensureAccount_calls.
Qed.

Section CallsUnderRestart.

Variable restart : Collector.t -> Z -> option Collector.t.
Variable up : Upstream.
Hypothesis restart_calls : forall c a c',
  restart c a = Some c' -> (calls c <= calls c')%nat.

Lemma pollFailed_calls c a dt st msg c' b :
  pollFailed restart c a dt st msg = Some (c', b) -> (calls c <= calls c')%nat.
Proof.
  unfold pollFailed, handleRateLimit. destruct (_ || _).
  - destruct (restart _ a) as [c2|] eqn:E; [|done]. simpl. intros [= <- _].
    by apply restart_calls in E.
  - by intros [= <- _].
Qed.

Lemma pollDataType_calls c a dt c' b :
  pollDataType restart up c a dt = Some (c', b) -> (S (calls c) <= calls c')%nat.
Proof.
  unfold pollDataType. destruct (fetch up c a dt) as [c1 [msg|data]] eqn:Ef;
    apply fetch_calls in Ef.
  - intros H. apply pollFailed_calls in H. lia.
  - set (c3 := withCache _ _).
    assert (Hc3 : calls c3 = S (calls c))
      by (unfold c3; cbn; by rewrite cacheFetched_calls).
    clearbody c3. unfold checkPollingModeChange.
    destruct (getPollingState (dataCache c3) a) as [cur|].
    + destruct (bool_decide _).
      * destruct (restart _ a) as [c4|] eqn:E; [|done]. simpl. intros [= <- _].
        apply restart_calls in E. cbn in E. lia.
      * intros [= <- _]. lia.
    + intros H. apply pollFailed_calls in H. lia.
Qed.

Lemma initializeAccountPolling_calls c a c' :
  initializeAccountPolling restart up c a = Some c' ->
  (calls c + 2 <= calls c')%nat.
Proof.
  intros H. unfold initializeAccountPolling in H.
  destruct (pollDataType restart up c a positions) as [[c1 b1]|] eqn:E1; [|done].
  simpl in H.
  destruct (pollDataType restart up c1 a orders) as [[c2 b2]|] eqn:E2; [|done].
  simpl in H. injection H as <-. cbn.
  apply pollDataType_calls in E1, E2. lia.
Qed.

End CallsUnderRestart.

Lemma clearAccountTimers_calls c a : calls (clearAccountTimers c a) = calls c.
Proof.
  unfold clearAccountTimers. destruct (timers c !! a) as [tm|]; [|done].
  by destruct (balanceTimer tm), (positionsTimer tm), (ordersTimer tm).
Qed.

Lemma restartAccountPolling_calls fuel up c a c' :
  restartAccountPolling fuel up c a = Some c' -> (calls c + 2 <= calls c')%nat.
Proof.
  revert c a c'. induction fuel as [|fuel IH]; intros c a c'; simpl; [done|].
  intros H. apply initializeAccountPolling_calls in H.
  - by rewrite clearAccountTimers_calls in H.
  - intros c0 a0 c1 Hr. apply IH in Hr. lia.
Qed.

(** While the brokerage answers the positions call with a rate-limit
    error, no restart comes to an end. *)
Lemma restartAccountPolling_limited up :
  (forall n acct, exists message,
      outcome (getPositions up n acct) = inl message
      /\ rateLimited message = true) ->
  forall fuel c a, restartAccountPolling fuel up c a = None.
Proof.
  intros Hlim. induction fuel as [|fuel IH]; intros c a; [done|].
  cbn [restartAccountPolling].
  unfold initializeAccountPolling, pollDataType.
  destruct (Hlim (calls (clearAccountTimers c a)) a) as (message & Hout & Hrl).
  assert (Hf : fetch up (clearAccountTimers c a) a positions
               = (afterCall (clearAccountTimers c a)
                    (elapsed (getPositions up (calls (clearAccountTimers c a)) a)),
                  inl message))
    by (unfold fetch; by rewrite Hout).
  rewrite Hf. unfold pollFailed. unfold rateLimited in Hrl. rewrite Hrl.
  unfold handleRateLimit. by rewrite IH.
Qed.

(** X18.  Handling a rate limit polls again at once: [handleRateLimit]
    restarts the account's polling, and the restart begins by calling the
    brokerage for the positions and for the orders, so at least two more
    calls have been made when it returns; and as long as the brokerage
    answers the positions call with a rate-limit error, each of these
    polls hands over to [handleRateLimit] again and none of them
    returns. *)
Theorem rate_limit_handling_polls_again_at_once :
  (forall fuel up c a c',
     handleRateLimit (restartAccountPolling fuel up) c a = Some c' ->
     (calls c + 2 <= calls c')%nat)
  /\ (forall up,
        (forall n acct, exists message,
            outcome (getPositions up n acct) = inl message
            /\ rateLimited message = true) ->
        forall fuel c a,
          handleRateLimit (restartAccountPolling fuel up) c a = None
          /\ pollDataType (restartAccountPolling fuel up) up c a positions = None).
Proof.
  split.
  - intros fuel up c a c'. unfold handleRateLimit. intros H.
    by apply restartAccountPolling_calls in H.
  - intros up Hlim fuel c a. split.
    + unfold handleRateLimit. by apply restartAccountPolling_limited.
    + unfold pollDataType, fetch.
      destruct (Hlim (calls c) a) as (message & Hout & Hrl). rewrite Hout.
      unfold pollFailed. unfold rateLimited in Hrl. rewrite Hrl.
      unfold handleRateLimit. by rewrite restartAccountPolling_limited.
Qed.

Lemma rate_limit_handling_polls_again_at_once_witness :
  (exists c',
     handleRateLimit (restartAccountPolling 2 Sample.upstream) Sample.collector 7
       = Some c'
     /\ calls Sample.collector = 0%nat /\ calls c' = 4%nat
     /\ (calls Sample.collector + 2 <= calls c')%nat)
  /\ handleRateLimit (restartAccountPolling 50 Sample.limitedUpstream)
       Sample.collector 7 = None.
Proof.
  split.
  - let r := eval vm_compute in
        (handleRateLimit (restartAccountPolling 2 Sample.upstream)
           Sample.collector 7) in
    lazymatch r with Some ?c' => exists c' end.
    lazymatch goal with
    | |- ?h = Some ?c' /\ _ =>
        assert (E : h = Some c') by (vm_compute; reflexivity);
        refine (conj E (conj eq_refl (conj _
                  (proj1 rate_limit_handling_polls_again_at_once
                     2%nat Sample.upstream Sample.collector 7 c' E))))
    end.
    vm_compute. reflexivity.
  - apply (proj2 rate_limit_handling_polls_again_at_once Sample.limitedUpstream).
    intros n acct. exists "Request failed with status code 429".
    split; reflexivity.
Defined.

(** *** The cached orders under polls *)

Lemma ensureAccount_orders c a :
  orders_cache (dataCache (ensureAccount c a)) = orders_cache (dataCache c).
Proof.
  unfold ensureAccount. destruct (getCachedAccountData _ _); [done|]. cbn.
  unfold cacheAccountData, logUpdate.
  destruct (isInitialized (dataCache c)) eqn:E; cbn; rewrite ?E; done.
Qed.

Lemma cacheFetched_orders c a d :
  orders_cache (dataCache (cacheFetched c a d)) = orders_cache (dataCache c).
Proof.
  unfold cacheFetched. destruct d; [| |done];
    destruct (isInitialized (dataCache c)) eqn:E; try done; cbn;
    unfold cacheAccountBalance, cachePositions, logUpdate;
    destruct (ensureAccount_frame c a) as [Hi _]; unfold initialized in Hi;
    rewrite Hi, E; cbn; rewrite ?Hi, ?E; cbn; apply ensureAccount_orders.
Qed.

Lemma logUpdate_orders now dc a ty ok e rt :
  orders_cache (logUpdate now dc a ty ok e rt) = orders_cache dc.
Proof. unfold logUpdate. by destruct (isInitialized dc). Qed.

Lemma updatePollingState_orders now dc a m r :
  orders_cache (updatePollingState now dc a m r) = orders_cache dc.
Proof. unfold updatePollingState. by destruct (isInitialized dc). Qed.

Lemma clearAccountTimers_cache c a :
  dataCache (clearAccountTimers c a) = dataCache c.
Proof.
  unfold clearAccountTimers. destruct (timers c !! a) as [tm|]; [|done].
  by destruct (balanceTimer tm), (positionsTimer tm), (ordersTimer tm).
Qed.

Section EnrichedOrders.

Variable a : Z.
Variable row : OrdersRow.
Hypothesis row_enriched : List.existsb enriched (orders_data row) = true.

(** The cache is initialised and holds the row for the account. *)
Local Abbreviation holds c :=
  (initialized c = true /\ orders_cache (dataCache c) !! a = Some row).

Lemma fetch_orders_kept up c dt c1 r :
  fetch up c a dt = (c1, r) -> holds c ->
  orders_cache (dataCache c1) = orders_cache (dataCache c).
Proof.
  intros Hf [Hi Hrow]. unfold fetch in Hf. destruct dt.
  - by injection Hf as <- _.
  - by injection Hf as <- _.
  - destruct (outcome _) as [m|raw]; [by injection Hf as <- _|].
    set (c0 := afterCall c _) in Hf. unfold getOrders_cached in Hf.
    unfold initialized in Hi. change (dataCache c0) with (dataCache c) in Hf.
    rewrite Hi in Hf.
    assert (Hen : hasEnrichedData
                    (getCachedOrders (now (ensureAccount c0 a))
                       (dataCache (ensureAccount c0 a)) a) = true).
    { unfold getCachedOrders.
      destruct (ensureAccount_frame c0 a) as [Hi0 _]. unfold initialized in Hi0.
      rewrite Hi0. change (dataCache c0) with (dataCache c). rewrite Hi. cbn [negb].
      rewrite ensureAccount_orders. change (dataCache c0) with (dataCache c).
      rewrite Hrow. exact row_enriched. }
    rewrite Hen in Hf. injection Hf as <- _. by rewrite ensureAccount_orders.
Qed.

Variable restart : Collector.t -> Z -> option Collector.t.
Variable up : Upstream.
Hypothesis restart_frame : forall c a0 c', restart c a0 = Some c' ->
  initialized c' = initialized c /\ revertTimers c' = revertTimers c.
Hypothesis restart_kept : forall c c',
  restart c a = Some c' -> holds c ->
  orders_cache (dataCache c') = orders_cache (dataCache c).

Lemma pollFailed_orders_kept c dt st msg c' b :
  pollFailed restart c a dt st msg = Some (c', b) -> holds c ->
  orders_cache (dataCache c') = orders_cache (dataCache c).
Proof.
  unfold pollFailed, handleRateLimit. intros H [Hi Hrow]. destruct (_ || _).
  - destruct (restart _ a) as [c2|] eqn:E; [|done]. simpl in H.
    injection H as <- _. rewrite (restart_kept _ _ E).
    + cbn. by rewrite updatePollingState_orders, logUpdate_orders.
    + split.
      * unfold initialized in *. cbn.
        by rewrite updatePollingState_init, logUpdate_init.
      * cbn. by rewrite updatePollingState_orders, logUpdate_orders.
  - injection H as <- _. cbn. by rewrite logUpdate_orders.
Qed.

Lemma pollDataType_orders_kept c dt c' b :
  pollDataType restart up c a dt = Some (c', b) -> holds c ->
  orders_cache (dataCache c') = orders_cache (dataCache c).
Proof.
  unfold pollDataType. intros H Hc.
  destruct (fetch up c a dt) as [c1 [msg|data]] eqn:Ef.
  { pose proof (fetch_orders_kept up c dt c1 _ Ef Hc) as Hk.
    destruct (fetch_frame up c a dt c1 _ Ef) as [Hi1 _].
    rewrite (pollFailed_orders_kept _ _ _ _ _ _ H); [done|].
    destruct Hc as [Hi Hrow]. split; [congruence|by rewrite Hk]. }
  pose proof (fetch_orders_kept up c dt c1 _ Ef Hc) as Hk.
  destruct (fetch_frame up c a dt c1 _ Ef) as [Hi1 _].
  set (c3 := withCache _ _) in H.
  assert (Hc3 : holds c3 /\ orders_cache (dataCache c3) = orders_cache (dataCache c)).
  { destruct Hc as [Hi Hrow].
    assert (Ho : orders_cache (dataCache c3) = orders_cache (dataCache c)).
    { unfold c3. cbn. by rewrite logUpdate_orders, cacheFetched_orders. }
    split; [split|done]; [|by rewrite Ho].
    destruct (cacheFetched_frame c1 a data) as [Hi2 _].
    unfold c3, initialized in *. cbn. rewrite logUpdate_init. congruence. }
  destruct Hc3 as [Hc3 Ho3]. clearbody c3.
  unfold checkPollingModeChange in H.
  destruct (getPollingState (dataCache c3) a) as [cur|].
  - destruct (bool_decide _).
    + destruct (restart _ a) as [c4|] eqn:E; [|done]. simpl in H.
      injection H as <- _. rewrite (restart_kept _ _ E).
      * cbn. by rewrite updatePollingState_orders.
      * destruct Hc3 as [Hi3 Hrow3]. split.
        -- unfold initialized in *. cbn. by rewrite updatePollingState_init.
        -- cbn. by rewrite updatePollingState_orders.
    + by injection H as <- _.
  - by rewrite (pollFailed_orders_kept _ _ _ _ _ _ H).
Qed.

Lemma initializeAccountPolling_orders_kept c c' :
  initializeAccountPolling restart up c a = Some c' -> holds c ->
  orders_cache (dataCache c') = orders_cache (dataCache c).
Proof.
  intros H Hc. unfold initializeAccountPolling in H.
  destruct (pollDataType restart up c a positions) as [[c1 b1]|] eqn:E1; [|done].
  simpl in H.
  destruct (pollDataType restart up c1 a orders) as [[c2 b2]|] eqn:E2; [|done].
  simpl in H. injection H as <-. cbn.
  rewrite updatePollingState_orders.
  pose proof (pollDataType_orders_kept _ _ _ _ E1 Hc) as H1.
  assert (Hc1 : holds c1).
  { destruct Hc as [Hi Hrow]. split; [|by rewrite H1].
    by rewrite (proj1 (pollDataType_frame restart up restart_frame _ _ _ _ _ E1)). }
  rewrite (pollDataType_orders_kept _ _ _ _ E2 Hc1). exact H1.
Qed.

End EnrichedOrders.

Lemma restartAccountPolling_orders_kept a row fuel up :
  List.existsb enriched (orders_data row) = true ->
  forall c c',
  restartAccountPolling fuel up c a = Some c' ->
  initialized c = true /\ orders_cache (dataCache c) !! a = Some row ->
  orders_cache (dataCache c') = orders_cache (dataCache c).
Proof.
  intros Hen. induction fuel as [|fuel IH]; intros c c'; simpl; [done|].
  intros H Hc.
  rewrite (initializeAccountPolling_orders_kept a row Hen
             (restartAccountPolling fuel up) up
             (restartAccountPolling_frame fuel up) IH _ _ H).
  - by rewrite clearAccountTimers_cache.
  - unfold initialized in *. by rewrite clearAccountTimers_cache.
Qed.



(** *** After [stop] *)

Lemma clearTimeout_rest c h :
  dataCache (clearTimeout c h) = dataCache c
  /\ timers (clearTimeout c h) = timers c
  /\ revertTimers (clearTimeout c h) = revertTimers c
  /\ nextHandle (clearTimeout c h) = nextHandle c
  /\ now (clearTimeout c h) = now c
  /\ calls (clearTimeout c h) = calls c.
Proof. by destruct h. Qed.

Lemma clearThree_rest c tm :
  dataCache (clearThree c tm) = dataCache c
  /\ revertTimers (clearThree c tm) = revertTimers c
  /\ nextHandle (clearThree c tm) = nextHandle c
  /\ now (clearThree c tm) = now c
  /\ calls (clearThree c tm) = calls c.
Proof.
  unfold clearThree.
  by destruct (balanceTimer tm), (positionsTimer tm), (ordersTimer tm).
Qed.

Lemma stop_rest c :
  dataCache (stop c) = close (dataCache c)
  /\ timers (stop c) = ∅
  /\ revertTimers (stop c) = revertTimers c
  /\ nextHandle (stop c) = nextHandle c
  /\ now (stop c) = now c
  /\ calls (stop c) = calls c.
Proof.
  unfold stop. cbn.
  induction (map_to_list (timers c)) as [|[k tm] l IH]; cbn; [done|].
  destruct (clearThree_rest
              (List.fold_right (fun entry acc => clearThree acc (snd entry)) c l) tm)
    as (-> & -> & -> & -> & ->).
  exact IH.
Qed.

(** A poll against a cache that is not initialised: the data is fetched
    and dropped, and the poll ends as failed, on the error of the call or
    on the polling state that cannot be read. *)
Lemma pollDataType_closed restart up c a dt :
  initialized c = false ->
  (forall message, callFailure up (calls c) a dt = Some message ->
                   rateLimited message = false) ->
  pollDataType restart up c a dt
  = Some (afterCall c (callElapsed up (calls c) a dt), false).
Proof.
  unfold initialized. intros Hi Hrl. unfold pollDataType.
  assert (Hno : forall dc, isInitialized dc = false ->
            forall now0 a0 ty ok e rt, logUpdate now0 dc a0 ty ok e rt = dc).
  { intros dc Hdc. intros. unfold logUpdate. by rewrite Hdc. }
  assert (Hfail : forall msg ms st,
            rateLimited msg = false ->
            pollFailed restart (afterCall c ms) a dt st msg
            = Some (afterCall c ms, false)).
  { intros msg ms st Hm. unfold pollFailed. unfold rateLimited in Hm. rewrite Hm.
    cbn. by rewrite (Hno _ Hi). }
  assert (Hthrow : forall ms st,
            match checkPollingModeChange restart (afterCall c ms) a with
            | Some (Normal c4) => Some (c4, true)
            | Some (Throw message c4) => pollFailed restart c4 a dt st message
            | None => None
            end = Some (afterCall c ms, false)).
  { intros ms st. unfold checkPollingModeChange, getPollingState. cbn.
    rewrite Hi. cbn [negb]. by apply Hfail. }
  unfold fetch, callFailure, callElapsed in *.
  destruct dt.
  - destruct (outcome (getAccountBalance up (calls c) a)) as [m|d] eqn:Ho.
    + apply Hfail. by apply Hrl.
    + unfold cacheFetched. cbn. rewrite Hi. cbn. rewrite (Hno _ Hi).
      apply (Hthrow _ (now c)).
  - destruct (outcome (getPositions up (calls c) a)) as [m|d] eqn:Ho.
    + apply Hfail. by apply Hrl.
    + unfold cacheFetched. cbn. rewrite Hi. cbn. rewrite (Hno _ Hi).
      apply (Hthrow _ (now c)).
  - destruct (outcome (getOrdersList up (calls c) a)) as [m|d] eqn:Ho.
    + apply Hfail. by apply Hrl.
    + unfold getOrders_cached. cbn. rewrite Hi. cbn. rewrite (Hno _ Hi).
      apply (Hthrow _ (now c)).
Qed.

(** X20.  [stop] clears the timers the map holds and closes the cache, but
    a reversion scheduled by [forcePollingMode] stays pending; when it
    fires after [stop], its restart calls the brokerage for the positions
    and for the orders (nothing is cached and both polls end as failed) and
    arms the account's three timers again, at the intervals of 'IDLE':
    polling has resumed on the closed cache. *)
Theorem stop_does_not_cancel_a_pending_reversion up c i dueAt a :
  revertTimers c !! i = Some (dueAt, a) ->
  dueAt <= now c ->
  neverLimited up ->
  exists c',
    fireRevertTimer 1 up (stop c) i = Some c'
    /\ initialized c' = false
    /\ calls c' = (calls c + 2)%nat
    /\ timers c' = {[ a := {| balanceTimer := Some (nextHandle c);
                              positionsTimer := Some (S (nextHandle c));
                              ordersTimer := Some (S (S (nextHandle c))) |} ]}
    /\ pollTimers c' =
         pollTimers (stop c) ++
         [ {| handle := nextHandle c; due := now c' + 5 * 60 * 1000;
              timerAccount := a; timerDataType := balance |};
           {| handle := S (nextHandle c); due := now c' + 2 * 60 * 1000;
              timerAccount := a; timerDataType := positions |};
           {| handle := S (S (nextHandle c)); due := now c' + 2 * 60 * 1000;
              timerAccount := a; timerDataType := orders |} ].
Proof.
  intros Hi Hdue Hup.
  destruct (stop_rest c) as (Hdc & Htm & Hrev & Hnh & Hnow & Hcalls).
  remember (stop c) as stopped eqn:Hstopped. clear Hstopped.
  unfold fireRevertTimer. rewrite Hrev, Hi, Hnow.
  destruct (Z.leb_spec dueAt (now c)); [|lia].
  unfold autoRevert. cbn [dataCache now].
  set (c0 := mk _ _ _ _ _ _ _).
  assert (Hclosed : isInitialized (dataCache stopped) = false) by by rewrite Hdc.
  assert (Hset : forall m r, setMode c0 a m r = c0).
  { intros m r. unfold setMode, updatePollingState. cbn. by rewrite Hclosed. }
  rewrite Hset. cbn [restartAccountPolling].
  assert (Hclear : clearAccountTimers c0 a = c0).
  { unfold clearAccountTimers. cbn. by rewrite Htm, lookup_empty. }
  rewrite Hclear. unfold initializeAccountPolling.
  rewrite (pollDataType_closed _ up c0 a positions); [|done|apply Hup]. cbn [mbind option_bind].
  set (c1 := afterCall c0 _).
  rewrite (pollDataType_closed _ up c1 a orders); [|done|apply Hup]. cbn [mbind option_bind].
  set (c2 := afterCall c1 _).
  assert (Hset2 : forall m r, setMode c2 a m r = c2).
  { intros m r. unfold setMode, updatePollingState. cbn. by rewrite Hclosed. }
  rewrite Hset2. unfold startPollingTimer, getPollingState. cbn.
  eexists. split; [reflexivity|]. unfold initialized. cbn.
  rewrite Hclosed, Htm, Hnh, Hcalls. cbn.
  repeat split; try done; try lia.
  by rewrite <- !app_assoc.
Qed.

Lemma stop_does_not_cancel_a_pending_reversion_witness :
  exists c',
    fireRevertTimer 1 Sample.brokenUpstream
      (stop (advance Sample.staleModeCollector 1000)) 0 = Some c'
    /\ pollTimers (stop (advance Sample.staleModeCollector 1000)) = []
    /\ List.map timerDataType (pollTimers c') = [balance; positions; orders]
    /\ calls c' = 2%nat.
Proof.
  destruct (stop_does_not_cancel_a_pending_reversion Sample.brokenUpstream
              (advance Sample.staleModeCollector 1000) 0 2000 7)
    as (c' & Hfire & _ & Hcalls & _ & Hpt).
  - reflexivity.
  - vm_compute. discriminate.
  - intros n acct dt message H. destruct dt; injection H as <-; reflexivity.
  - exists c'. split; [exact Hfire|]. split; [reflexivity|].
    split; [by rewrite Hpt|exact Hcalls].
Defined.

(** *** A forced refresh, and the status report *)

Lemma startPollingTimer_rest c a dt tm :
  dataCache (fst (startPollingTimer c a dt tm)) = dataCache c
  /\ now (fst (startPollingTimer c a dt tm)) = now c.
Proof.
  unfold startPollingTimer. cbn.
  by destruct (clearTimeout_rest c (timerOf tm dt)) as (-> & _ & _ & _ & -> & _).
Qed.

Lemma rearmTimers_rest c a :
  dataCache (rearmTimers c a) = dataCache c /\ now (rearmTimers c a) = now c.
Proof.
  unfold rearmTimers. destruct (timers c !! a) as [tm|]; [|done].
  destruct (startPollingTimer c a balance tm) as [c1 t1] eqn:E1.
  destruct (startPollingTimer c1 a positions t1) as [c2 t2] eqn:E2.
  destruct (startPollingTimer c2 a orders t2) as [c3 t3] eqn:E3. cbn.
  destruct (startPollingTimer_rest c a balance tm) as [H1 H1'].
  destruct (startPollingTimer_rest c1 a positions t1) as [H2 H2'].
  destruct (startPollingTimer_rest c2 a orders t2) as [H3 H3'].
  rewrite E1 in H1, H1'. rewrite E2 in H2, H2'. rewrite E3 in H3, H3'.
  cbn in *. split; congruence.
Qed.

(** X21.  When [forceDataRefresh] returns, the stored mode of the account
    is the one computed from the cache, whether its three polls succeeded
    or failed: it compares the two itself and writes the computed mode
    when they differ. *)
Theorem forced_refresh_ends_in_the_data_derived_mode fuel up c a c' :
  initialized c = true ->
  forceDataRefresh fuel up c a = Some c' ->
  currentMode c' a = Some (dataDerivedMode c' a).
Proof.
  intros Hi H. unfold forceDataRefresh in H.
  destruct (pollDataType _ up c a positions) as [[c1 b1]|] eqn:E1; [|done].
  simpl in H.
  destruct (pollDataType _ up c1 a orders) as [[c2 b2]|] eqn:E2; [|done].
  simpl in H.
  destruct (pollDataType _ up c2 a balance) as [[c3 b3]|] eqn:E3; [|done].
  simpl in H.
  assert (Hi3 : initialized c3 = true).
  { rewrite (proj1 (pollDataType_frame _ up (restartAccountPolling_frame fuel up)
                      _ _ _ _ _ E3)).
    rewrite (proj1 (pollDataType_frame _ up (restartAccountPolling_frame fuel up)
                      _ _ _ _ _ E2)).
    by rewrite (proj1 (pollDataType_frame _ up (restartAccountPolling_frame fuel up)
                         _ _ _ _ _ E1)). }
  destruct (bool_decide _) eqn:Hd; injection H as <-.
  - destruct (rearmTimers_rest
                (setMode c3 a (mode (determinePollingMode (now c3) (dataCache c3) a))
                   (reason (determinePollingMode (now c3) (dataCache c3) a))) a)
      as [Hdc Hnow].
    rewrite (currentMode_ext _ _ a Hdc), (dataDerivedMode_ext _ _ a Hdc Hnow).
    by rewrite currentMode_setMode, dataDerivedMode_setMode.
  - apply bool_decide_eq_false in Hd. unfold currentMode, dataDerivedMode.
    by destruct (decide (Some (mode (determinePollingMode (now c3) (dataCache c3) a))
                         = current_mode <$> getPollingState (dataCache c3) a)).
Qed.

Lemma forced_refresh_ends_in_the_data_derived_mode_witness :
  exists c',
    currentMode Sample.staleModeCollector 7 = Some IDLE
    /\ forceDataRefresh 0 Sample.brokenUpstream Sample.staleModeCollector 7 = Some c'
    /\ List.map success (update_log (dataCache c'))
       = [true; true; true; false; false; false]
    /\ currentMode c' 7 = Some ACTIVE
    /\ currentMode c' 7 = Some (dataDerivedMode c' 7).
Proof.
  let r := eval vm_compute in
      (forceDataRefresh 0 Sample.brokenUpstream Sample.staleModeCollector 7) in
  lazymatch r with Some ?c' => exists c' end.
  lazymatch goal with
  | |- _ /\ ?f = Some ?c' /\ _ =>
      assert (E : f = Some c') by (vm_compute; reflexivity);
      refine (conj _ (conj E (conj _ (conj _
                (forced_refresh_ends_in_the_data_derived_mode 0%nat
                   Sample.brokenUpstream Sample.staleModeCollector 7 c' eq_refl E)))))
  end; vm_compute; reflexivity.
Defined.



End CollectorExtras.

(** ** Request gate: the worker, the counters and the order of service *)

Section GateStructure.

Import RateLimiter.

Implicit Types (w : World) (g : RateLimiter.t) (e : Event) (r request : Request).

(** A world that differs from [w] in its queue and its backoff timers
    only: what [queueRequest] and a firing backoff timeout hand to
    [processQueue]. *)
Local Abbreviation pushed w q timers :=
  (mkWorld (withQueue (gate w) q) (worker w) (now w) timers (settled w)
           (executions w)).

(** *** The worker and the flag *)

Lemma beginExecution_worker w :
  isProcessing (gate w) = true -> requestQueue (gate w) <> [] ->
  workerInv (beginExecution w).
Proof.
  unfold beginExecution, workerInv. destruct (requestQueue (gate w)); [done|].
  by cbn.
Qed.

Lemma enforceInterval_worker w :
  isProcessing (gate w) = true -> requestQueue (gate w) <> [] ->
  workerInv (enforceInterval w).
Proof.
  intros Hp Hq. unfold enforceInterval. destruct (_ <? _).
  - by unfold workerInv.
  - by apply beginExecution_worker.
Qed.

Lemma loopHead_worker w : isProcessing (gate w) = true -> workerInv (loopHead w).
Proof.
  intros Hp. unfold loopHead.
  destruct (requestQueue (gate w)) as [|x q] eqn:Hq; [by unfold workerInv|].
  destruct (_ && _).
  - unfold workerInv. cbn. by rewrite Hq.
  - apply enforceInterval_worker; [done|by rewrite Hq].
Qed.

Lemma processQueue_worker w q timers :
  workerInv w -> q <> [] -> workerInv (processQueue (pushed w q timers)).
Proof.
  intros Hw Hq. unfold processQueue. cbn.
  destruct (isProcessing (gate w)) eqn:Hp; cbn.
  - unfold workerInv in *. cbn. rewrite ?Hp.
    destruct (worker w); intuition congruence.
  - rewrite bool_decide_eq_false_2 by done. by apply loopHead_worker.
Qed.

Lemma finishExecution_processing w request startTime o :
  isProcessing (gate (finishExecution w request startTime o)) = isProcessing (gate w).
Proof.
  unfold finishExecution. destruct o as [response|error].
  - destruct (isPenaltyResponse response); [|done].
    destruct response as [[[d|]]|]; try done.
    unfold handlePenaltyResponse.
    destruct (truthy (p_captcha d)); [done|].
    destruct (_ && _); [|done]. cbn. by destruct (_ <? _).
  - unfold handleRequestError. destruct (bool_decide _); [|done]. cbn.
    by destruct (_ <? _).
Qed.

Lemma step_worker e w w' : step e w = Some w' -> workerInv w -> workerInv w'.
Proof.
  intros Hstep Hw. destruct e as [fn id|ms| | |o|i]; unfold step in Hstep.
  - apply (inj Some) in Hstep as <-. unfold queueRequest.
    apply processQueue_worker; [done|]. by destruct (requestQueue (gate w)).
  - by apply (inj Some) in Hstep as <-.
  - unfold workerInv in Hw.
    destruct (worker w) as [|wake|wake|request st|]; try done.
    destruct (wake <=? now w); [|done]. apply (inj Some) in Hstep as <-.
    destruct Hw as [Hp Hq]. by apply enforceInterval_worker.
  - unfold workerInv in Hw.
    destruct (worker w) as [|wake|wake|request st|]; try done.
    destruct (wake <=? now w); [|done]. apply (inj Some) in Hstep as <-.
    destruct Hw as [Hp Hq]. by apply beginExecution_worker.
  - unfold workerInv in Hw.
    destruct (worker w) as [|wake|wake|request st|] eqn:Hwk; try done.
    apply (inj Some) in Hstep as <-. apply loopHead_worker.
    by rewrite finishExecution_processing.
  - destruct (retryTimers w !! i) as [[dueAt request]|]; [|done].
    destruct (dueAt <=? now w); [|done]. apply (inj Some) in Hstep as <-.
    by apply processQueue_worker.
Qed.

Lemma boot_worker options startTime : workerInv (boot options startTime).
Proof. by unfold workerInv. Qed.

Lemma run_worker options startTime events w :
  run events (boot options startTime) = Some w -> workerInv w.
Proof.
  intros Hrun.
  apply (run_invariant workerInv step_worker events _ w Hrun), boot_worker.
Qed.

(** *** What the end of an execution does with the request *)

Lemma finishExecution_cases w request startTime o :
  let w' := finishExecution w request startTime o in
  worker w' = worker w /\ now w' = now w /\ executions w' = executions w
  /\ ((dropsRequest o = false
       /\ (exists s, settled w' = settled w ++ [(request, s)])
       /\ requestQueue (gate w') = requestQueue (gate w)
       /\ retryTimers w' = retryTimers w)
      \/ (dropsRequest o = false /\ asksRetry o = true
          /\ settled w' = settled w
          /\ (exists r', requestQueue (gate w') = r' :: requestQueue (gate w)
                         /\ named r' = named request)
          /\ retryTimers w' = retryTimers w)
      \/ (dropsRequest o = false /\ asksRetry o = true
          /\ settled w' = settled w
          /\ requestQueue (gate w') = requestQueue (gate w)
          /\ (exists x, retryTimers w' = retryTimers w ++ [x]))
      \/ (dropsRequest o = true
          /\ settled w' = settled w
          /\ requestQueue (gate w') = requestQueue (gate w)
          /\ retryTimers w' = retryTimers w)).
Proof.
  cbv zeta. unfold finishExecution. destruct o as [response|error].
  - destruct response as [[[d|]]|]; cbn [isPenaltyResponse dropsRequest asksRetry].
    + destruct (truthy (p_captcha d)) eqn:Hc.
      { rewrite !orb_true_r. unfold handlePenaltyResponse. rewrite Hc. cbn.
        repeat split; try done. left. repeat split; try done. by eexists. }
      rewrite orb_false_r. cbn [negb andb].
      destruct (truthy (p_ticket d)) eqn:Ht, (truthy (p_time d)) eqn:Hs;
        cbn [orb andb xorb]; unfold handlePenaltyResponse; rewrite ?Hc, ?Ht, ?Hs;
        cbn [andb].
      * destruct (_ <? _); cbn.
        -- repeat split; try done. right. left. repeat split; try done.
           by eexists.
        -- repeat split; try done. left. repeat split; try done. by eexists.
      * cbn. repeat split; try done. right. right. right. done.
      * cbn. repeat split; try done. right. right. right. done.
      * cbn. repeat split; try done. left. repeat split; try done. by eexists.
    + cbn. repeat split; try done. left. repeat split; try done. by eexists.
    + cbn. repeat split; try done. left. repeat split; try done. by eexists.
  - cbn [dropsRequest asksRetry]. unfold handleRequestError.
    destruct (bool_decide _); cbn.
    + destruct (_ <? _); cbn.
      * repeat split; try done. right. right. left. repeat split; try done.
        by eexists.
      * rewrite app_nil_r. repeat split; try done. left. repeat split; try done.
        by eexists.
    + rewrite app_nil_r. repeat split; try done. left. repeat split; try done.
      by eexists.
Qed.

(** *** What the loop does before its next await *)

(** From [w] the loop has come to [w']: it has answered nobody, set no
    timeout and left the counters alone; a request has left the queue if
    and only if it is now being executed, and it is then the latest
    execution, begun at the present time. *)
Local Abbreviation shifted w w' :=
  (settled w' = settled w /\ retryTimers w' = retryTimers w /\ now w' = now w
   /\ stats (gate w') = stats (gate w)
   /\ Nat.add (length (requestQueue (gate w'))) (inFlight (worker w'))
      = length (requestQueue (gate w))
   /\ length (executions w') = Nat.add (length (executions w)) (inFlight (worker w'))
   /\ served w' = served w
   /\ (forall x, In x (executions w') ->
         In x (executions w) \/ (startedAt x = now w /\ inFlight (worker w') = S O))).

Lemma beginExecution_shifted w : shifted w (beginExecution w).
Proof.
  unfold beginExecution, served.
  destruct (requestQueue (gate w)) as [|request q] eqn:Hq; cbn.
  - rewrite Hq. repeat split; try done; try lia. auto.
  - repeat split; try done; try lia.
    + rewrite List.map_app, <- app_assoc. done.
    + intros x [<-|Hx]; auto.
Qed.

Lemma enforceInterval_shifted w : shifted w (enforceInterval w).
Proof.
  unfold enforceInterval. destruct (_ <? _); [|apply beginExecution_shifted].
  cbn. repeat split; try done; try lia. auto.
Qed.

Lemma loopHead_shifted w : shifted w (loopHead w).
Proof.
  unfold loopHead. destruct (requestQueue (gate w)) as [|x q] eqn:Hq.
  - unfold served. cbn. rewrite Hq. repeat split; try done. auto.
  - destruct (_ && _).
    + unfold served. cbn. rewrite Hq. repeat split; try done; try lia. auto.
    + rewrite <- Hq. apply enforceInterval_shifted.
Qed.

(** [processQueue] after a request has been put into the queue. *)
Lemma processQueue_shifted w q timers :
  workerInv w ->
  let w' := processQueue (pushed w q timers) in
  settled w' = settled w /\ retryTimers w' = timers /\ now w' = now w
  /\ stats (gate w') = stats (gate w)
  /\ (length (requestQueue (gate w')) + inFlight (worker w')
      = length q + inFlight (worker w))%nat
  /\ (length (executions w') + inFlight (worker w)
      = length (executions w) + inFlight (worker w'))%nat
  /\ served w' = List.map named (List.rev (List.map executed (executions w)))
                 ++ List.map named q
  /\ (forall x, In x (executions w') ->
        In x (executions w) \/ (startedAt x = now w /\ inFlight (worker w') = 1%nat)).
Proof.
  intros Hw. cbv zeta. unfold processQueue. cbn.
  destruct (isProcessing (gate w) || bool_decide (q = [])) eqn:Hp.
  - cbn. repeat split; try done. auto.
  - apply orb_false_iff in Hp as [Hp _].
    assert (Hidle : inFlight (worker w) = 0%nat).
    { unfold workerInv in Hw. destruct (worker w); try done. congruence. }
    set (w1 := mkWorld _ _ _ _ _ _).
    destruct (loopHead_shifted w1) as (H1 & H2 & H3 & H4 & H5 & H6 & H7 & H8).
    rewrite H1, H2, H3, H4, H5, H6, H7, Hidle. cbn. repeat split; try done; try lia.
Qed.

(** *** One turn of the event loop *)

Lemma length_delete_lookup {A} (l : list A) i (x : A) :
  l !! i = Some x -> S (length (delete i l)) = length l.
Proof.
  revert i. induction l as [|y l IH]; intros [|i]; simpl; try done.
  intros H. f_equal. by apply IH.
Qed.

Lemma step_accounting e w w' :
  step e w = Some w' -> workerInv w ->
  (length (settled w') + pending w' + dropped [e]
   = length (settled w) + pending w + accepted [e])%nat.
Proof.
  intros Hstep Hw. unfold pending.
  destruct e as [fn id|ms| | |o|i]; unfold step in Hstep; cbn [dropped accepted
    List.filter length].
  - apply (inj Some) in Hstep as <-. unfold queueRequest.
    match goal with |- context [processQueue (mkWorld (withQueue _ ?q) _ _ ?t _ _)] =>
      destruct (processQueue_shifted w q t Hw) as (H1 & H2 & _ & _ & H5 & _)
    end.
    rewrite H1, H2. rewrite List.length_app in H5. cbn in H5. lia.
  - apply (inj Some) in Hstep as <-. cbn. lia.
  - destruct (worker w) as [|wake|wake|request st|] eqn:Hwk; try done.
    destruct (wake <=? now w); [|done]. apply (inj Some) in Hstep as <-.
    match goal with |- context [enforceInterval ?w1] =>
      destruct (enforceInterval_shifted w1) as (H1 & H2 & _ & _ & H5 & _)
    end.
    rewrite H1, H2. cbn in *. lia.
  - destruct (worker w) as [|wake|wake|request st|] eqn:Hwk; try done.
    destruct (wake <=? now w); [|done]. apply (inj Some) in Hstep as <-.
    destruct (beginExecution_shifted w) as (H1 & H2 & _ & _ & H5 & _).
    rewrite H1, H2. cbn in *. lia.
  - destruct (worker w) as [|wake|wake|request st|] eqn:Hwk; try done.
    apply (inj Some) in Hstep as <-.
    set (w2 := finishExecution w request st o).
    destruct (loopHead_shifted w2) as (H1 & H2 & _ & _ & H5 & _).
    rewrite H1, H2.
    destruct (finishExecution_cases w request st o) as (_ & _ & _ & Hcase).
    fold w2 in Hcase. cbn [inFlight].
    destruct Hcase as [(-> & (x & ->) & Hq & ->)|[(-> & _ & -> & (r' & Hq & _) & ->)
      |[(-> & _ & -> & Hq & (x & ->))|(-> & -> & Hq & ->)]]];
      rewrite Hq in H5; rewrite ?List.length_app; cbn [length] in *; lia.
  - destruct (retryTimers w !! i) as [[dueAt request]|] eqn:Hi; [|done].
    destruct (dueAt <=? now w); [|done]. apply (inj Some) in Hstep as <-.
    match goal with |- context [processQueue (mkWorld (withQueue _ ?q) _ _ ?t _ _)] =>
      destruct (processQueue_shifted w q t Hw) as (H1 & H2 & _ & _ & H5 & _)
    end.
    rewrite H1, H2. apply length_delete_lookup in Hi. cbn [length] in *. lia.
Qed.

Lemma step_executions e w w' :
  step e w = Some w' -> workerInv w ->
  forall x, In x (executions w') ->
    In x (executions w) \/ (startedAt x = now w' /\ inFlight (worker w') = 1%nat).
Proof.
  intros Hstep Hw. destruct e as [fn id|ms| | |o|i]; unfold step in Hstep.
  - apply (inj Some) in Hstep as <-. unfold queueRequest.
    match goal with |- context [processQueue (mkWorld (withQueue _ ?q) _ _ ?t _ _)] =>
      destruct (processQueue_shifted w q t Hw) as (_ & _ & H3 & _ & _ & _ & _ & H8)
    end.
    by rewrite H3.
  - apply (inj Some) in Hstep as <-. auto.
  - destruct (worker w) as [|wake|wake|request st|] eqn:Hwk; try done.
    destruct (wake <=? now w); [|done]. apply (inj Some) in Hstep as <-.
    match goal with |- context [enforceInterval ?w1] =>
      destruct (enforceInterval_shifted w1) as (_ & _ & H3 & _ & _ & _ & _ & H8)
    end.
    by rewrite H3.
  - destruct (worker w) as [|wake|wake|request st|] eqn:Hwk; try done.
    destruct (wake <=? now w); [|done]. apply (inj Some) in Hstep as <-.
    destruct (beginExecution_shifted w) as (_ & _ & H3 & _ & _ & _ & _ & H8).
    by rewrite H3.
  - destruct (worker w) as [|wake|wake|request st|] eqn:Hwk; try done.
    apply (inj Some) in Hstep as <-.
    set (w2 := finishExecution w request st o).
    destruct (loopHead_shifted w2) as (_ & _ & H3 & _ & _ & _ & _ & H8).
    destruct (finishExecution_cases w request st o) as (_ & Hn & He & _).
    fold w2 in Hn, He. rewrite H3. by rewrite He in H8.
  - destruct (retryTimers w !! i) as [[dueAt request]|] eqn:Hi; [|done].
    destruct (dueAt <=? now w); [|done]. apply (inj Some) in Hstep as <-.
    match goal with |- context [processQueue (mkWorld (withQueue _ ?q) _ _ ?t _ _)] =>
      destruct (processQueue_shifted w q t Hw) as (_ & _ & H3 & _ & _ & _ & _ & H8)
    end.
    by rewrite H3.
Qed.

Lemma step_served e w w' :
  step e w = Some w' -> workerInv w -> retryTimers w = [] ->
  (forall o, e = RequestDone o -> asksRetry o = false) ->
  served w' = served w ++ submitted [e] /\ retryTimers w' = [].
Proof.
  intros Hstep Hw Ht Hfree.
  destruct e as [fn id|ms| | |o|i]; unfold step in Hstep; cbn [submitted].
  - apply (inj Some) in Hstep as <-. unfold queueRequest.
    match goal with |- context [processQueue (mkWorld (withQueue _ ?q) _ _ ?t _ _)] =>
      destruct (processQueue_shifted w q t Hw) as (_ & H2 & _ & _ & _ & _ & H7 & _)
    end.
    rewrite H2, H7. split; [|done]. unfold served.
    by rewrite List.map_app, app_assoc.
  - apply (inj Some) in Hstep as <-. by rewrite app_nil_r.
  - destruct (worker w) as [|wake|wake|request st|] eqn:Hwk; try done.
    destruct (wake <=? now w); [|done]. apply (inj Some) in Hstep as <-.
    match goal with |- context [enforceInterval ?w1] =>
      destruct (enforceInterval_shifted w1) as (_ & H2 & _ & _ & _ & _ & H7 & _)
    end.
    rewrite H2, H7, app_nil_r. done.
  - destruct (worker w) as [|wake|wake|request st|] eqn:Hwk; try done.
    destruct (wake <=? now w); [|done]. apply (inj Some) in Hstep as <-.
    destruct (beginExecution_shifted w) as (_ & H2 & _ & _ & _ & _ & H7 & _).
    rewrite H2, H7, app_nil_r. done.
  - destruct (worker w) as [|wake|wake|request st|] eqn:Hwk; try done.
    apply (inj Some) in Hstep as <-.
    set (w2 := finishExecution w request st o).
    destruct (loopHead_shifted w2) as (_ & H2 & _ & _ & _ & _ & H7 & _).
    rewrite H2, H7, app_nil_r.
    destruct (finishExecution_cases w request st o) as (_ & _ & He & Hcase).
    fold w2 in He, Hcase. specialize (Hfree o eq_refl).
    assert (Hsame : requestQueue (gate w2) = requestQueue (gate w)
                    /\ retryTimers w2 = retryTimers w).
    { destruct Hcase as [(_ & _ & Hq & Hr)|[(_ & Ha & _)|[(_ & Ha & _)
        |(_ & _ & Hq & Hr)]]]; try done; congruence. }
    destruct Hsame as [Hq Hr]. unfold served. by rewrite Hq, He, Hr.
  - rewrite Ht in Hstep. done.
Qed.

Lemma finishExecution_stats w request startTime o :
  let s := stats (gate w) in
  let s' := stats (gate (finishExecution w request startTime o)) in
  totalRequests s' + failedRequests s' = totalRequests s + failedRequests s + 1
  /\ totalRequests s <= totalRequests s' /\ failedRequests s <= failedRequests s'
  /\ penaltiesReceived s <= penaltiesReceived s'
  /\ penaltiesReceived s' - penaltiesReceived s <= totalRequests s' - totalRequests s.
Proof.
  cbv zeta. unfold finishExecution. destruct o as [response|error].
  - destruct (isPenaltyResponse response); [|cbn; lia].
    destruct response as [[[d|]]|]; try (cbn; lia).
    unfold handlePenaltyResponse.
    destruct (truthy (p_captcha d)); [cbn; lia|].
    destruct (_ && _); [|cbn; lia]. cbn. destruct (_ <? _); cbn; lia.
  - unfold handleRequestError. destruct (bool_decide _); [|cbn; lia]. cbn.
    destruct (_ <? _); cbn; lia.
Qed.

Lemma step_stats e w w' :
  step e w = Some w' -> workerInv w -> statsInv w -> statsInv w'.
Proof.
  intros Hstep Hw (Hs1 & Hs2 & Hs3). unfold statsInv.
  destruct e as [fn id|ms| | |o|i]; unfold step in Hstep.
  - apply (inj Some) in Hstep as <-. unfold queueRequest.
    match goal with |- context [processQueue (mkWorld (withQueue _ ?q) _ _ ?t _ _)] =>
      destruct (processQueue_shifted w q t Hw) as (_ & _ & _ & H4 & _ & H6 & _)
    end.
    rewrite H4. repeat split; try lia.
  - apply (inj Some) in Hstep as <-. cbn. repeat split; lia.
  - destruct (worker w) as [|wake|wake|request st|] eqn:Hwk; try done.
    destruct (wake <=? now w); [|done]. apply (inj Some) in Hstep as <-.
    match goal with |- context [enforceInterval ?w1] =>
      destruct (enforceInterval_shifted w1) as (_ & _ & _ & H4 & _ & H6 & _)
    end.
    rewrite H4. cbn in *. repeat split; lia.
  - destruct (worker w) as [|wake|wake|request st|] eqn:Hwk; try done.
    destruct (wake <=? now w); [|done]. apply (inj Some) in Hstep as <-.
    destruct (beginExecution_shifted w) as (_ & _ & _ & H4 & _ & H6 & _).
    rewrite H4. cbn in *. repeat split; lia.
  - destruct (worker w) as [|wake|wake|request st|] eqn:Hwk; try done.
    apply (inj Some) in Hstep as <-.
    set (w2 := finishExecution w request st o).
    destruct (loopHead_shifted w2) as (_ & _ & _ & H4 & _ & H6 & _).
    destruct (finishExecution_cases w request st o) as (_ & _ & He & _).
    pose proof (finishExecution_stats w request st o) as Hst. cbv zeta in Hst.
    fold w2 in He, Hst. rewrite H4. rewrite He in H6. cbn in *.
    repeat split; lia.
  - destruct (retryTimers w !! i) as [[dueAt request]|] eqn:Hi; [|done].
    destruct (dueAt <=? now w); [|done]. apply (inj Some) in Hstep as <-.
    match goal with |- context [processQueue (mkWorld (withQueue _ ?q) _ _ ?t _ _)] =>
      destruct (processQueue_shifted w q t Hw) as (_ & _ & _ & H4 & _ & H6 & _)
    end.
    rewrite H4. repeat split; lia.
Qed.

(** *** Along a run *)

Lemma accepted_cons e events :
  accepted (e :: events) = (accepted [e] + accepted events)%nat.
Proof. unfold accepted. cbn. by destruct e. Qed.

Lemma dropped_cons e events :
  dropped (e :: events) = (dropped [e] + dropped events)%nat.
Proof. unfold dropped. cbn. destruct e; try done. by destruct (dropsRequest o). Qed.

Lemma run_accounting events :
  forall w w', run events w = Some w' -> workerInv w ->
  (length (settled w') + pending w' + dropped events
   = length (settled w) + pending w + accepted events)%nat.
Proof.
  induction events as [|e events IH]; intros w w'; simpl.
  - intros [= <-] _. unfold dropped, accepted. cbn. lia.
  - destruct (step e w) as [w1|] eqn:E; [|done]. intros Hrun Hw.
    pose proof (step_accounting e w w1 E Hw) as H1.
    pose proof (IH w1 w' Hrun (step_worker e w w1 E Hw)) as H2.
    rewrite accepted_cons, dropped_cons. lia.
Qed.

Lemma run_served events :
  forall w w', run events w = Some w' -> workerInv w -> retryTimers w = [] ->
  retryFree events ->
  served w' = served w ++ submitted events.
Proof.
  induction events as [|e events IH]; intros w w'; simpl.
  - intros [= <-] _ _ _. by rewrite app_nil_r.
  - destruct (step e w) as [w1|] eqn:E; [|done]. intros Hrun Hw Ht Hfree.
    destruct (step_served e w w1 E Hw Ht) as [H1 H2].
    { intros o ->. apply Hfree. by left. }
    rewrite (IH w1 w' Hrun (step_worker e w w1 E Hw) H2).
    2:{ intros o Ho. apply Hfree. by right. }
    rewrite H1, <- app_assoc. f_equal. by destruct e.
Qed.

Lemma fresh_executions endTime e w w' :
  step e w = Some w' -> workerInv w -> suspendedUntil endTime w' ->
  forall x, In x (executions w') -> In x (executions w) \/ endTime <= startedAt x.
Proof.
  intros Hstep Hw Hs x Hx.
  destruct (step_executions e w w' Hstep Hw x Hx) as [?|[Hat Hfl]]; [by left|].
  right. rewrite Hat. destruct (Z.lt_ge_cases (now w') endTime) as [Hlt|?]; [|lia].
  destruct (Hs Hlt) as (_ & _ & [Hk|Hk]); rewrite Hk in Hfl; done.
Qed.

End GateStructure.

Section GateExtras.

Import RateLimiter.

Implicit Types (w : World) (e : Event) (request : Request).

(** X4.  In every run of a gate from its construction the flag
    [isProcessing] is up exactly while an activation of the worker is
    under way, the worker is idle only when the queue is empty, a sleeping
    worker has the request it will take waiting in the queue, and the
    worker never shifts from an empty queue: a queued request is never left
    without a worker. *)
Theorem queued_requests_always_have_a_worker options startTime events w :
  run events (boot options startTime) = Some w ->
  worker w <> Crashed
  /\ (isProcessing (gate w) = true <-> worker w <> Idle)
  /\ (requestQueue (gate w) <> [] -> worker w <> Idle)
  /\ (forall wake,
        worker w = SleepingPenalty wake \/ worker w = SleepingInterval wake ->
        requestQueue (gate w) <> []).
Proof.
  intros Hrun. pose proof (run_worker options startTime events w Hrun) as Hw.
  unfold workerInv in Hw.
  destruct (worker w) as [|wake|wake|request st|]; try done.
  - destruct Hw as [Hp Hq]. rewrite Hp, Hq. repeat split; try done.
    intros wake [?|?]; done.
  - destruct Hw as [Hp Hq]. rewrite Hp. repeat split; done.
  - destruct Hw as [Hp Hq]. rewrite Hp. repeat split; done.
  - rewrite Hw. repeat split; try done. intros wake [?|?]; done.
Qed.

Lemma queued_requests_always_have_a_worker_witness :
  exists w,
    run [ QueueRequest 1 (Some "a"); QueueRequest 2 (Some "b");
          RequestDone (Resolved Sample.plainResponse) ]
        (boot clientOptions 10000) = Some w
    /\ worker w = SleepingInterval 11500
    /\ List.map requestId (requestQueue (gate w)) = ["b"]
    /\ (isProcessing (gate w) = true <-> worker w <> Idle).
Proof.
  eexists. split; [vm_compute; reflexivity|]. split; [vm_compute; reflexivity|].
  split; [vm_compute; reflexivity|].
  apply (queued_requests_always_have_a_worker clientOptions 10000
           [ QueueRequest 1 (Some "a"); QueueRequest 2 (Some "b");
             RequestDone (Resolved Sample.plainResponse) ]).
  vm_compute. reflexivity.
Defined.

(** X5.  The counters of [getStats] add up: in every run of a gate from
    its construction, [totalRequests] plus [failedRequests] is the number
    of executions that have ended (every execution begun, less the one
    under way), and [penaltiesReceived] is at most [totalRequests]: a
    response with a penalty marker counts as a request that succeeded. *)
Theorem gate_counters_add_up options startTime events w :
  run events (boot options startTime) = Some w ->
  totalRequests (stats (gate w)) + failedRequests (stats (gate w))
    + Z.of_nat (inFlight (worker w))
    = Z.of_nat (length (executions w))
  /\ 0 <= penaltiesReceived (stats (gate w)) <= totalRequests (stats (gate w))
  /\ 0 <= failedRequests (stats (gate w)).
Proof.
  intros Hrun.
  assert (H : workerInv w /\ statsInv w); [|by destruct H].
  refine (run_invariant (fun w => workerInv w /\ statsInv w) _ events _ w Hrun _).
  - intros e w1 w2 Hstep [Hw Hs]. split; [by apply (step_worker e w1)|].
    by apply (step_stats e w1).
  - split; [apply boot_worker|]. unfold statsInv. cbn. lia.
Qed.

Lemma gate_counters_add_up_witness :
  exists w,
    run [ QueueRequest 1 (Some "a"); QueueRequest 2 (Some "b");
          RequestDone (Sample.penalized Sample.captcha); Elapse 3600000;
          WakeFromPenalty; RequestDone (Rejected Sample.tooManyRequests) ]
        (boot clientOptions 10000) = Some w
    /\ stats (gate w)
       = {| totalRequests := 1; penaltiesReceived := 1; failedRequests := 1 |}
    /\ length (executions w) = 2%nat
    /\ totalRequests (stats (gate w)) + failedRequests (stats (gate w))
         + Z.of_nat (inFlight (worker w))
       = Z.of_nat (length (executions w)).
Proof.
  eexists. split; [vm_compute; reflexivity|]. split; [vm_compute; reflexivity|].
  split; [vm_compute; reflexivity|].
  apply (gate_counters_add_up clientOptions 10000
           [ QueueRequest 1 (Some "a"); QueueRequest 2 (Some "b");
             RequestDone (Sample.penalized Sample.captcha); Elapse 3600000;
             WakeFromPenalty; RequestDone (Rejected Sample.tooManyRequests) ]).
  vm_compute. reflexivity.
Defined.

(** X6.  In every run of a gate from its construction each request taken
    by [queueRequest] is in exactly one place: answered (its promise
    resolved or rejected), still owed (queued, waiting for its backoff
    timeout, or being executed), or dropped by a penalty response that
    carries a ticket without a time or a time without a ticket, which
    [handlePenaltyResponse] neither retries nor rejects. *)
Theorem every_accepted_request_is_accounted_for options startTime events w :
  run events (boot options startTime) = Some w ->
  (length (settled w) + pending w + dropped events = accepted events)%nat.
Proof.
  intros Hrun.
  pose proof (run_accounting events _ w Hrun (boot_worker options startTime)) as H.
  cbn in H. lia.
Qed.

Lemma every_accepted_request_is_accounted_for_witness :
  exists w,
    run [ QueueRequest 1 (Some "a"); QueueRequest 2 (Some "b");
          RequestDone (Sample.penalized Sample.ticketOnly) ]
        (boot clientOptions 10000) = Some w
    /\ settled w = []
    /\ List.map requestId (requestQueue (gate w)) = ["b"]
    /\ retryTimers w = []
    /\ worker w = SleepingInterval 11500
    /\ (length (settled w) + pending w
        + dropped [ QueueRequest 1 (Some "a"); QueueRequest 2 (Some "b");
                    RequestDone (Sample.penalized Sample.ticketOnly) ]
        = 2)%nat.
Proof.
  eexists. split; [vm_compute; reflexivity|]. split; [vm_compute; reflexivity|].
  split; [vm_compute; reflexivity|]. split; [vm_compute; reflexivity|].
  split; [vm_compute; reflexivity|].
  apply (every_accepted_request_is_accounted_for clientOptions 10000
           [ QueueRequest 1 (Some "a"); QueueRequest 2 (Some "b");
             RequestDone (Sample.penalized Sample.ticketOnly) ]).
  vm_compute. reflexivity.
Defined.

(** X7.  As long as no response asks for a retry (no timed penalty, no
    error with status 429), the gate serves first come, first served: the
    requests executed so far, in the order of their execution, followed by
    the queue, are the requests in the order [queueRequest] took them. *)
Theorem requests_are_served_in_arrival_order options startTime events w :
  run events (boot options startTime) = Some w ->
  retryFree events ->
  List.map named (List.rev (List.map executed (executions w)))
  ++ List.map named (requestQueue (gate w))
  = submitted events.
Proof.
  intros Hrun Hfree.
  by apply (run_served events _ w Hrun (boot_worker options startTime)).
Qed.

Lemma requests_are_served_in_arrival_order_witness :
  exists w,
    run [ QueueRequest 1 (Some "a"); QueueRequest 2 (Some "b");
          QueueRequest 3 (Some "c");
          RequestDone (Resolved Sample.plainResponse); Elapse 1500;
          WakeFromInterval ]
        (boot clientOptions 10000) = Some w
    /\ List.map requestId (List.rev (List.map executed (executions w))) = ["a"; "b"]
    /\ List.map requestId (requestQueue (gate w)) = ["c"]
    /\ List.map named (List.rev (List.map executed (executions w)))
       ++ List.map named (requestQueue (gate w))
       = [ (1%nat, "a"); (2%nat, "b"); (3%nat, "c") ].
Proof.
  eexists. split; [vm_compute; reflexivity|]. split; [vm_compute; reflexivity|].
  split; [vm_compute; reflexivity|].
  apply (requests_are_served_in_arrival_order clientOptions 10000
           [ QueueRequest 1 (Some "a"); QueueRequest 2 (Some "b");
             QueueRequest 3 (Some "c");
             RequestDone (Resolved Sample.plainResponse); Elapse 1500;
             WakeFromInterval ]).
  - vm_compute. reflexivity.
  - intros o Ho. simpl in Ho.
    repeat (destruct Ho as [Ho|Ho]; [try discriminate Ho|]); try done.
    injection Ho as <-. reflexivity.
Defined.



(** X9.  [clearQueue] called while the worker is in its spacing sleep
    leaves it nothing to shift: if the sleep ends before another request
    is queued, the worker's activation ends in an error with the flag
    [isProcessing] up, and from then on the gate executes nothing and
    answers nobody, whatever is queued. *)
Theorem clearing_the_queue_under_a_sleeping_worker_wedges_the_gate
    options startTime before w wake w1 :
  run before (boot options startTime) = Some w ->
  worker w = SleepingInterval wake ->
  step WakeFromInterval (clearQueue w) = Some w1 ->
  List.map snd (settled (clearQueue w))
    = List.map snd (settled w)
      ++ List.map (fun _ => Failed queueClearedError) (requestQueue (gate w))
  /\ forall after w2, run after w1 = Some w2 ->
       worker w2 = Crashed
       /\ executions w2 = executions w
       /\ settled w2 = settled (clearQueue w).
Proof.
  intros Hrun Hwk Hstep. split.
  { unfold clearQueue. cbn. by rewrite List.map_app, List.map_map. }
  pose proof (run_worker options startTime before w Hrun) as Hw.
  unfold workerInv in Hw. rewrite Hwk in Hw. destruct Hw as [Hp _].
  unfold step in Hstep. cbn [worker clearQueue] in Hstep. rewrite Hwk in Hstep.
  destruct (wake <=? _); [|done]. apply (inj Some) in Hstep.
  set (wedged := fun w2 : World =>
         (worker w2 = Crashed /\ isProcessing (gate w2) = true)
         /\ executions w2 = executions w /\ settled w2 = settled (clearQueue w)).
  intros after w2 Hafter.
  assert (H : wedged w2); [|destruct H as [[? _] ?]; done].
  refine (run_invariant wedged _ after w1 w2 Hafter _).
  - intros e wa wb Hab [[Hk Hpa] [Hx Hsd]]. unfold wedged.
    destruct e as [fn id|ms| | |o|i]; unfold step in Hab.
    + apply (inj Some) in Hab as <-. unfold queueRequest, processQueue. cbn.
      rewrite Hpa. cbn. done.
    + by apply (inj Some) in Hab as <-.
    + by rewrite Hk in Hab.
    + by rewrite Hk in Hab.
    + by rewrite Hk in Hab.
    + destruct (retryTimers wa !! i) as [[dueAt r]|]; [|done].
      destruct (dueAt <=? now wa); [|done]. apply (inj Some) in Hab as <-.
      unfold processQueue. cbn. rewrite Hpa. cbn. done.
  - rewrite <- Hstep. unfold wedged, beginExecution, clearQueue. cbn. done.
Qed.

Lemma clearing_the_queue_under_a_sleeping_worker_wedges_the_gate_witness :
  exists w w1 w2,
    Sample.gateAsleep = Some w
    /\ worker w = SleepingInterval 11500
    /\ List.map requestId (requestQueue (gate w)) = ["b"]
    /\ step WakeFromInterval (clearQueue w) = Some w1
    /\ run [ QueueRequest 3 (Some "c"); Elapse 100000 ] w1 = Some w2
    /\ List.map requestId (requestQueue (gate w2)) = ["c"]
    /\ worker w2 = Crashed
    /\ executions w2 = executions w
    /\ settled w2 = settled (clearQueue w).
Proof.
  eexists _, _, _. split; [vm_compute; reflexivity|].
  split; [vm_compute; reflexivity|]. split; [vm_compute; reflexivity|].
  split; [vm_compute; reflexivity|]. split; [vm_compute; reflexivity|].
  split; [vm_compute; reflexivity|].
  lazymatch goal with
  | |- worker ?w2 = _ /\ executions _ = executions ?w /\ _ =>
      refine (proj2 (clearing_the_queue_under_a_sleeping_worker_wedges_the_gate
                clientOptions 10000
                [ QueueRequest 1 (Some "a"); QueueRequest 2 (Some "b");
                  RequestDone (Resolved Sample.plainResponse); Elapse 1500 ]
                w 11500 _ _ _ _)
                [ QueueRequest 3 (Some "c"); Elapse 100000 ] w2 _)
  end; vm_compute; reflexivity.
Defined.

Lemma step_asleep wake e w w' :
  step e w = Some w' -> workerInv w -> asleepUntil wake w -> asleepUntil wake w'.
Proof.
  intros Hstep Hw Ha Hnow.
  assert (Hlt : now w < wake).
  { destruct (step_config e w w' Hstep) as [_ ?]. lia. }
  specialize (Ha Hlt). unfold workerInv in Hw. rewrite Ha in Hw.
  destruct Hw as [Hp _].
  destruct e as [fn id|ms| | |o|i]; unfold step in Hstep.
  - apply (inj Some) in Hstep as <-. unfold queueRequest, processQueue. cbn.
    by rewrite Hp.
  - by apply (inj Some) in Hstep as <-.
  - rewrite Ha in Hstep. destruct (Z.leb_spec wake (now w)); [lia|done].
  - by rewrite Ha in Hstep.
  - by rewrite Ha in Hstep.
  - destruct (retryTimers w !! i) as [[dueAt r]|]; [|done].
    destruct (dueAt <=? now w); [|done]. apply (inj Some) in Hstep as <-.
    unfold processQueue. cbn. by rewrite Hp.
Qed.

(** X10.  [resetPenalties] takes the penalty off at once, so that
    [isHealthy] looks at the queue alone, but it does not end a penalty
    sleep the worker is in: no execution begins before the time the sleep
    was set to end. *)
Theorem resetting_penalties_does_not_end_a_penalty_sleep
    options startTime before w wake :
  run before (boot options startTime) = Some w ->
  worker w = SleepingPenalty wake ->
  isHealthy (gate (resetPenalties w)) = (length (requestQueue (gate w)) <? 10)%nat
  /\ forall after w2, run after (resetPenalties w) = Some w2 ->
       forall x, In x (executions w2) ->
         In x (executions w) \/ wake <= startedAt x.
Proof.
  intros Hrun Hwk. split; [reflexivity|].
  pose proof (run_worker options startTime before w Hrun) as Hw.
  intros after w2 Hafter.
  assert (H : (workerInv w2 /\ asleepUntil wake w2)
              /\ forall x, In x (executions w2) ->
                   In x (executions w) \/ wake <= startedAt x); [|by destruct H].
  refine (run_invariant
            (fun w2 => (workerInv w2 /\ asleepUntil wake w2)
                       /\ forall x, In x (executions w2) ->
                            In x (executions w) \/ wake <= startedAt x)
            _ after _ w2 Hafter _).
  - intros e wa wb Hab [[Hwa Hsa] Hxa].
    pose proof (step_asleep wake e wa wb Hab Hwa Hsa) as Hsb.
    split; [split; [by apply (step_worker e wa)|done]|].
    intros x Hx.
    destruct (step_executions e wa wb Hab Hwa x Hx) as [?|[Hat Hfl]]; [auto|].
    right. rewrite Hat. destruct (Z.lt_ge_cases (now wb) wake) as [Hlt|?]; [|lia].
    rewrite (Hsb Hlt) in Hfl. done.
  - split; [split|]; [| |intros x Hx; by left].
    + unfold workerInv in *. cbn [worker resetPenalties gate].
      rewrite Hwk in *. exact Hw.
    + intros _. exact Hwk.
Qed.

Lemma resetting_penalties_does_not_end_a_penalty_sleep_witness :
  exists w w2,
    run [ QueueRequest 1 (Some "a"); QueueRequest 2 (Some "b");
          RequestDone (Sample.penalized Sample.captcha) ]
        (boot clientOptions 10000) = Some w
    /\ worker w = SleepingPenalty 3610000
    /\ isHealthy (gate w) = false
    /\ isHealthy (gate (resetPenalties w)) = true
    /\ run [ Elapse 3600000; WakeFromPenalty ] (resetPenalties w) = Some w2
    /\ List.map startedAt (executions w2) = [3610000; 10000]
    /\ forall x, In x (executions w2) ->
         In x (executions w) \/ 3610000 <= startedAt x.
Proof.
  eexists _, _. split; [vm_compute; reflexivity|].
  split; [vm_compute; reflexivity|]. split; [vm_compute; reflexivity|].
  split; [vm_compute; reflexivity|]. split; [vm_compute; reflexivity|].
  split; [vm_compute; reflexivity|].
  lazymatch goal with
  | |- forall x, In x (executions ?w2) -> In x (executions ?w) \/ _ =>
      refine (proj2 (resetting_penalties_does_not_end_a_penalty_sleep
                clientOptions 10000
                [ QueueRequest 1 (Some "a"); QueueRequest 2 (Some "b");
                  RequestDone (Sample.penalized Sample.captcha) ]
                w 3610000 _ _)
                [ Elapse 3600000; WakeFromPenalty ] w2 _)
  end; vm_compute; reflexivity.
Defined.

End GateExtras.

(* ===================================================================== *)
(** * The contract cache and the front month of the brokerage client       *)
(* ===================================================================== *)

Section ContractCache.

Import TradovateClient.

Implicit Types (c : TradovateClient.t) (a b x : Contract).

Lemma isCacheValid_stamped (now stamp : Z) c sym info :
  stamp <> 0 ->
  isCacheValid now (cacheContract stamp c sym info)
  = (now - stamp <? 24 * 60 * 60 * 1000).
Proof.
  intros Hs. unfold isCacheValid, cacheContract. cbn [cacheTimestamp].
  by rewrite (proj2 (Z.eqb_neq _ _) Hs).
Qed.

Lemma compareByName_le a b : compareByName a b <= 0 <-> notLater a b.
Proof.
  unfold compareByName, notLater. cbn zeta.
  destruct (Z.eqb_spec (year (extractYearMonth (name a)))
                       (year (extractYearMonth (name b)))); cbn [negb]; lia.
Qed.

Lemma compareByName_gt a b : 0 < compareByName a b <-> earlier b a.
Proof.
  unfold compareByName, earlier. cbn zeta.
  destruct (Z.eqb_spec (year (extractYearMonth (name a)))
                       (year (extractYearMonth (name b)))); cbn [negb]; lia.
Qed.

Lemma notLater_trans a b x : notLater a b -> notLater b x -> notLater a x.
Proof. unfold notLater. cbn zeta. lia. Qed.

Lemma earlier_notLater_trans a b x : earlier a b -> notLater b x -> earlier a x.
Proof. unfold earlier, notLater. cbn zeta. lia. Qed.

Lemma earlier_trans a b x : earlier a b -> earlier b x -> earlier a x.
Proof. unfold earlier. cbn zeta. lia. Qed.

Lemma head_insertByName a sorted :
  List.head (insertByName a sorted)
  = match List.head sorted with
    | None => Some a
    | Some x => if compareByName a x <=? 0 then Some a else Some x
    end.
Proof.
  destruct sorted as [|x rest]; [done|]. cbn.
  by destruct (compareByName a x <=? 0).
Qed.

(** X23.  The contract cache has one timestamp for all its symbols, and
    caching any symbol sets it.  So when the contract of one symbol is
    looked up and cached, a symbol resolved earlier whose entry had expired
    is served from the cache again, with no lookup, for the next 24 hours;
    after them no symbol is served from the cache. *)
Theorem lookup_of_one_symbol_revives_the_expired_ones
    (lookupTime now : Z) c (sym other : string) (old fresh : ContractInfo)
    (lookup again : Collector.Reply ContractInfo) :
  contractCache c !! sym = Some old ->
  sym <> other ->
  isCacheValid lookupTime c = false ->
  Collector.outcome lookup = inr fresh ->
  0 < lookupTime ->
  exists c',
    getCurrentContract lookupTime c sym again
    = (match Collector.outcome again with
       | inl _ => c
       | inr contract =>
           cacheContract (lookupTime + Z.of_N (Collector.elapsed again)) c sym
             contract
       end,
       Collector.outcome again)
    /\ getCurrentContract lookupTime c other lookup = (c', inr fresh)
    /\ (now - (lookupTime + Z.of_N (Collector.elapsed lookup))
          < 24 * 60 * 60 * 1000 ->
        getCurrentContract now c' sym again = (c', inr old)
        /\ getCurrentContract now c' other again = (c', inr fresh))
    /\ (24 * 60 * 60 * 1000
          <= now - (lookupTime + Z.of_N (Collector.elapsed lookup)) ->
        forall any, getCachedContract now c' any = None).
Proof.
  intros Hold Hne Hexp Hfresh Hpos.
  assert (Hmiss : forall s, getCachedContract lookupTime c s = None)
    by (intros s; unfold getCachedContract; by rewrite Hexp).
  eexists. split; [|split; [|split]].
  - unfold getCurrentContract. rewrite Hmiss.
    by destruct (Collector.outcome again).
  - unfold getCurrentContract. rewrite Hmiss, Hfresh. reflexivity.
  - intros Hin. unfold getCurrentContract, getCachedContract.
    rewrite isCacheValid_stamped by lia.
    rewrite (proj2 (Z.ltb_lt _ _) Hin). cbn [negb contractCache cacheContract].
    rewrite lookup_insert_ne by done. rewrite Hold.
    by rewrite lookup_insert_eq.
  - intros Hout any. unfold getCachedContract.
    rewrite isCacheValid_stamped by lia.
    by rewrite (proj2 (Z.ltb_ge _ _) Hout).
Qed.

Lemma lookup_of_one_symbol_revives_the_expired_ones_witness :
  getCachedContract (1000 + 25 * 60 * 60 * 1000) Sample.esCached "ES" = None
  /\ exists c',
       getCurrentContract (1000 + 25 * 60 * 60 * 1000) Sample.esCached "NQ"
         (Collector.mkReply 300%N (inr Sample.nqContract))
       = (c', inr Sample.nqContract)
       /\ getCurrentContract (1000 + 47 * 60 * 60 * 1000) c' "ES"
            (Collector.mkReply 300%N (inl "Request failed with status code 500"))
          = (c', inr Sample.esContract).
Proof.
  split; [by vm_compute|].
  destruct (lookup_of_one_symbol_revives_the_expired_ones
              (1000 + 25 * 60 * 60 * 1000) (1000 + 47 * 60 * 60 * 1000)
              Sample.esCached "ES" "NQ" Sample.esContract Sample.nqContract
              (Collector.mkReply 300%N (inr Sample.nqContract))
              (Collector.mkReply 300%N
                 (inl "Request failed with status code 500"))
              eq_refl ltac:(discriminate) eq_refl eq_refl eq_refl)
    as (c' & _ & Hlookup & Hin & _).
  exists c'. split; [exact Hlookup|].
  apply Hin. cbn. lia.
Defined.

(** X24.  When no contract has an expiration date the front month is
    chosen by name: the contract chosen is the first of the list whose
    year and month, read off the last letter and the one digit that end
    its name, are the earliest; every contract before it in the list is
    strictly later, and none after it is earlier.  There is a choice
    whenever the list is not empty. *)
Theorem front_month_by_name_is_the_first_earliest
    (activeContracts : list Contract) :
  activeContracts <> [] ->
  exists before chosen after,
    activeContracts = before ++ chosen :: after
    /\ frontMonthByName activeContracts = Some chosen
    /\ (forall x, In x before -> earlier chosen x)
    /\ (forall x, In x after -> notLater chosen x).
Proof.
  unfold frontMonthByName.
  induction activeContracts as [|a l IH]; [done|]. intros _.
  cbn [sortByName List.fold_right]. rewrite head_insertByName.
  destruct l as [|b l'].
  { exists [], a, []. cbn. by repeat split. }
  destruct IH as (before & m & after & Hl & Hhead & Hbefore & Hafter); [done|].
  fold (sortByName (b :: l')). rewrite Hhead.
  destruct (Z.leb_spec (compareByName a m) 0) as [Hle|Hgt].
  - apply compareByName_le in Hle.
    exists [], a, (b :: l'). repeat split; [by intros ? []|].
    intros x Hx. rewrite Hl in Hx.
    apply List.in_app_iff in Hx as [Hx|[<-|Hx]]; [|done|].
    + destruct (Hbefore x Hx) as [?|[? ?]]; unfold notLater in *; cbn zeta in *; lia.
    + by eapply notLater_trans; [exact Hle|apply Hafter].
  - apply compareByName_gt in Hgt.
    exists (a :: before), m, after. rewrite Hl. repeat split; [|done].
    intros x [<-|Hx]; [done|by apply Hbefore].
Qed.

Lemma front_month_by_name_is_the_first_earliest_witness :
  frontMonthByName Sample.listedContracts = Some {| name := "MNQH0"; id := 4 |}
  /\ exists before chosen after,
    Sample.listedContracts = before ++ chosen :: after
    /\ frontMonthByName Sample.listedContracts = Some chosen
    /\ (forall x, In x before -> earlier chosen x)
    /\ (forall x, In x after -> notLater chosen x).
Proof.
  split; [by vm_compute|].
  apply (front_month_by_name_is_the_first_earliest Sample.listedContracts).
  discriminate.
Defined.

End ContractCache.
